(** * First-fit memory allocation simulator: model of [src/ff_sim.c]

    The C program keeps three fixed-size arrays (memory blocks, process
    records, a circular wait queue) and five counters in one
    [SystemMemory] structure that every function receives by pointer.
    The model below keeps that shape: arrays are lists whose length is the
    declared array size, [int] values are [Z] with the two's-complement
    wrap-around written out at every addition and subtraction, and each C
    function is a state-passing computation that also collects the lines
    the function prints.  An array access outside the array stops the
    computation with [OutOfBounds] (the C program has no defined behaviour
    from that point on). *)

From Stdlib Require Import ZArith Lia List Bool.
From stdpp Require Import base tactics list.
Import ListNotations.
Open Scope Z_scope.

(** ** Limits and machine integers *)

Definition MAX_BLOCKS : Z := 50.
Definition MAX_PROCESSES : Z := 50.
Definition MAX_WAIT_QUEUE : Z := 50.

Definition INT_MAX : Z := 2147483647.
Definition INT_MIN : Z := -2147483648.

(** Result of an [int] addition or subtraction whose exact value is [z]. *)
Definition wrap (z : Z) : Z := (z - INT_MIN) mod 4294967296 + INT_MIN.

Definition in_int (z : Z) : Prop := INT_MIN <= z <= INT_MAX.

(** ** Data model *)

Module MemoryBlock.
Record t : Type := mk { start : Z; size : Z; is_free : Z }.
End MemoryBlock.

Module Process.
Record t : Type :=
    mk { id : Z; memory_address : Z; memory_size : Z; is_active : Z }.
End Process.

Module WaitingProcess.
Record t : Type := mk { process_id : Z; memory_size : Z }.
End WaitingProcess.

Record SystemMemory : Type := mkSystemMemory {
  blocks : list MemoryBlock.t;
  processes : list Process.t;
  wait_queue : list WaitingProcess.t;
  num_blocks : Z;
  num_processes : Z;
  wait_queue_count : Z;
  wait_queue_front : Z;
  wait_queue_rear : Z
}.

(** Lines written to standard output by the engine and by [main]. *)
Inductive msg : Type :=
| WaitQueueFull (process_id : Z)
| AddedToWaitQueue (process_id : Z)
| MovedFromWaitQueue (process_id : Z)
| MemoryFreed (process_id : Z)
| ProcessNotFound (process_id : Z)
| MemoryAllocatedAt (address : Z)
| ProcessAddedToWaitQueue.

(** ** Computations over the shared structure *)

Inductive result (A : Type) : Type :=
| Ok (a : A) (s : SystemMemory) (out : list msg)
| OutOfBounds (s : SystemMemory) (out : list msg)
| Diverged.
Arguments Ok {A} a s out.
Arguments OutOfBounds {A} s out.
Arguments Diverged {A}.

Definition M (A : Type) : Type := SystemMemory -> result A.

Definition ret {A} (a : A) : M A := fun s => Ok a s [].

Definition bind {A B} (m : M A) (f : A -> M B) : M B := fun s =>
  match m s with
  | Ok a s1 o1 =>
      match f a s1 with
      | Ok b s2 o2 => Ok b s2 (o1 ++ o2)
      | OutOfBounds s2 o2 => OutOfBounds s2 (o1 ++ o2)
      | Diverged => Diverged
      end
  | OutOfBounds s1 o1 => OutOfBounds s1 o1
  | Diverged => Diverged
  end.

Notation "x <- m ;; k" := (bind m (fun x => k))
  (at level 100, m at next level, right associativity).
Notation "m ;;; k" := (bind m (fun _ => k))
  (at level 100, k at level 200, right associativity).

Definition get {A} (f : SystemMemory -> A) : M A := fun s => Ok (f s) s [].
Definition modify (f : SystemMemory -> SystemMemory) : M unit :=
  fun s => Ok tt (f s) [].
Definition printf (m : msg) : M unit := fun s => Ok tt s [m].
Definition out_of_bounds {A} : M A := fun s => OutOfBounds s [].

Definition set_blocks (v : list MemoryBlock.t) (s : SystemMemory) :=
  mkSystemMemory v (processes s) (wait_queue s) (num_blocks s)
    (num_processes s) (wait_queue_count s) (wait_queue_front s)
    (wait_queue_rear s).
Definition set_processes (v : list Process.t) (s : SystemMemory) :=
  mkSystemMemory (blocks s) v (wait_queue s) (num_blocks s)
    (num_processes s) (wait_queue_count s) (wait_queue_front s)
    (wait_queue_rear s).
Definition set_wait_queue (v : list WaitingProcess.t) (s : SystemMemory) :=
  mkSystemMemory (blocks s) (processes s) v (num_blocks s)
    (num_processes s) (wait_queue_count s) (wait_queue_front s)
    (wait_queue_rear s).
Definition set_num_blocks (v : Z) (s : SystemMemory) :=
  mkSystemMemory (blocks s) (processes s) (wait_queue s) v
    (num_processes s) (wait_queue_count s) (wait_queue_front s)
    (wait_queue_rear s).
Definition set_num_processes (v : Z) (s : SystemMemory) :=
  mkSystemMemory (blocks s) (processes s) (wait_queue s) (num_blocks s)
    v (wait_queue_count s) (wait_queue_front s) (wait_queue_rear s).
Definition set_wait_queue_count (v : Z) (s : SystemMemory) :=
  mkSystemMemory (blocks s) (processes s) (wait_queue s) (num_blocks s)
    (num_processes s) v (wait_queue_front s) (wait_queue_rear s).
Definition set_wait_queue_front (v : Z) (s : SystemMemory) :=
  mkSystemMemory (blocks s) (processes s) (wait_queue s) (num_blocks s)
    (num_processes s) (wait_queue_count s) v (wait_queue_rear s).
Definition set_wait_queue_rear (v : Z) (s : SystemMemory) :=
  mkSystemMemory (blocks s) (processes s) (wait_queue s) (num_blocks s)
    (num_processes s) (wait_queue_count s) (wait_queue_front s) v.

(** Array element access: index [i] of an array stored as the list [a]. *)
Definition index_ok {A} (a : list A) (i : Z) : bool :=
  (0 <=? i) && (i <? Z.of_nat (length a)).

Definition array_get {A} (a : list A) (i : Z) : option A :=
  if index_ok a i then a !! Z.to_nat i else None.

Definition array_set {A} (a : list A) (i : Z) (x : A) : option (list A) :=
  if index_ok a i then Some (<[Z.to_nat i := x]> a) else None.

Definition read_block (i : Z) : M MemoryBlock.t := fun s =>
  match array_get (blocks s) i with
  | Some b => Ok b s []
  | None => OutOfBounds s []
  end.
Definition write_block (i : Z) (b : MemoryBlock.t) : M unit := fun s =>
  match array_set (blocks s) i b with
  | Some v => Ok tt (set_blocks v s) []
  | None => OutOfBounds s []
  end.
Definition read_process (i : Z) : M Process.t := fun s =>
  match array_get (processes s) i with
  | Some p => Ok p s []
  | None => OutOfBounds s []
  end.
Definition write_process (i : Z) (p : Process.t) : M unit := fun s =>
  match array_set (processes s) i p with
  | Some v => Ok tt (set_processes v s) []
  | None => OutOfBounds s []
  end.
Definition read_waiting (i : Z) : M WaitingProcess.t := fun s =>
  match array_get (wait_queue s) i with
  | Some w => Ok w s []
  | None => OutOfBounds s []
  end.
Definition write_waiting (i : Z) (w : WaitingProcess.t) : M unit := fun s =>
  match array_set (wait_queue s) i w with
  | Some v => Ok tt (set_wait_queue v s) []
  | None => OutOfBounds s []
  end.

(** ** The functions of [ff_sim.c] *)

(** [memset(sys, 0, sizeof(SystemMemory))] *)
Definition zeroed : SystemMemory :=
  mkSystemMemory
    (replicate (Z.to_nat MAX_BLOCKS) (MemoryBlock.mk 0 0 0))
    (replicate (Z.to_nat MAX_PROCESSES) (Process.mk 0 0 0 0))
    (replicate (Z.to_nat MAX_WAIT_QUEUE) (WaitingProcess.mk 0 0))
    0 0 0 0 0.

(** [block_sizes[i]], an element of the array of the caller. *)
Definition read_size (block_sizes : list Z) (i : Z) : M Z := fun s =>
  match array_get block_sizes i with
  | Some sz => Ok sz s []
  | None => OutOfBounds s []
  end.

(** The body of the [for] loop of [initialize_memory]: [n] iterations are
    left, [i] is the loop index.  The three fields of [blocks[i]] are
    stored one after the other, the start before [block_sizes[i]] is
    read. *)
Fixpoint initialize_loop (n : nat) (i : Z) (start_address : Z)
    (block_sizes : list Z) : M unit :=
  match n with
  | O => ret tt
  | S n' =>
      b <- read_block i ;;
      write_block i (MemoryBlock.mk start_address (MemoryBlock.size b)
                                    (MemoryBlock.is_free b)) ;;;
      sz <- read_size block_sizes i ;;
      write_block i (MemoryBlock.mk start_address sz
                                    (MemoryBlock.is_free b)) ;;;
      write_block i (MemoryBlock.mk start_address sz 1) ;;;
      sz' <- read_size block_sizes i ;;
      initialize_loop n' (i + 1) (wrap (start_address + sz')) block_sizes
  end.

Definition initialize_memory (num_blocks : Z) (block_sizes : list Z)
    : M unit :=
  modify (fun _ => zeroed) ;;;
  initialize_loop (Z.to_nat num_blocks) 0 0 block_sizes ;;;
  modify (set_num_blocks num_blocks) ;;;
  modify (set_wait_queue_front 0) ;;;
  modify (set_wait_queue_rear (-1)) ;;;
  modify (set_wait_queue_count 0).

Fixpoint total_free_loop (n : nat) (i : Z) (total_free : Z) : M Z :=
  match n with
  | O => ret total_free
  | S n' =>
      b <- read_block i ;;
      total_free_loop n' (i + 1)
        (if MemoryBlock.is_free b =? 0 then total_free
         else wrap (total_free + MemoryBlock.size b))
  end.

Definition get_total_free_memory : M Z :=
  n <- get num_blocks ;;
  total_free_loop (Z.to_nat n) 0 0.

Definition add_to_wait_queue (process_id size : Z) : M Z :=
  count <- get wait_queue_count ;;
  if count >=? MAX_WAIT_QUEUE then
    printf (WaitQueueFull process_id) ;;;
    ret 0
  else
    rear <- get wait_queue_rear ;;
    modify (set_wait_queue_rear (Z.rem (wrap (rear + 1)) MAX_WAIT_QUEUE)) ;;;
    rear' <- get wait_queue_rear ;;
    write_waiting rear' (WaitingProcess.mk process_id size) ;;;
    count' <- get wait_queue_count ;;
    modify (set_wait_queue_count (wrap (count' + 1))) ;;;
    printf (AddedToWaitQueue process_id) ;;;
    ret 1.

(** [for (int j = sys->num_blocks; j > i + 1; j--) blocks[j] = blocks[j-1];]
    with [n] iterations left and [j] the loop index. *)
Fixpoint shift_loop (n : nat) (j : Z) : M unit :=
  match n with
  | O => ret tt
  | S n' =>
      b <- read_block (j - 1) ;;
      write_block j b ;;;
      shift_loop n' (j - 1)
  end.

(** The statements executed for the first block [i] that fits: the
    exact-fit or split branch, then the process record. *)
Definition split_block (i size : Z) : M unit :=
  b <- read_block i ;;
  if MemoryBlock.size b =? size then
    write_block i (MemoryBlock.mk (MemoryBlock.start b) (MemoryBlock.size b) 0)
  else
    n <- get num_blocks ;;
    shift_loop (Z.to_nat (n - (i + 1))) n ;;;
    write_block (i + 1)
      (MemoryBlock.mk (wrap (MemoryBlock.start b + size))
                      (wrap (MemoryBlock.size b - size)) 1) ;;;
    write_block i (MemoryBlock.mk (MemoryBlock.start b) size
                                  (MemoryBlock.is_free b)) ;;;
    modify (set_num_blocks (wrap (n + 1))) ;;;
    write_block i (MemoryBlock.mk (MemoryBlock.start b) size 0).

Definition record_process (i process_id size : Z) : M Z :=
  np <- get num_processes ;;
  b <- read_block i ;;
  write_process np (Process.mk process_id (MemoryBlock.start b) size 1) ;;;
  modify (set_num_processes (wrap (np + 1))) ;;;
  b' <- read_block i ;;
  ret (MemoryBlock.start b').

Definition allocate_in_block (i process_id size : Z) : M Z :=
  split_block i size ;;;
  record_process i process_id size.

Fixpoint first_fit_loop (n : nat) (i : Z) (process_id size : Z)
    : M (option Z) :=
  match n with
  | O => ret None
  | S n' =>
      b <- read_block i ;;
      if negb (MemoryBlock.is_free b =? 0) && (MemoryBlock.size b >=? size)
      then
        address <- allocate_in_block i process_id size ;;
        ret (Some address)
      else first_fit_loop n' (i + 1) process_id size
  end.

Definition first_fit_allocate (process_id size : Z) : M Z :=
  n <- get num_blocks ;;
  r <- first_fit_loop (Z.to_nat n) 0 process_id size ;;
  match r with
  | Some address => ret address
  | None =>
      added <- add_to_wait_queue process_id size ;;
      if negb (added =? 0) then ret (-1) else ret (-1)
  end.

Definition try_allocate_waiting_process : M Z :=
  count <- get wait_queue_count ;;
  if count =? 0 then ret 0
  else
    front <- get wait_queue_front ;;
    current_waiting <- read_waiting front ;;
    total_free <- get_total_free_memory ;;
    if total_free <? WaitingProcess.memory_size current_waiting then ret 0
    else
      address <- first_fit_allocate
                   (WaitingProcess.process_id current_waiting)
                   (WaitingProcess.memory_size current_waiting) ;;
      if negb (address =? -1) then
        front' <- get wait_queue_front ;;
        modify (set_wait_queue_front
                  (Z.rem (wrap (front' + 1)) MAX_WAIT_QUEUE)) ;;;
        count' <- get wait_queue_count ;;
        modify (set_wait_queue_count (wrap (count' - 1))) ;;;
        current_waiting' <- read_waiting front ;;
        printf (MovedFromWaitQueue
                  (WaitingProcess.process_id current_waiting')) ;;;
        ret 1
      else ret 0.

(** [while (try_allocate_waiting_process(sys));] with a bound on the
    number of calls; [drain_never_diverges] shows the bound used by
    [free_memory] is never reached. *)
Fixpoint drain_loop (fuel : nat) : M unit :=
  match fuel with
  | O => fun _ => Diverged
  | S fuel' =>
      r <- try_allocate_waiting_process ;;
      if r =? 0 then ret tt else drain_loop fuel'
  end.

Definition drain : M unit := drain_loop (S (Z.to_nat MAX_PROCESSES)).

(** Inner loop of [free_memory]; the result [true] stands for the
    [return] inside the loop. *)
Fixpoint free_block_loop (n : nat) (j : Z) (memory_address process_id : Z)
    : M bool :=
  match n with
  | O => ret false
  | S n' =>
      b <- read_block j ;;
      if MemoryBlock.start b =? memory_address then
        write_block j (MemoryBlock.mk (MemoryBlock.start b)
                                      (MemoryBlock.size b) 1) ;;;
        printf (MemoryFreed process_id) ;;;
        drain ;;;
        ret true
      else free_block_loop n' (j + 1) memory_address process_id
  end.

Fixpoint free_process_loop (n : nat) (i : Z) (process_id : Z) : M bool :=
  match n with
  | O => ret false
  | S n' =>
      p <- read_process i ;;
      if (Process.id p =? process_id) && negb (Process.is_active p =? 0)
      then
        write_process i (Process.mk (Process.id p) (Process.memory_address p)
                                    (Process.memory_size p) 0) ;;;
        nb <- get num_blocks ;;
        returned <- free_block_loop (Z.to_nat nb) 0
                      (Process.memory_address p) process_id ;;
        if returned then ret true
        else free_process_loop n' (i + 1) process_id
      else free_process_loop n' (i + 1) process_id
  end.

Definition free_memory (process_id : Z) : M unit :=
  np <- get num_processes ;;
  returned <- free_process_loop (Z.to_nat np) 0 process_id ;;
  if returned then ret tt else printf (ProcessNotFound process_id).

(** ** The command loop of [main]

    [main] reads validated integers and calls the engine; the validated
    choices are the commands below, and [process_id] is the counter that
    [main] increments at every allocation request. *)

Inductive command : Type :=
| Allocate (size : Z)
| Free (id : Z).

Definition valid_command (process_id : Z) (c : command) : Prop :=
  match c with
  | Allocate size => 1 <= size <= INT_MAX
  | Free id => 1 <= id <= process_id - 1
  end.

Definition main_step (process_id : Z) (c : command) : M Z :=
  match c with
  | Allocate size =>
      address <- first_fit_allocate process_id size ;;
      (if negb (address =? -1) then printf (MemoryAllocatedAt address)
       else printf ProcessAddedToWaitQueue) ;;;
      ret (wrap (process_id + 1))
  | Free id =>
      free_memory id ;;;
      ret process_id
  end.

Fixpoint main_loop (cs : list command) (process_id : Z) : M Z :=
  match cs with
  | [] => ret process_id
  | c :: cs' =>
      process_id' <- main_step process_id c ;;
      main_loop cs' process_id'
  end.

(** [main] from the call of [initialize_memory] on, for the block sizes
    read from the user and the commands that follow. *)
Definition main (block_sizes : list Z) (cs : list command) : M Z :=
  initialize_memory (Z.of_nat (length block_sizes)) block_sizes ;;;
  main_loop cs 1.

Definition valid_block_sizes (block_sizes : list Z) : Prop :=
  1 <= Z.of_nat (length block_sizes) <= MAX_BLOCKS /\
  Forall (fun sz => 1 <= sz <= INT_MAX) block_sizes.

(** ** Views of the arrays *)

Definition block_list (s : SystemMemory) : list MemoryBlock.t :=
  take (Z.to_nat (num_blocks s)) (blocks s).

Definition process_list (s : SystemMemory) : list Process.t :=
  take (Z.to_nat (num_processes s)) (processes s).

Definition queue_slot (s : SystemMemory) (k : nat) : option WaitingProcess.t :=
  array_get (wait_queue s)
    (Z.rem (wait_queue_front s + Z.of_nat k) MAX_WAIT_QUEUE).

(** The waiting requests from the front of the queue to its rear, as
    [print_memory_layout] walks them. *)
Definition queue_list (s : SystemMemory) : list (option WaitingProcess.t) :=
  map (queue_slot s) (seq 0 (Z.to_nat (wait_queue_count s))).

(** * Structures the functions leave behind, and the invariant

    The definitions from here to the lemmas describe the structure after
    each function as a term, the outcomes a call can have, and the
    invariant of the engine; the lemmas prove that the functions above
    compute exactly these. *)

(** ** Well-formed storage

    The three lists have the declared array sizes and the counters index
    inside them; the rear of the circular queue is where front and count
    say it is. *)

Record storage_ok (s : SystemMemory) : Prop := {
  blocks_length : Z.of_nat (length (blocks s)) = MAX_BLOCKS;
  processes_length : Z.of_nat (length (processes s)) = MAX_PROCESSES;
  wait_queue_length : Z.of_nat (length (wait_queue s)) = MAX_WAIT_QUEUE;
  num_blocks_range : 0 <= num_blocks s <= MAX_BLOCKS;
  num_processes_range : 0 <= num_processes s <= MAX_PROCESSES;
  wait_queue_count_range : 0 <= wait_queue_count s <= MAX_WAIT_QUEUE;
  wait_queue_front_range : 0 <= wait_queue_front s < MAX_WAIT_QUEUE;
  wait_queue_rear_range : -1 <= wait_queue_rear s < MAX_WAIT_QUEUE;
  wait_queue_rear_front :
    (wait_queue_rear s + 1) mod MAX_WAIT_QUEUE =
    (wait_queue_front s + wait_queue_count s) mod MAX_WAIT_QUEUE
}.

(** ** Reading the block table *)

Definition total_free_of (bs : list MemoryBlock.t) (total_free : Z) : Z :=
  fold_left
    (fun t b => if MemoryBlock.is_free b =? 0 then t
                else wrap (t + MemoryBlock.size b))
    bs total_free.

(** ** The circular wait queue *)

Definition enqueued (process_id size : Z) (s : SystemMemory) : SystemMemory :=
  let rear' := Z.rem (wrap (wait_queue_rear s + 1)) MAX_WAIT_QUEUE in
  set_wait_queue_count (wrap (wait_queue_count s + 1))
    (set_wait_queue
       (<[Z.to_nat rear' := WaitingProcess.mk process_id size]> (wait_queue s))
       (set_wait_queue_rear rear' s)).

Definition dequeued (s : SystemMemory) : SystemMemory :=
  set_wait_queue_count (wrap (wait_queue_count s - 1))
    (set_wait_queue_front
       (Z.rem (wrap (wait_queue_front s + 1)) MAX_WAIT_QUEUE) s).

(** ** Splitting a block *)

Definition fits (size : Z) (b : MemoryBlock.t) : bool :=
  negb (MemoryBlock.is_free b =? 0) && (MemoryBlock.size b >=? size).

(** What the chosen block [b] becomes. *)
Definition allocated_pieces (size : Z) (b : MemoryBlock.t)
    : list MemoryBlock.t :=
  if MemoryBlock.size b =? size then
    [MemoryBlock.mk (MemoryBlock.start b) (MemoryBlock.size b) 0]
  else
    [MemoryBlock.mk (MemoryBlock.start b) size 0;
     MemoryBlock.mk (wrap (MemoryBlock.start b + size))
                    (wrap (MemoryBlock.size b - size)) 1].

Definition blocks_after (i : nat) (size : Z) (b : MemoryBlock.t)
    (s : SystemMemory) : list MemoryBlock.t :=
  let n := Z.to_nat (num_blocks s) in
  if MemoryBlock.size b =? size then
    <[i := MemoryBlock.mk (MemoryBlock.start b) (MemoryBlock.size b) 0]>
      (blocks s)
  else
    take i (blocks s) ++ allocated_pieces size b
    ++ take (n - S i) (drop (S i) (blocks s)) ++ drop (S n) (blocks s).

(** The structure after the exact-fit or split branch on block [i], whose
    contents were [b]. *)
Definition with_split (i : nat) (b : MemoryBlock.t) (size : Z)
    (s : SystemMemory) : SystemMemory :=
  set_num_blocks
    (if MemoryBlock.size b =? size then num_blocks s
     else wrap (num_blocks s + 1))
    (set_blocks (blocks_after i size b s) s).

Definition new_process (process_id size : Z) (b : MemoryBlock.t) : Process.t :=
  Process.mk process_id (MemoryBlock.start b) size 1.

Definition with_process (p : Process.t) (s : SystemMemory) : SystemMemory :=
  set_num_processes (wrap (num_processes s + 1))
    (set_processes (<[Z.to_nat (num_processes s) := p]> (processes s)) s).

(** The structure after [first_fit_allocate] has placed a request in
    block [i], whose contents were [b]. *)
Definition allocated (i : nat) (b : MemoryBlock.t) (process_id size : Z)
    (s : SystemMemory) : SystemMemory :=
  with_process (new_process process_id size b) (with_split i b size s).

(** ** The first-fit search *)

Definition first_fit (size : Z) (s : SystemMemory)
    : option (nat * MemoryBlock.t) :=
  list_find (fun b => fits size b = true) (block_list s).

(** ** Retrying the head of the wait queue *)

Definition total_free (s : SystemMemory) : Z :=
  total_free_of (block_list s) 0.

Definition queue_head (s : SystemMemory) : option WaitingProcess.t :=
  array_get (wait_queue s) (wait_queue_front s).

(** Every way [first_fit_allocate] can end in a well-formed structure. *)
Inductive allocate_outcome (process_id size : Z) (s : SystemMemory)
    : result Z -> Prop :=
| outcome_placed i b :
    first_fit size s = Some (i, b) ->
    (MemoryBlock.size b = size \/ num_blocks s < MAX_BLOCKS) ->
    num_processes s < MAX_PROCESSES ->
    allocate_outcome process_id size s
      (Ok (MemoryBlock.start b) (allocated i b process_id size s) [])
| outcome_blocks_full i b :
    first_fit size s = Some (i, b) ->
    MemoryBlock.size b <> size ->
    num_blocks s = MAX_BLOCKS ->
    allocate_outcome process_id size s (OutOfBounds s [])
| outcome_processes_full i b :
    first_fit size s = Some (i, b) ->
    (MemoryBlock.size b = size \/ num_blocks s < MAX_BLOCKS) ->
    num_processes s = MAX_PROCESSES ->
    allocate_outcome process_id size s
      (OutOfBounds (with_split i b size s) [])
| outcome_queued :
    first_fit size s = None ->
    wait_queue_count s < MAX_WAIT_QUEUE ->
    allocate_outcome process_id size s
      (Ok (-1) (enqueued process_id size s) [AddedToWaitQueue process_id])
| outcome_rejected :
    first_fit size s = None ->
    MAX_WAIT_QUEUE <= wait_queue_count s ->
    allocate_outcome process_id size s
      (Ok (-1) s [WaitQueueFull process_id]).

(** Every way one retry can end in a well-formed structure. *)
Inductive retry_outcome (s : SystemMemory) : result Z -> Prop :=
| retry_empty :
    wait_queue_count s = 0 ->
    retry_outcome s (Ok 0 s [])
| retry_blocked w :
    wait_queue_count s <> 0 -> queue_head s = Some w ->
    total_free s < WaitingProcess.memory_size w ->
    retry_outcome s (Ok 0 s [])
| retry_moved w i b :
    wait_queue_count s <> 0 -> queue_head s = Some w ->
    WaitingProcess.memory_size w <= total_free s ->
    first_fit (WaitingProcess.memory_size w) s = Some (i, b) ->
    (MemoryBlock.size b = WaitingProcess.memory_size w
     \/ num_blocks s < MAX_BLOCKS) ->
    num_processes s < MAX_PROCESSES ->
    MemoryBlock.start b <> -1 ->
    retry_outcome s
      (Ok 1 (dequeued (allocated i b (WaitingProcess.process_id w)
                         (WaitingProcess.memory_size w) s))
          [MovedFromWaitQueue (WaitingProcess.process_id w)])
| retry_minus_one w i b :
    wait_queue_count s <> 0 -> queue_head s = Some w ->
    WaitingProcess.memory_size w <= total_free s ->
    first_fit (WaitingProcess.memory_size w) s = Some (i, b) ->
    (MemoryBlock.size b = WaitingProcess.memory_size w
     \/ num_blocks s < MAX_BLOCKS) ->
    num_processes s < MAX_PROCESSES ->
    MemoryBlock.start b = -1 ->
    retry_outcome s
      (Ok 0 (allocated i b (WaitingProcess.process_id w)
               (WaitingProcess.memory_size w) s) [])
| retry_out_of_bounds w s' :
    wait_queue_count s <> 0 -> queue_head s = Some w ->
    retry_outcome s (OutOfBounds s' [])
| retry_fragmented w :
    wait_queue_count s <> 0 -> queue_head s = Some w ->
    WaitingProcess.memory_size w <= total_free s ->
    first_fit (WaitingProcess.memory_size w) s = None ->
    wait_queue_count s < MAX_WAIT_QUEUE ->
    retry_outcome s
      (Ok 0 (enqueued (WaitingProcess.process_id w)
               (WaitingProcess.memory_size w) s)
          [AddedToWaitQueue (WaitingProcess.process_id w)])
| retry_fragmented_full w :
    wait_queue_count s <> 0 -> queue_head s = Some w ->
    WaitingProcess.memory_size w <= total_free s ->
    first_fit (WaitingProcess.memory_size w) s = None ->
    MAX_WAIT_QUEUE <= wait_queue_count s ->
    retry_outcome s (Ok 0 s [WaitQueueFull (WaitingProcess.process_id w)]).

(** ** Freeing *)

Definition active_with (process_id : Z) (p : Process.t) : bool :=
  (Process.id p =? process_id) && negb (Process.is_active p =? 0).

Definition find_active (process_id : Z) (s : SystemMemory)
    : option (nat * Process.t) :=
  list_find (fun p => active_with process_id p = true) (process_list s).

Definition find_block (address : Z) (s : SystemMemory)
    : option (nat * MemoryBlock.t) :=
  list_find (fun b => MemoryBlock.start b = address) (block_list s).

Definition deactivated (i : nat) (p : Process.t) (s : SystemMemory) :=
  set_processes
    (<[i := Process.mk (Process.id p) (Process.memory_address p)
              (Process.memory_size p) 0]> (processes s)) s.

Definition freed (j : nat) (b : MemoryBlock.t) (s : SystemMemory) :=
  set_blocks
    (<[j := MemoryBlock.mk (MemoryBlock.start b) (MemoryBlock.size b) 1]>
       (blocks s)) s.

(** The result of [free_memory] once the block is marked free: the line
    it prints, then whatever the drain loop does. *)
Definition finish_free {A} (a : A) (process_id : Z) (r : result unit)
    : result A :=
  match r with
  | Ok _ s' out => Ok a s' (MemoryFreed process_id :: out)
  | OutOfBounds s' out => OutOfBounds s' (MemoryFreed process_id :: out)
  | Diverged => Diverged
  end.

(** ** Layout of the block table

    [chain a bs e]: the blocks [bs] tile the address range from [a] to [e]
    in order, each with a positive size. *)

Fixpoint chain (a : Z) (bs : list MemoryBlock.t) (e : Z) : Prop :=
  match bs with
  | [] => a = e
  | b :: bs' =>
      MemoryBlock.start b = a /\ 0 < MemoryBlock.size b /\
      chain (a + MemoryBlock.size b) bs' e
  end.

Definition total_size (bs : list MemoryBlock.t) : Z :=
  fold_right Z.add 0 (map MemoryBlock.size bs).

Definition starts_at_zero (bs : list MemoryBlock.t) : Prop :=
  forall b, bs !! 0%nat = Some b -> MemoryBlock.start b = 0.

Definition contiguous (bs : list MemoryBlock.t) : Prop :=
  forall (i : nat) b b',
    bs !! i = Some b -> bs !! S i = Some b' ->
    MemoryBlock.start b + MemoryBlock.size b = MemoryBlock.start b'.

Definition sorted_by_start (bs : list MemoryBlock.t) : Prop :=
  forall (i j : nat) b b',
    (i < j)%nat -> bs !! i = Some b -> bs !! j = Some b' ->
    MemoryBlock.start b < MemoryBlock.start b'.

Definition no_overlap (bs : list MemoryBlock.t) : Prop :=
  forall (i j : nat) b b',
    (i < j)%nat -> bs !! i = Some b -> bs !! j = Some b' ->
    MemoryBlock.start b + MemoryBlock.size b <= MemoryBlock.start b'.

(** ** The invariant of the engine

    [consistent total s]: the storage is well formed, the blocks tile the
    address range from 0 to [total], every waiting request asks for a
    positive size, every active process owns the allocated block that
    starts at its address, and no two active processes share an address. *)

Definition positive_request (ow : option WaitingProcess.t) : Prop :=
  exists w, ow = Some w /\ 0 < WaitingProcess.memory_size w.

Definition block_of (p : Process.t) : MemoryBlock.t :=
  MemoryBlock.mk (Process.memory_address p) (Process.memory_size p) 0.

Record consistent (total : Z) (s : SystemMemory) : Prop := {
  consistent_storage : storage_ok s;
  consistent_total : total <= INT_MAX;
  consistent_chain : chain 0 (block_list s) total;
  consistent_queue : Forall positive_request (queue_list s);
  consistent_owned :
    forall (k : nat) p,
      process_list s !! k = Some p -> Process.is_active p <> 0 ->
      block_of p ∈ block_list s;
  consistent_distinct :
    forall (k k' : nat) p p',
      process_list s !! k = Some p -> process_list s !! k' = Some p' ->
      Process.is_active p <> 0 -> Process.is_active p' <> 0 ->
      Process.memory_address p = Process.memory_address p' -> k = k'
}.

(** ** Initialization *)

Fixpoint layout (start_address : Z) (block_sizes : list Z)
    : list MemoryBlock.t :=
  match block_sizes with
  | [] => []
  | sz :: rest =>
      MemoryBlock.mk start_address sz 1
      :: layout (wrap (start_address + sz)) rest
  end.

Definition initialized (block_sizes : list Z) : SystemMemory :=
  mkSystemMemory
    (layout 0 block_sizes ++ drop (length block_sizes) (blocks zeroed))
    (processes zeroed) (wait_queue zeroed)
    (Z.of_nat (length block_sizes)) 0 0 0 (-1).

Definition sum_sizes (block_sizes : list Z) : Z := fold_right Z.add 0 block_sizes.

(** ** Runs of [main] *)

Definition next_process_id (process_id : Z) (c : command) : Z :=
  match c with
  | Allocate _ => wrap (process_id + 1)
  | Free _ => process_id
  end.

Fixpoint valid_commands (process_id : Z) (cs : list command) : Prop :=
  match cs with
  | [] => True
  | c :: cs' =>
      valid_command process_id c /\
      valid_commands (next_process_id process_id c) cs'
  end.

(** [s] is the structure [main] holds after it has initialized the blocks
    from the validated sizes and executed some validated commands. *)
Definition reachable (block_sizes : list Z) (s : SystemMemory) : Prop :=
  valid_block_sizes block_sizes /\
  exists cs s0 process_id out,
    valid_commands 1 cs /\ main block_sizes cs s0 = Ok process_id s out.

(** ** Statements about the allocator *)

Definition fitting (size : Z) (b : MemoryBlock.t) : Prop :=
  MemoryBlock.is_free b <> 0 /\ size <= MemoryBlock.size b.

(** Block [i], with contents [b], is the lowest-index block that is free
    and at least [size] large. *)
Definition chosen (size : Z) (s : SystemMemory) (i : nat)
    (b : MemoryBlock.t) : Prop :=
  block_list s !! i = Some b /\ fitting size b /\
  forall (j : nat) c,
    (j < i)%nat -> block_list s !! j = Some c -> ~ fitting size c.

Definition state_of {A} (r : result A) : SystemMemory :=
  match r with
  | Ok _ s _ | OutOfBounds s _ => s
  | Diverged => zeroed
  end.

(** *** Scenario of the specification: blocks 100, 500, 200, 300, 600 *)

Definition scenario_blocks : list Z := [100; 500; 200; 300; 600].

Definition scenario_after_212 : SystemMemory :=
  state_of (first_fit_allocate 1 212 (initialized scenario_blocks)).

Definition scenario_after_900 : SystemMemory :=
  state_of (first_fit_allocate 2 900 scenario_after_212).

(** *** Head-of-line blocking *)

Definition blocked_commands : list command :=
  [Allocate 100; Allocate 100; Allocate 150; Allocate 50; Free 1].

Definition blocked_state : SystemMemory :=
  state_of (main [100; 100] blocked_commands zeroed).

(** *** Invariants of the reachable structures *)

(** The blocks are laid out from address 0 without gaps or overlaps, in
    ascending order of start, and their sizes add up to [total]. *)
Definition tiles (total : Z) (bs : list MemoryBlock.t) : Prop :=
  starts_at_zero bs /\ contiguous bs /\ sorted_by_start bs /\
  no_overlap bs /\ total_size bs = total.

Definition scenario_run : result Z :=
  main scenario_blocks [Allocate 212; Allocate 900; Allocate 100] zeroed.

(** Every active process owns an allocated block: one that starts at the
    recorded address, has the recorded size and is marked allocated. *)
Definition owns_blocks (s : SystemMemory) : Prop :=
  forall (k : nat) p,
    process_list s !! k = Some p -> Process.is_active p <> 0 ->
    exists (j : nat) b,
      block_list s !! j = Some b /\
      MemoryBlock.start b = Process.memory_address p /\
      MemoryBlock.is_free b = 0 /\
      MemoryBlock.size b = Process.memory_size p.

(** [free_memory] on the id of an active process finds the process and
    then a block at its address: it deactivates the process, marks that
    block free, prints the line and runs the drain loop; it never leaves
    the inner loop without a block. *)
Definition free_reaches_block (s : SystemMemory) : Prop :=
  forall (process_id : Z) (k : nat) p,
    process_list s !! k = Some p -> Process.id p = process_id ->
    Process.is_active p <> 0 ->
    exists (i : nat) q (j : nat) b,
      find_active process_id s = Some (i, q) /\
      find_block (Process.memory_address q) s = Some (j, b) /\
      MemoryBlock.is_free b = 0 /\
      free_memory process_id s =
        finish_free tt process_id (drain (freed j b (deactivated i q s))).

Definition wrapped_sizes : list Z := [2147483647; 2147483647; 2; 5].

Definition wrapped_commands : list command :=
  [Allocate 2147483647; Allocate 2147483647; Allocate 2; Allocate 5; Free 4].

Definition wrapped_state : SystemMemory :=
  state_of (main wrapped_sizes wrapped_commands zeroed).

(** *** Behaviour at the failing inputs *)

Definition fragmented_commands : list command :=
  [Allocate 100; Allocate 100; Allocate 150; Free 1].

Definition before_free_2 : SystemMemory :=
  state_of (main [100; 100] fragmented_commands zeroed).

(** The structure inside [free_memory(sys, 2)] when the drain loop starts:
    process 2 deactivated, its block marked free. *)
Definition at_retry : SystemMemory :=
  freed 1 (MemoryBlock.mk 100 100 0)
    (deactivated 1 (Process.mk 2 100 100 1) before_free_2).

Definition after_retry : SystemMemory :=
  state_of (try_allocate_waiting_process at_retry).

Definition fifty_blocks : list Z := replicate 50 2.

Definition fill_process_table : list command :=
  flat_map (fun k => [Allocate 10; Free (Z.of_nat k)]) (seq 1 50).

Definition process_table_full : SystemMemory :=
  state_of (main [10] fill_process_table zeroed).

Definition fill_queue : list command :=
  Allocate 1 :: replicate 50 (Allocate 1).

Definition one_allocated : SystemMemory :=
  state_of (main [1] [Allocate 1] zeroed).

Definition queue_full : SystemMemory :=
  state_of (main [1] fill_queue zeroed).

Definition double_allocation_commands : list command :=
  [Allocate 100; Allocate 100; Allocate 300; Allocate 150;
   Free 1; Free 2; Free 3; Free 4].

Definition freed_once : SystemMemory :=
  state_of (main [100; 100; 300] double_allocation_commands zeroed).

Definition freed_twice : SystemMemory :=
  state_of (free_memory 4 freed_once).

(** *** Start addresses beyond [INT_MAX]

    Block sizes 2147483647 and 2: the second block starts at 2147483647.
    The first request takes the first block whole, the second request,
    of size 1, splits the second block. *)




(** *** Head-of-line blocking with fragmented free memory

    The structure of [blocked_state] inside [free_memory(sys, 2)], when
    the drain loop starts: both blocks of 100 are free, request 3 for 150
    is at the front, request 4 for 50 behind it. *)
Definition blocked_fragmented : SystemMemory :=
  freed 1 (MemoryBlock.mk 100 100 0)
    (deactivated 1 (Process.mk 2 100 100 1) blocked_state).

(** *** Runs that come to a full table

    [first_fit_allocate] does not compare the counters with the array
    sizes (C2): a split with 50 blocks, or a process record with 50
    records, is written beyond the table.  The model stops there with
    [OutOfBounds] and the structure in which the write is attempted. *)

Definition table_full (s : SystemMemory) : Prop :=
  num_blocks s = MAX_BLOCKS \/ num_processes s = MAX_PROCESSES.

(** [P] holds of the structure a computation ends with: the one it
    returns, or the one in which it attempts a write beyond a full table;
    and the computation does come to an end. *)
Definition ends_with {A} (P : SystemMemory -> Prop) (r : result A) : Prop :=
  match r with
  | Ok _ s _ => P s
  | OutOfBounds s _ => P s /\ table_full s
  | Diverged => False
  end.

(** [P] holds together with the invariant of the engine. *)
Definition engine_invariant (total : Z) (P : SystemMemory -> Prop)
    (s : SystemMemory) : Prop :=
  consistent total s /\ P s.

(** The process record [p] is an active record for the request [w]. *)
Definition serves (w : WaitingProcess.t) (p : Process.t) : Prop :=
  Process.id p = WaitingProcess.process_id w /\
  Process.memory_size p = WaitingProcess.memory_size w /\
  Process.is_active p = 1.

(** * Further definitions: the remaining functions and their properties *)

(** Sum of the sizes of the free blocks, in unbounded arithmetic. *)
Definition free_size (bs : list MemoryBlock.t) : Z :=
  fold_right
    (fun b t =>
       (if MemoryBlock.is_free b =? 0 then 0 else MemoryBlock.size b) + t)
    0 bs.

(** One block of size 1; process 1 takes it, then 49 times a request
    waits until the process before it is freed, and a last request
    waits: the front of the circular queue has reached slot 49. *)
Definition advance_queue_commands : list command :=
  Allocate 1
  :: flat_map (fun k => [Allocate 1; Free (Z.of_nat k)]) (seq 1 49)
  ++ [Allocate 1].

Definition queue_at_the_end : SystemMemory :=
  state_of (main [1] advance_queue_commands zeroed).

(** One block of 100 held by process 1, requests 2 (50) and 3 (30)
    waiting; then the structure inside [free_memory(sys, 1)] when the
    drain loop starts. *)
Definition two_waiting : SystemMemory :=
  state_of (main [100] [Allocate 100; Allocate 50; Allocate 30] zeroed).

Definition two_waiting_at_retry : SystemMemory :=
  freed 0 (MemoryBlock.mk 0 100 0)
    (deactivated 0 (Process.mk 1 0 100 1) two_waiting).


(** [s'] keeps what [s] recorded: no block boundary and no process
    record of [s] is gone in [s'], records keep their id, address and
    size, and a record that was inactive stays inactive. *)
Definition keeps_history (s s' : SystemMemory) : Prop :=
  num_blocks s <= num_blocks s' /\
  num_processes s <= num_processes s' /\
  (forall (j : nat) b,
     block_list s !! j = Some b ->
     exists (j' : nat) b',
       (j <= j')%nat /\ block_list s' !! j' = Some b' /\
       MemoryBlock.start b' = MemoryBlock.start b) /\
  (forall (k : nat) p,
     process_list s !! k = Some p ->
     exists p',
       process_list s' !! k = Some p' /\
       Process.id p' = Process.id p /\
       Process.memory_address p' = Process.memory_address p /\
       Process.memory_size p' = Process.memory_size p /\
       (Process.is_active p = 0 -> Process.is_active p' = 0)).

(** ** [print_memory_layout]

    The function only reads the structure; the model returns the lines it
    prints, or [None] when it would read outside an array. *)

Inductive layout_line : Type :=
| MemoryBlocksHeader
| BlockLine (number start size : Z) (free : bool)
| ActiveProcessesHeader
| ProcessLine (id address size : Z)
| NoActiveProcesses
| WaitingQueueHeader
| NoProcessesWaiting
| WaitingLine (process_id size : Z)
| Separator.

Fixpoint print_blocks_loop (n : nat) (i : Z) (s : SystemMemory)
    : option (list layout_line) :=
  match n with
  | O => Some []
  | S n' =>
      match array_get (blocks s) i with
      | None => None
      | Some b =>
          match print_blocks_loop n' (i + 1) s with
          | None => None
          | Some rest =>
              Some (BlockLine (wrap (i + 1)) (MemoryBlock.start b)
                      (MemoryBlock.size b)
                      (negb (MemoryBlock.is_free b =? 0)) :: rest)
          end
      end
  end.

(** The second component is [active_count] after the loop. *)
Fixpoint print_processes_loop (n : nat) (i : Z) (active_count : Z)
    (s : SystemMemory) : option (list layout_line * Z) :=
  match n with
  | O => Some ([], active_count)
  | S n' =>
      match array_get (processes s) i with
      | None => None
      | Some p =>
          if Process.is_active p =? 0 then
            print_processes_loop n' (i + 1) active_count s
          else
            match print_processes_loop n' (i + 1) (wrap (active_count + 1)) s
            with
            | None => None
            | Some (rest, c) =>
                Some (ProcessLine (Process.id p) (Process.memory_address p)
                        (Process.memory_size p) :: rest, c)
            end
      end
  end.

Fixpoint print_waiting_loop (n : nat) (i : Z) (s : SystemMemory)
    : option (list layout_line) :=
  match n with
  | O => Some []
  | S n' =>
      let index := Z.rem (wrap (wait_queue_front s + i)) MAX_WAIT_QUEUE in
      match array_get (wait_queue s) index with
      | None => None
      | Some w =>
          match print_waiting_loop n' (i + 1) s with
          | None => None
          | Some rest =>
              Some (WaitingLine (WaitingProcess.process_id w)
                      (WaitingProcess.memory_size w) :: rest)
          end
      end
  end.

Definition print_memory_layout (s : SystemMemory)
    : option (list layout_line) :=
  match print_blocks_loop (Z.to_nat (num_blocks s)) 0 s with
  | None => None
  | Some block_lines =>
      match print_processes_loop (Z.to_nat (num_processes s)) 0 0 s with
      | None => None
      | Some (process_lines, active_count) =>
          match
            (if wait_queue_count s =? 0 then Some [NoProcessesWaiting]
             else print_waiting_loop (Z.to_nat (wait_queue_count s)) 0 s)
          with
          | None => None
          | Some waiting_lines =>
              Some ([MemoryBlocksHeader] ++ block_lines
                    ++ [ActiveProcessesHeader] ++ process_lines
                    ++ (if active_count =? 0 then [NoActiveProcesses]
                        else [])
                    ++ [WaitingQueueHeader] ++ waiting_lines
                    ++ [Separator])
          end
      end
  end.

(** The lines a table should give rise to. *)
Definition block_lines_of (bs : list MemoryBlock.t) : list layout_line :=
  imap (fun (i : nat) b =>
          BlockLine (Z.of_nat i + 1) (MemoryBlock.start b)
            (MemoryBlock.size b) (negb (MemoryBlock.is_free b =? 0)))
       bs.

Definition active_processes (ps : list Process.t) : list Process.t :=
  filter (fun p => Process.is_active p <> 0) ps.

Definition process_lines_of (ps : list Process.t) : list layout_line :=
  map (fun p => ProcessLine (Process.id p) (Process.memory_address p)
                  (Process.memory_size p))
      (active_processes ps).

Definition waiting_lines_of (ws : list WaitingProcess.t)
    : list layout_line :=
  map (fun w => WaitingLine (WaitingProcess.process_id w)
                  (WaitingProcess.memory_size w)) ws.

(** ** The process ids [main] hands out *)

(** Every process record and every waiting request carries an id below
    the counter [process_id] of [main]. *)
Definition issued (process_id : Z) (s : SystemMemory) : Prop :=
  Forall (fun p => 1 <= Process.id p < process_id) (process_list s) /\
  Forall (fun ow => exists w, ow = Some w /\
                      1 <= WaitingProcess.process_id w < process_id)
         (queue_list s).

Fixpoint allocations (cs : list command) : Z :=
  match cs with
  | [] => 0
  | Allocate _ :: cs' => 1 + allocations cs'
  | Free _ :: cs' => allocations cs'
  end.

(** * Lemmas and theorems *)

(** ** Machine arithmetic *)

Lemma wrap_id (z : Z) : in_int z -> wrap z = z.
Proof.
  unfold in_int, wrap, INT_MIN, INT_MAX. intros H.
  rewrite Z.mod_small by lia. lia.
Qed.

Lemma wrap_in_int (z : Z) : in_int (wrap z).
Proof.
  unfold in_int, wrap, INT_MIN, INT_MAX.
  pose proof (Z.mod_pos_bound (z - -2147483648) 4294967296). lia.
Qed.

Ltac unfold_limits :=
  unfold in_int in *;
  unfold MAX_BLOCKS, MAX_PROCESSES, MAX_WAIT_QUEUE, INT_MAX, INT_MIN in *.

(** ** Array access *)

Section Arrays.
Context {A : Type}.
Implicit Types (a : list A) (x : A).

Lemma array_get_nat a (k : nat) :
    array_get a (Z.of_nat k) = a !! k.
Proof.
    unfold array_get, index_ok. rewrite Nat2Z.id.
    destruct (a !! k) eqn:E.
    - apply lookup_lt_Some in E.
      replace (0 <=? Z.of_nat k) with true by (symmetry; apply Z.leb_le; lia).
      replace (Z.of_nat k <? Z.of_nat (length a)) with true
        by (symmetry; apply Z.ltb_lt; lia).
      done.
    - by destruct (_ && _).
Qed.

Lemma array_get_Some a (i : Z) x :
    array_get a i = Some x <-> 0 <= i /\ a !! Z.to_nat i = Some x.
Proof.
    unfold array_get, index_ok. split.
    - destruct (0 <=? i) eqn:E1; simpl; [|done].
      destruct (i <? _) eqn:E2; [|done]. apply Z.leb_le in E1. done.
    - intros [H0 Hl]. pose proof (lookup_lt_Some _ _ _ Hl) as Hlt.
      replace (0 <=? i) with true by (symmetry; apply Z.leb_le; lia).
      replace (i <? Z.of_nat (length a)) with true
        by (symmetry; apply Z.ltb_lt; lia).
      done.
Qed.

Lemma array_get_negative a (i : Z) : i < 0 -> array_get a i = None.
Proof.
    intros H. unfold array_get, index_ok.
    replace (0 <=? i) with false by (symmetry; apply Z.leb_gt; lia). done.
Qed.

Lemma array_get_beyond a (i : Z) :
    Z.of_nat (length a) <= i -> array_get a i = None.
Proof.
    intros H. unfold array_get, index_ok.
    replace (i <? Z.of_nat (length a)) with false
      by (symmetry; apply Z.ltb_ge; lia).
    by rewrite andb_false_r.
Qed.

Lemma array_set_nat a (k : nat) x :
    (k < length a)%nat -> array_set a (Z.of_nat k) x = Some (<[k := x]> a).
Proof.
    intros H. unfold array_set, index_ok. rewrite Nat2Z.id.
    replace (0 <=? Z.of_nat k) with true by (symmetry; apply Z.leb_le; lia).
    replace (Z.of_nat k <? Z.of_nat (length a)) with true
      by (symmetry; apply Z.ltb_lt; lia).
    done.
Qed.

Lemma array_set_beyond a (i : Z) x :
    Z.of_nat (length a) <= i -> array_set a i x = None.
Proof.
    intros H. unfold array_set, index_ok.
    replace (i <? Z.of_nat (length a)) with false
      by (symmetry; apply Z.ltb_ge; lia).
    by rewrite andb_false_r.
Qed.

Lemma array_set_negative a (i : Z) x : i < 0 -> array_set a i x = None.
Proof.
    intros H. unfold array_set, index_ok.
    replace (0 <=? i) with false by (symmetry; apply Z.leb_gt; lia). done.
Qed.
End Arrays.

(** ** Reading the block table *)

Lemma read_block_nat (k : nat) (s : SystemMemory) b :
  blocks s !! k = Some b -> read_block (Z.of_nat k) s = Ok b s [].
Proof. intros H. unfold read_block. by rewrite array_get_nat, H. Qed.

Lemma write_block_nat (k : nat) (s : SystemMemory) b :
  (k < length (blocks s))%nat ->
  write_block (Z.of_nat k) b s = Ok tt (set_blocks (<[k := b]> (blocks s)) s) [].
Proof. intros H. unfold write_block. by rewrite array_set_nat. Qed.

Lemma total_free_loop_ok (n : nat) : forall (k : nat) (t : Z) (s : SystemMemory),
  (k + n <= length (blocks s))%nat ->
  total_free_loop n (Z.of_nat k) t s =
  Ok (total_free_of (take n (drop k (blocks s))) t) s [].
Proof.
  induction n as [|n IH]; intros k t s Hlen; simpl.
  - done.
  - destruct (blocks s !! k) as [b|] eqn:Hb.
    2:{ apply lookup_ge_None in Hb. lia. }
    unfold bind. rewrite (read_block_nat _ _ _ Hb).
    replace (Z.of_nat k + 1) with (Z.of_nat (S k)) by lia.
    rewrite IH by lia. simpl.
    rewrite (drop_S _ _ _ Hb). simpl. done.
Qed.

Lemma get_total_free_memory_ok (s : SystemMemory) :
  storage_ok s ->
  get_total_free_memory s = Ok (total_free_of (block_list s) 0) s [].
Proof.
  intros Hs. unfold get_total_free_memory, bind, get.
  change 0 with (Z.of_nat 0) at 1.
  rewrite total_free_loop_ok.
  - simpl. done.
  - pose proof (blocks_length s Hs). pose proof (num_blocks_range s Hs). lia.
Qed.

(** ** The circular wait queue *)

Ltac solve_mod :=
  unfold_limits;
  repeat match goal with
  | |- context [wrap ?z] => rewrite (wrap_id z) by (unfold_limits; lia)
  | |- context [Z.rem ?a ?b] => rewrite (Z.rem_mod_nonneg a b) by lia
  | H : context [Z.rem ?a ?b] |- _ => rewrite (Z.rem_mod_nonneg a b) in H by lia
  end;
  Z.div_mod_to_equations; lia.

Lemma add_to_wait_queue_full (process_id size : Z) (s : SystemMemory) :
  MAX_WAIT_QUEUE <= wait_queue_count s ->
  add_to_wait_queue process_id size s = Ok 0 s [WaitQueueFull process_id].
Proof.
  intros H. unfold add_to_wait_queue, bind, get. simpl.
  replace (wait_queue_count s >=? MAX_WAIT_QUEUE) with true
    by (symmetry; apply Z.geb_le; lia).
  done.
Qed.

Lemma rear_after_enqueue (s : SystemMemory) :
  storage_ok s ->
  Z.rem (wrap (wait_queue_rear s + 1)) MAX_WAIT_QUEUE =
  (wait_queue_front s + wait_queue_count s) mod MAX_WAIT_QUEUE.
Proof.
  intros Hs. rewrite <- (wait_queue_rear_front s Hs).
  pose proof (wait_queue_rear_range s Hs).
  rewrite wrap_id by (unfold_limits; lia).
  apply Z.rem_mod_nonneg; unfold_limits; lia.
Qed.

Lemma add_to_wait_queue_ok (process_id size : Z) (s : SystemMemory) :
  storage_ok s ->
  wait_queue_count s < MAX_WAIT_QUEUE ->
  add_to_wait_queue process_id size s =
  Ok 1 (enqueued process_id size s) [AddedToWaitQueue process_id].
Proof.
  intros Hs H. unfold add_to_wait_queue, bind, get. simpl.
  replace (wait_queue_count s >=? MAX_WAIT_QUEUE) with false
    by (symmetry; rewrite Z.geb_leb; apply Z.leb_gt; lia).
  simpl. unfold write_waiting. simpl.
  pose proof (rear_after_enqueue s Hs) as Hr.
  pose proof (wait_queue_length s Hs) as Hl.
  assert (0 <= Z.rem (wrap (wait_queue_rear s + 1)) MAX_WAIT_QUEUE
          < MAX_WAIT_QUEUE) as Hrange.
  { rewrite Hr. apply Z.mod_pos_bound. by unfold_limits. }
  rewrite <- (Z2Nat.id (Z.rem _ _)) at 1 by lia.
  rewrite array_set_nat by lia. done.
Qed.

Lemma enqueued_storage_ok (process_id size : Z) (s : SystemMemory) :
  storage_ok s ->
  wait_queue_count s < MAX_WAIT_QUEUE ->
  storage_ok (enqueued process_id size s).
Proof.
  intros Hs H. pose proof (rear_after_enqueue s Hs) as Hr.
  destruct Hs as [? ? ? ? ? ? ? ? Hrf].
  assert (0 <= (wait_queue_front s + wait_queue_count s) mod MAX_WAIT_QUEUE
          < MAX_WAIT_QUEUE) as Hrange
    by (apply Z.mod_pos_bound; by unfold_limits).
  constructor; unfold enqueued; simpl; try done.
  - by rewrite length_insert.
  - rewrite wrap_id by (unfold_limits; lia). lia.
  - rewrite Hr. lia.
  - rewrite Hr. rewrite wrap_id by (unfold_limits; lia).
    clear Hr Hrf Hrange. solve_mod.
Qed.

Lemma queue_slot_nat (s : SystemMemory) (k : nat) :
  0 <= wait_queue_front s ->
  queue_slot s k =
  wait_queue s !!
    Z.to_nat ((wait_queue_front s + Z.of_nat k) mod MAX_WAIT_QUEUE).
Proof.
  intros H. unfold queue_slot.
  rewrite Z.rem_mod_nonneg by (unfold_limits; lia).
  assert (0 <= (wait_queue_front s + Z.of_nat k) mod MAX_WAIT_QUEUE
          < MAX_WAIT_QUEUE) as Hrange
    by (apply Z.mod_pos_bound; by unfold_limits).
  rewrite <- (Z2Nat.id (_ mod _)) at 1 by lia.
  apply array_get_nat.
Qed.

Lemma queue_list_enqueued (process_id size : Z) (s : SystemMemory) :
  storage_ok s ->
  wait_queue_count s < MAX_WAIT_QUEUE ->
  queue_list (enqueued process_id size s) =
  queue_list s ++ [Some (WaitingProcess.mk process_id size)].
Proof.
  intros Hs H. pose proof (rear_after_enqueue s Hs) as Hr.
  pose proof (wait_queue_count_range s Hs) as Hc.
  pose proof (wait_queue_front_range s Hs) as Hf.
  pose proof (wait_queue_length s Hs) as Hl.
  assert (0 <= (wait_queue_front s + wait_queue_count s) mod MAX_WAIT_QUEUE
          < MAX_WAIT_QUEUE) as Hrange
    by (apply Z.mod_pos_bound; by unfold_limits).
  unfold queue_list.
  replace (wait_queue_count (enqueued process_id size s))
    with (wait_queue_count s + 1)
    by (unfold enqueued; simpl; rewrite wrap_id; [done|unfold_limits; lia]).
  replace (Z.to_nat (wait_queue_count s + 1))
    with (Z.to_nat (wait_queue_count s) + 1)%nat by lia.
  rewrite seq_app, map_app. simpl. f_equal.
  - apply map_ext_in. intros k Hk. apply in_seq in Hk.
    rewrite !queue_slot_nat by (simpl; lia).
    unfold enqueued; simpl. rewrite Hr.
    apply list_lookup_insert_ne.
    intros Heq. apply Z2Nat.inj in Heq; [|lia|].
    2:{ apply Z.mod_pos_bound. by unfold_limits. }
    clear Hr Hrange Hl. revert Heq. solve_mod.
  - f_equal. rewrite queue_slot_nat by (simpl; lia).
    unfold enqueued; simpl. rewrite Hr.
    rewrite Z2Nat.id by lia.
    apply list_lookup_insert_eq. lia.
Qed.

Lemma dequeued_storage_ok (s : SystemMemory) :
  storage_ok s -> wait_queue_count s <> 0 -> storage_ok (dequeued s).
Proof.
  intros [? ? ? ? ? ? ? ? Hrf] H.
  constructor; unfold dequeued; simpl; try done.
  - rewrite wrap_id by (unfold_limits; lia). lia.
  - rewrite wrap_id by (unfold_limits; lia).
    rewrite Z.rem_mod_nonneg by (unfold_limits; lia).
    apply Z.mod_pos_bound. by unfold_limits.
  - rewrite Hrf. clear Hrf. solve_mod.
Qed.

Lemma queue_list_dequeued (s : SystemMemory) :
  storage_ok s -> wait_queue_count s <> 0 ->
  queue_list (dequeued s) = tail (queue_list s).
Proof.
  intros Hs H.
  pose proof (wait_queue_count_range s Hs) as Hc.
  pose proof (wait_queue_front_range s Hs) as Hf.
  unfold queue_list.
  replace (wait_queue_count (dequeued s)) with (wait_queue_count s - 1)
    by (unfold dequeued; simpl; rewrite wrap_id; [done|unfold_limits; lia]).
  replace (Z.to_nat (wait_queue_count s))
    with (S (Z.to_nat (wait_queue_count s - 1))) by lia.
  simpl. rewrite <- seq_shift, map_map.
  apply map_ext. intros k.
  assert (0 <= wait_queue_front (dequeued s)) as Hf'.
  { unfold dequeued; simpl. rewrite wrap_id by (unfold_limits; lia).
    rewrite Z.rem_mod_nonneg by (unfold_limits; lia).
    apply Z.mod_pos_bound. by unfold_limits. }
  rewrite !queue_slot_nat by lia.
  unfold dequeued; simpl. f_equal. f_equal.
  clear Hf'. solve_mod.
Qed.

Lemma queue_list_head (s : SystemMemory) :
  storage_ok s -> wait_queue_count s <> 0 ->
  exists w rest,
    array_get (wait_queue s) (wait_queue_front s) = Some w /\
    queue_list s = Some w :: rest.
Proof.
  intros Hs H.
  pose proof (wait_queue_count_range s Hs) as Hc.
  pose proof (wait_queue_front_range s Hs) as Hf.
  pose proof (wait_queue_length s Hs) as Hl.
  destruct (wait_queue s !! Z.to_nat (wait_queue_front s)) as [w|] eqn:Hw.
  2:{ apply lookup_ge_None in Hw. lia. }
  assert (array_get (wait_queue s) (wait_queue_front s) = Some w) as Hg
    by (apply array_get_Some; split; [lia|done]).
  unfold queue_list.
  replace (Z.to_nat (wait_queue_count s))
    with (S (Z.to_nat (wait_queue_count s - 1))) by lia.
  simpl. eexists w, _. split; [done|]. f_equal.
  unfold queue_slot. rewrite Z.add_0_r.
  rewrite Z.rem_small by lia. done.
Qed.

(** ** Splitting a block *)

Lemma set_blocks_set_blocks (v w : list MemoryBlock.t) (s : SystemMemory) :
  set_blocks v (set_blocks w s) = set_blocks v s.
Proof. done. Qed.

Lemma set_blocks_same (s : SystemMemory) : set_blocks (blocks s) s = s.
Proof. by destruct s. Qed.

(** [k] iterations of the shifting loop that start at index [j] copy the
    [k] elements below [j] one place up. *)
Lemma shift_loop_ok (k : nat) : forall (j : nat) (s : SystemMemory),
  (k <= j)%nat -> (j < length (blocks s))%nat ->
  shift_loop k (Z.of_nat j) s =
  Ok tt
     (set_blocks (take (S j - k) (blocks s)
                  ++ take k (drop (j - k) (blocks s))
                  ++ drop (S j) (blocks s)) s) [].
Proof.
  induction k as [|k IH]; intros j s Hk Hj; cbn [shift_loop].
  - rewrite Nat.sub_0_r, take_0. cbn [app]. rewrite take_drop.
    unfold ret. by rewrite set_blocks_same.
  - destruct j as [|j]; [lia|].
    destruct (blocks s !! j) as [b|] eqn:Hb.
    2:{ apply lookup_ge_None in Hb. lia. }
    unfold bind.
    replace (Z.of_nat (S j) - 1) with (Z.of_nat j) by lia.
    rewrite (read_block_nat _ _ _ Hb).
    rewrite write_block_nat by done.
    rewrite IH; simpl; [|lia|rewrite length_insert; lia].
    rewrite set_blocks_set_blocks. do 2 f_equal.
    replace (S j - k)%nat with (S (j - k)) by lia.
    replace (S (S j) - S k)%nat with (S (j - k)) by lia.
    replace (S j - S k)%nat with (j - k)%nat by lia.
    rewrite take_insert_ge by lia.
    rewrite drop_insert_ge by lia.
    rewrite take_insert_ge by lia.
    rewrite (drop_insert_ge _ (S j) (S j)) by lia.
    rewrite Nat.sub_diag.
    destruct (blocks s !! S j) as [b'|] eqn:Hb'.
    2:{ apply lookup_ge_None in Hb'. lia. }
    rewrite (drop_S _ _ _ Hb'). simpl.
    assert (drop (j - k) (blocks s) !! k = Some b) as Hk'.
    { rewrite lookup_drop. replace (j - k + k)%nat with j by lia. done. }
    rewrite (take_S_r _ _ _ Hk'). rewrite <- !app_assoc. simpl. done.
Qed.

Lemma insert_two_after_take {A} (l r : list A) (i : nat) (x y : A) :
  (S i < length l)%nat ->
  <[i := x]> (<[S i := y]> (take (S (S i)) l ++ r)) =
  take i l ++ [x; y] ++ r.
Proof.
  intros H.
  destruct (l !! i) as [a|] eqn:Ha.
  2:{ apply lookup_ge_None in Ha. lia. }
  destruct (l !! S i) as [a'|] eqn:Ha'.
  2:{ apply lookup_ge_None in Ha'. lia. }
  rewrite (take_S_r _ _ _ Ha'), (take_S_r _ _ _ Ha).
  rewrite <- !app_assoc. simpl.
  assert (length (take i l) = i) as Hl by (rewrite length_take; lia).
  rewrite (insert_app_r_alt _ _ (S i)) by lia.
  rewrite Hl. replace (S i - i)%nat with 1%nat by lia. simpl.
  rewrite (insert_app_r_alt _ _ i) by lia.
  rewrite Hl, Nat.sub_diag. done.
Qed.

Lemma split_block_ok (i : nat) (b : MemoryBlock.t) (size : Z)
    (s : SystemMemory) :
  storage_ok s ->
  blocks s !! i = Some b ->
  Z.of_nat i < num_blocks s ->
  (MemoryBlock.size b = size \/ num_blocks s < MAX_BLOCKS) ->
  split_block (Z.of_nat i) size s = Ok tt (with_split i b size s) [].
Proof.
  intros Hs Hb Hi Hcap.
  pose proof (blocks_length s Hs) as Hbl.
  pose proof (num_blocks_range s Hs) as Hnb.
  unfold split_block, with_split, blocks_after, allocated_pieces.
  unfold bind at 1. rewrite (read_block_nat _ _ _ Hb).
  assert (i < length (blocks s))%nat as Hilt by (apply lookup_lt_Some in Hb; lia).
  destruct (MemoryBlock.size b =? size) eqn:Hex.
  - rewrite write_block_nat by done. simpl. by destruct s.
  - destruct Hcap as [Hcap|Hcap]; [apply Z.eqb_neq in Hex; done|].
    unfold bind at 1. unfold get at 1. unfold bind at 1.
    replace (num_blocks s - (Z.of_nat i + 1))
      with (Z.of_nat (Z.to_nat (num_blocks s) - S i)) by lia.
    rewrite Nat2Z.id.
    rewrite <- (Z2Nat.id (num_blocks s)) at 2 by lia.
    rewrite shift_loop_ok by lia.
    replace (S (Z.to_nat (num_blocks s)) - (Z.to_nat (num_blocks s) - S i))%nat
      with (S (S i)) by lia.
    replace (Z.to_nat (num_blocks s) - (Z.to_nat (num_blocks s) - S i))%nat
      with (S i) by lia.
    set (r := take (Z.to_nat (num_blocks s) - S i) (drop (S i) (blocks s))
              ++ drop (S (Z.to_nat (num_blocks s))) (blocks s)).
    assert (length (take (S (S i)) (blocks s) ++ r) = length (blocks s)) as Hlen.
    { subst r. rewrite !length_app, !length_take, !length_drop. lia. }
    unfold bind at 1.
    replace (Z.of_nat i + 1) with (Z.of_nat (S i)) by lia.
    rewrite write_block_nat by (simpl; lia).
    simpl. unfold bind at 1.
    rewrite write_block_nat by (simpl; rewrite length_insert; lia).
    simpl. unfold bind at 1. unfold modify at 1.
    rewrite write_block_nat by (simpl; rewrite !length_insert; lia).
    simpl. rewrite list_insert_insert_eq.
    rewrite insert_two_after_take by lia.
    done.
Qed.

(** A split with the block table full writes past the end of [blocks]
    before anything else is changed. *)
Lemma split_block_full (i : nat) (b : MemoryBlock.t) (size : Z)
    (s : SystemMemory) :
  storage_ok s ->
  blocks s !! i = Some b ->
  Z.of_nat i < num_blocks s ->
  MemoryBlock.size b <> size ->
  num_blocks s = MAX_BLOCKS ->
  split_block (Z.of_nat i) size s = OutOfBounds s [].
Proof.
  intros Hs Hb Hi Hne Hfull.
  pose proof (blocks_length s Hs) as Hbl.
  unfold split_block.
  unfold bind at 1. rewrite (read_block_nat _ _ _ Hb).
  apply Z.eqb_neq in Hne. rewrite Hne.
  unfold bind at 1. unfold get at 1. unfold bind at 1.
  destruct (Z.to_nat (num_blocks s - (Z.of_nat i + 1))) as [|k] eqn:Hk.
  - cbn [shift_loop]. unfold bind, ret, write_block. cbn -[array_set Z.add].
    rewrite array_set_beyond by lia. done.
  - cbn [shift_loop].
    destruct (blocks s !! Z.to_nat (num_blocks s - 1)) as [b'|] eqn:Hb'.
    2:{ apply lookup_ge_None in Hb'. lia. }
    unfold bind, read_block, write_block. cbn -[array_set array_get Z.add].
    replace (array_get (blocks s) (num_blocks s - 1)) with (Some b')
      by (symmetry; apply array_get_Some; split; [lia|done]).
    rewrite array_set_beyond by lia. done.
Qed.

Lemma record_process_ok (i : nat) (b : MemoryBlock.t) (process_id size : Z)
    (s : SystemMemory) :
  storage_ok s ->
  blocks s !! i = Some b ->
  num_processes s < MAX_PROCESSES ->
  record_process (Z.of_nat i) process_id size s =
  Ok (MemoryBlock.start b) (with_process (new_process process_id size b) s) [].
Proof.
  intros Hs Hb Hnp.
  pose proof (processes_length s Hs) as Hpl.
  pose proof (num_processes_range s Hs) as Hnpr.
  unfold record_process, with_process, new_process.
  unfold bind, get. rewrite (read_block_nat _ _ _ Hb).
  unfold write_process.
  rewrite <- (Z2Nat.id (num_processes s)) at 1 by lia.
  rewrite array_set_nat by lia. simpl.
  rewrite read_block_nat with (b := b) by done.
  done.
Qed.

(** Recording a process with the process table full writes past the end
    of [processes]. *)
Lemma record_process_full (i : nat) (b : MemoryBlock.t) (process_id size : Z)
    (s : SystemMemory) :
  storage_ok s ->
  blocks s !! i = Some b ->
  num_processes s = MAX_PROCESSES ->
  record_process (Z.of_nat i) process_id size s = OutOfBounds s [].
Proof.
  intros Hs Hb Hnp.
  pose proof (processes_length s Hs) as Hpl.
  unfold record_process.
  unfold bind, get. rewrite (read_block_nat _ _ _ Hb).
  unfold write_process. rewrite array_set_beyond by lia. done.
Qed.

Section Allocated.
Variables (i : nat) (b : MemoryBlock.t) (process_id size : Z).
Variable s : SystemMemory.
Hypothesis Hs : storage_ok s.
Hypothesis Hb : blocks s !! i = Some b.
Hypothesis Hi : Z.of_nat i < num_blocks s.

Section WithinCapacity.
Hypothesis Hcap : MemoryBlock.size b = size \/ num_blocks s < MAX_BLOCKS.

Lemma blocks_after_length :
    length (blocks_after i size b s) = length (blocks s).
Proof using Hs Hb Hi Hcap.
    pose proof (blocks_length s Hs). pose proof (num_blocks_range s Hs).
    unfold blocks_after, allocated_pieces.
    destruct (MemoryBlock.size b =? size) eqn:Hex.
    - by rewrite length_insert.
    - destruct Hcap as [?|?]; [apply Z.eqb_neq in Hex; done|].
      rewrite !length_app, !length_take, !length_drop. simpl. lia.
Qed.

Lemma with_split_storage_ok : storage_ok (with_split i b size s).
Proof using Hs Hb Hi Hcap.
    pose proof blocks_after_length as Hl.
    destruct Hs as [? ? ? ? ? ? ? ? ?].
    constructor; unfold with_split; simpl; try done.
    - by rewrite Hl.
    - destruct (MemoryBlock.size b =? size) eqn:Hex; [done|].
      destruct Hcap as [?|?]; [apply Z.eqb_neq in Hex; done|].
      rewrite wrap_id by (unfold_limits; lia). lia.
Qed.

Lemma block_list_with_split :
    block_list (with_split i b size s) =
    take i (block_list s) ++ allocated_pieces size b
    ++ drop (S i) (block_list s).
Proof using Hs Hb Hi Hcap.
    pose proof (blocks_length s Hs). pose proof (num_blocks_range s Hs).
    unfold block_list, with_split, blocks_after, allocated_pieces. simpl.
    destruct (MemoryBlock.size b =? size) eqn:Hex.
    - rewrite take_insert_lt by lia.
      apply insert_take_drop. rewrite length_take. lia.
    - destruct Hcap as [?|?]; [apply Z.eqb_neq in Hex; done|].
      rewrite wrap_id by (unfold_limits; lia).
      rewrite take_take.
      replace (i `min` Z.to_nat (num_blocks s))%nat with i by lia.
      assert (drop (S i) (take (Z.to_nat (num_blocks s)) (blocks s)) =
              take (Z.to_nat (num_blocks s) - S i) (drop (S i) (blocks s)))
        as ->.
      { rewrite take_drop_commute. do 2 f_equal. lia. }
      rewrite !app_assoc. apply take_app_length'.
      rewrite !length_app, !length_take, length_drop. simpl. lia.
Qed.

Lemma with_split_lookup :
    blocks (with_split i b size s) !! i =
    Some (MemoryBlock.mk (MemoryBlock.start b) size 0).
Proof using Hs Hb Hi Hcap.
    pose proof (blocks_length s Hs). pose proof (num_blocks_range s Hs).
    unfold with_split, blocks_after, allocated_pieces. simpl.
    destruct (MemoryBlock.size b =? size) eqn:Hex.
    - apply Z.eqb_eq in Hex. rewrite Hex.
      apply list_lookup_insert_eq. lia.
    - rewrite lookup_app_r; rewrite length_take; [|lia].
      replace (i - i `min` length (blocks s))%nat with 0%nat by lia. done.
Qed.

Lemma allocate_in_block_ok :
    num_processes s < MAX_PROCESSES ->
    allocate_in_block (Z.of_nat i) process_id size s =
    Ok (MemoryBlock.start b) (allocated i b process_id size s) [].
Proof using Hs Hb Hi Hcap.
    intros Hnp. unfold allocate_in_block, bind.
    rewrite (split_block_ok i b) by done.
    rewrite (record_process_ok i _ _ _ _ with_split_storage_ok with_split_lookup)
      by done.
    done.
Qed.

Lemma allocate_in_block_processes_full :
    num_processes s = MAX_PROCESSES ->
    allocate_in_block (Z.of_nat i) process_id size s =
    OutOfBounds (with_split i b size s) [].
Proof using Hs Hb Hi Hcap.
    intros Hnp. unfold allocate_in_block, bind.
    rewrite (split_block_ok i b) by done.
    rewrite (record_process_full i _ _ _ _ with_split_storage_ok
               with_split_lookup) by done.
    done.
Qed.

Hypothesis Hnp : num_processes s < MAX_PROCESSES.

Lemma allocated_storage_ok : storage_ok (allocated i b process_id size s).
Proof using Hs Hb Hi Hcap Hnp.
    destruct with_split_storage_ok as [? ? ? ? ? ? ? ? ?].
    constructor; unfold allocated, with_process; simpl; try done.
    - by rewrite length_insert.
    - simpl in *. rewrite wrap_id by (unfold_limits; lia). lia.
Qed.

Lemma block_list_allocated :
    block_list (allocated i b process_id size s) =
    take i (block_list s) ++ allocated_pieces size b
    ++ drop (S i) (block_list s).
Proof using Hs Hb Hi Hcap. apply block_list_with_split. Qed.

Lemma process_list_allocated :
    process_list (allocated i b process_id size s) =
    process_list s ++ [new_process process_id size b].
Proof using Hs Hnp.
    pose proof (processes_length s Hs). pose proof (num_processes_range s Hs).
    unfold process_list, allocated, with_process. simpl.
    rewrite wrap_id by (unfold_limits; lia).
    replace (Z.to_nat (num_processes s + 1))
      with (S (Z.to_nat (num_processes s))) by lia.
    erewrite take_S_r by (apply list_lookup_insert_eq; lia).
    by rewrite take_insert_ge by lia.
Qed.

Lemma queue_list_allocated :
    queue_list (allocated i b process_id size s) = queue_list s.
Proof using Type. done. Qed.
End WithinCapacity.

Lemma allocate_in_block_blocks_full :
    MemoryBlock.size b <> size ->
    num_blocks s = MAX_BLOCKS ->
    allocate_in_block (Z.of_nat i) process_id size s = OutOfBounds s [].
Proof using Hs Hb Hi.
    intros Hne Hfull. unfold allocate_in_block, bind.
    by rewrite (split_block_full i b).
Qed.
End Allocated.

(** ** The first-fit search *)

Lemma first_fit_loop_ok (process_id size : Z) (n : nat) :
  forall (k : nat) (s : SystemMemory),
  (k + n <= length (blocks s))%nat ->
  first_fit_loop n (Z.of_nat k) process_id size s =
  match list_find (fun b => fits size b = true) (take n (drop k (blocks s))) with
  | None => Ok None s []
  | Some (d, _) =>
      (address <- allocate_in_block (Z.of_nat (k + d)) process_id size ;;
       ret (Some address)) s
  end.
Proof.
  induction n as [|n IH]; intros k s Hlen; cbn [first_fit_loop].
  - done.
  - destruct (blocks s !! k) as [b|] eqn:Hb.
    2:{ apply lookup_ge_None in Hb. lia. }
    unfold bind at 1. rewrite (read_block_nat _ _ _ Hb).
    rewrite (drop_S _ _ _ Hb). cbn [take list_find].
    fold (fits size b).
    destruct (decide (fits size b = true)) as [Hf|Hf].
    + rewrite Hf. rewrite Nat.add_0_r.
      destruct (bind _ _ s); by rewrite ?app_nil_l.
    + apply not_true_is_false in Hf. rewrite Hf.
      replace (Z.of_nat k + 1) with (Z.of_nat (S k)) by lia.
      rewrite IH by lia.
      destruct (list_find _ _) as [[d ?]|]; simpl.
      * replace (S (k + d)) with (k + S d)%nat by lia.
        by destruct (bind _ _ s).
      * done.
Qed.

Lemma first_fit_allocate_unfold (process_id size : Z) (s : SystemMemory) :
  storage_ok s ->
  first_fit_allocate process_id size s =
  match first_fit size s with
  | Some (i, _) => allocate_in_block (Z.of_nat i) process_id size s
  | None =>
      match add_to_wait_queue process_id size s with
      | Ok _ s' out => Ok (-1) s' out
      | OutOfBounds s' out => OutOfBounds s' out
      | Diverged => Diverged
      end
  end.
Proof.
  intros Hs. pose proof (blocks_length s Hs). pose proof (num_blocks_range s Hs).
  unfold first_fit_allocate, first_fit, block_list.
  unfold bind at 1. unfold get at 1. unfold bind at 1.
  change 0 with (Z.of_nat 0) at 1.
  rewrite first_fit_loop_ok by (simpl; lia).
  simpl. destruct (list_find _ _) as [[d ?]|]; simpl.
  - unfold bind. destruct (allocate_in_block _ _ _ s); simpl;
      by rewrite ?app_nil_r.
  - unfold bind. destruct (add_to_wait_queue _ _ s) as [a s' o| |]; simpl; try done.
    destruct (negb (a =? 0)); simpl; by rewrite app_nil_r.
Qed.

Lemma first_fit_Some (size : Z) (s : SystemMemory) i b :
  storage_ok s ->
  first_fit size s = Some (i, b) ->
  blocks s !! i = Some b /\ Z.of_nat i < num_blocks s /\ fits size b = true.
Proof.
  intros Hs H. apply list_find_Some in H as (Hl & Hf & _).
  unfold block_list in Hl. apply lookup_take_Some in Hl as [Hl Hlt].
  pose proof (num_blocks_range s Hs). split_and!; [done|lia|done].
Qed.

Lemma first_fit_allocate_found (process_id size : Z) (s : SystemMemory) i b :
  storage_ok s ->
  first_fit size s = Some (i, b) ->
  (MemoryBlock.size b = size \/ num_blocks s < MAX_BLOCKS) ->
  num_processes s < MAX_PROCESSES ->
  first_fit_allocate process_id size s =
  Ok (MemoryBlock.start b) (allocated i b process_id size s) [].
Proof.
  intros Hs Hf Hcap Hnp. rewrite first_fit_allocate_unfold, Hf by done.
  apply first_fit_Some in Hf as (? & ? & ?); [|done].
  by apply allocate_in_block_ok.
Qed.

Lemma first_fit_allocate_queued (process_id size : Z) (s : SystemMemory) :
  storage_ok s ->
  first_fit size s = None ->
  wait_queue_count s < MAX_WAIT_QUEUE ->
  first_fit_allocate process_id size s =
  Ok (-1) (enqueued process_id size s) [AddedToWaitQueue process_id].
Proof.
  intros Hs Hf Hc. rewrite first_fit_allocate_unfold, Hf by done.
  by rewrite add_to_wait_queue_ok.
Qed.

Lemma first_fit_allocate_rejected (process_id size : Z) (s : SystemMemory) :
  storage_ok s ->
  first_fit size s = None ->
  MAX_WAIT_QUEUE <= wait_queue_count s ->
  first_fit_allocate process_id size s =
  Ok (-1) s [WaitQueueFull process_id].
Proof.
  intros Hs Hf Hc. rewrite first_fit_allocate_unfold, Hf by done.
  by rewrite add_to_wait_queue_full.
Qed.

(** ** Retrying the head of the wait queue *)

Lemma try_empty (s : SystemMemory) :
  wait_queue_count s = 0 ->
  try_allocate_waiting_process s = Ok 0 s [].
Proof.
  intros H. unfold try_allocate_waiting_process, bind, get. simpl.
  by rewrite H.
Qed.

Lemma try_step (s : SystemMemory) (w : WaitingProcess.t) :
  storage_ok s ->
  wait_queue_count s <> 0 ->
  queue_head s = Some w ->
  try_allocate_waiting_process s =
  if total_free s <? WaitingProcess.memory_size w then Ok 0 s []
  else
    (address <- first_fit_allocate (WaitingProcess.process_id w)
                  (WaitingProcess.memory_size w) ;;
     if negb (address =? -1) then
       front' <- get wait_queue_front ;;
       modify (set_wait_queue_front
                 (Z.rem (wrap (front' + 1)) MAX_WAIT_QUEUE)) ;;;
       count' <- get wait_queue_count ;;
       modify (set_wait_queue_count (wrap (count' - 1))) ;;;
       current_waiting' <- read_waiting (wait_queue_front s) ;;
       printf (MovedFromWaitQueue
                 (WaitingProcess.process_id current_waiting')) ;;;
       ret 1
     else ret 0) s.
Proof.
  intros Hs Hc Hw. unfold try_allocate_waiting_process.
  unfold bind at 1. unfold get at 1.
  apply Z.eqb_neq in Hc. rewrite Hc.
  unfold bind at 1. unfold get at 1.
  unfold bind at 1. unfold read_waiting at 1.
  unfold queue_head in Hw. rewrite Hw.
  unfold bind at 1. rewrite get_total_free_memory_ok by done.
  fold (total_free s).
  destruct (total_free s <? WaitingProcess.memory_size w); [done|].
  destruct (bind _ _ s); done.
Qed.

Lemma try_blocked (s : SystemMemory) (w : WaitingProcess.t) :
  storage_ok s ->
  wait_queue_count s <> 0 ->
  queue_head s = Some w ->
  total_free s < WaitingProcess.memory_size w ->
  try_allocate_waiting_process s = Ok 0 s [].
Proof.
  intros Hs Hc Hw Ht. rewrite (try_step s w) by done.
  apply Z.ltb_lt in Ht. by rewrite Ht.
Qed.

Lemma try_moved (s : SystemMemory) (w : WaitingProcess.t) i b :
  storage_ok s ->
  wait_queue_count s <> 0 ->
  queue_head s = Some w ->
  WaitingProcess.memory_size w <= total_free s ->
  first_fit (WaitingProcess.memory_size w) s = Some (i, b) ->
  (MemoryBlock.size b = WaitingProcess.memory_size w
   \/ num_blocks s < MAX_BLOCKS) ->
  num_processes s < MAX_PROCESSES ->
  MemoryBlock.start b <> -1 ->
  try_allocate_waiting_process s =
  Ok 1
     (dequeued (allocated i b (WaitingProcess.process_id w)
                  (WaitingProcess.memory_size w) s))
     [MovedFromWaitQueue (WaitingProcess.process_id w)].
Proof.
  intros Hs Hc Hw Ht Hf Hcap Hnp Hne. rewrite (try_step s w) by done.
  apply Z.ltb_ge in Ht. rewrite Ht.
  unfold bind at 1. rewrite (first_fit_allocate_found _ _ _ i b) by done.
  apply Z.eqb_neq in Hne. rewrite Hne. simpl.
  unfold bind, get, modify, read_waiting. simpl.
  unfold queue_head in Hw. rewrite Hw. done.
Qed.

Lemma try_minus_one (s : SystemMemory) (w : WaitingProcess.t) i b :
  storage_ok s ->
  wait_queue_count s <> 0 ->
  queue_head s = Some w ->
  WaitingProcess.memory_size w <= total_free s ->
  first_fit (WaitingProcess.memory_size w) s = Some (i, b) ->
  (MemoryBlock.size b = WaitingProcess.memory_size w
   \/ num_blocks s < MAX_BLOCKS) ->
  num_processes s < MAX_PROCESSES ->
  MemoryBlock.start b = -1 ->
  try_allocate_waiting_process s =
  Ok 0
     (allocated i b (WaitingProcess.process_id w)
        (WaitingProcess.memory_size w) s) [].
Proof.
  intros Hs Hc Hw Ht Hf Hcap Hnp Hne. rewrite (try_step s w) by done.
  apply Z.ltb_ge in Ht. rewrite Ht.
  unfold bind at 1. rewrite (first_fit_allocate_found _ _ _ i b) by done.
  rewrite Hne. done.
Qed.

(** The retry goes through [first_fit_allocate], which puts a request it
    cannot place on the wait queue: the head is enqueued a second time. *)
Lemma try_fragmented (s : SystemMemory) (w : WaitingProcess.t) :
  storage_ok s ->
  wait_queue_count s <> 0 ->
  queue_head s = Some w ->
  WaitingProcess.memory_size w <= total_free s ->
  first_fit (WaitingProcess.memory_size w) s = None ->
  wait_queue_count s < MAX_WAIT_QUEUE ->
  try_allocate_waiting_process s =
  Ok 0
     (enqueued (WaitingProcess.process_id w) (WaitingProcess.memory_size w) s)
     [AddedToWaitQueue (WaitingProcess.process_id w)].
Proof.
  intros Hs Hc Hw Ht Hf Hcnt. rewrite (try_step s w) by done.
  apply Z.ltb_ge in Ht. rewrite Ht.
  unfold bind at 1. rewrite first_fit_allocate_queued by done.
  done.
Qed.

Lemma try_fragmented_full (s : SystemMemory) (w : WaitingProcess.t) :
  storage_ok s ->
  wait_queue_count s <> 0 ->
  queue_head s = Some w ->
  WaitingProcess.memory_size w <= total_free s ->
  first_fit (WaitingProcess.memory_size w) s = None ->
  MAX_WAIT_QUEUE <= wait_queue_count s ->
  try_allocate_waiting_process s =
  Ok 0 s [WaitQueueFull (WaitingProcess.process_id w)].
Proof.
  intros Hs Hc Hw Ht Hf Hcnt. rewrite (try_step s w) by done.
  apply Z.ltb_ge in Ht. rewrite Ht.
  unfold bind at 1. rewrite first_fit_allocate_rejected by done.
  done.
Qed.

Lemma first_fit_allocate_blocks_full (process_id size : Z) (s : SystemMemory)
    i b :
  storage_ok s ->
  first_fit size s = Some (i, b) ->
  MemoryBlock.size b <> size ->
  num_blocks s = MAX_BLOCKS ->
  first_fit_allocate process_id size s = OutOfBounds s [].
Proof.
  intros Hs Hf Hne Hfull. rewrite first_fit_allocate_unfold, Hf by done.
  apply first_fit_Some in Hf as (? & ? & ?); [|done].
  by apply (allocate_in_block_blocks_full i b).
Qed.

Lemma first_fit_allocate_processes_full (process_id size : Z)
    (s : SystemMemory) i b :
  storage_ok s ->
  first_fit size s = Some (i, b) ->
  (MemoryBlock.size b = size \/ num_blocks s < MAX_BLOCKS) ->
  num_processes s = MAX_PROCESSES ->
  first_fit_allocate process_id size s =
  OutOfBounds (with_split i b size s) [].
Proof.
  intros Hs Hf Hcap Hfull. rewrite first_fit_allocate_unfold, Hf by done.
  apply first_fit_Some in Hf as (? & ? & ?); [|done].
  by apply allocate_in_block_processes_full.
Qed.

Lemma first_fit_allocate_outcome (process_id size : Z) (s : SystemMemory) :
  storage_ok s ->
  allocate_outcome process_id size s (first_fit_allocate process_id size s).
Proof.
  intros Hs.
  pose proof (num_blocks_range s Hs). pose proof (num_processes_range s Hs).
  destruct (first_fit size s) as [[i b]|] eqn:Hf.
  - destruct (decide (MemoryBlock.size b = size \/ num_blocks s < MAX_BLOCKS))
      as [Hcap|Hcap].
    + destruct (decide (num_processes s < MAX_PROCESSES)).
      * rewrite (first_fit_allocate_found _ _ _ i b) by done.
        by constructor.
      * rewrite (first_fit_allocate_processes_full _ _ _ i b) by (done || lia).
        constructor; [done|done|lia].
    + rewrite (first_fit_allocate_blocks_full _ _ _ i b) by (done || lia).
      apply (outcome_blocks_full _ _ _ i b); [done|tauto|lia].
  - destruct (decide (wait_queue_count s < MAX_WAIT_QUEUE)).
    + rewrite first_fit_allocate_queued by done. by constructor.
    + rewrite first_fit_allocate_rejected by (done || lia).
      constructor; [done|lia].
Qed.

Lemma queue_head_Some (s : SystemMemory) :
  storage_ok s -> exists w, queue_head s = Some w.
Proof.
  intros Hs.
  pose proof (wait_queue_front_range s Hs) as Hf.
  pose proof (wait_queue_length s Hs) as Hl.
  destruct (wait_queue s !! Z.to_nat (wait_queue_front s)) as [w|] eqn:Hw.
  2:{ apply lookup_ge_None in Hw. lia. }
  exists w. apply array_get_Some. split; [lia|done].
Qed.

Lemma try_allocate_waiting_process_outcome (s : SystemMemory) :
  storage_ok s ->
  retry_outcome s (try_allocate_waiting_process s).
Proof.
  intros Hs.
  destruct (decide (wait_queue_count s = 0)) as [Hc|Hc].
  { rewrite try_empty by done. by constructor. }
  destruct (queue_head_Some s Hs) as [w Hw].
  destruct (decide (total_free s < WaitingProcess.memory_size w)) as [Ht|Ht].
  { rewrite (try_blocked s w) by done. by apply (retry_blocked s w). }
  assert (WaitingProcess.memory_size w <= total_free s) as Ht' by lia.
  pose proof (num_blocks_range s Hs). pose proof (num_processes_range s Hs).
  destruct (first_fit (WaitingProcess.memory_size w) s) as [[i b]|] eqn:Hf.
  - destruct (decide (MemoryBlock.size b = WaitingProcess.memory_size w
                      \/ num_blocks s < MAX_BLOCKS)) as [Hcap|Hcap].
    + destruct (decide (num_processes s < MAX_PROCESSES)).
      * destruct (decide (MemoryBlock.start b = -1)).
        -- rewrite (try_minus_one s w i b) by done.
           by apply (retry_minus_one s w).
        -- rewrite (try_moved s w i b) by done. by apply (retry_moved s w).
      * rewrite (try_step s w) by done.
        apply Z.ltb_ge in Ht'. rewrite Ht'. unfold bind at 1.
        rewrite (first_fit_allocate_processes_full _ _ _ i b) by (done || lia).
        by apply (retry_out_of_bounds s w).
    + rewrite (try_step s w) by done.
      apply Z.ltb_ge in Ht'. rewrite Ht'. unfold bind at 1.
      rewrite (first_fit_allocate_blocks_full _ _ _ i b)
        by (done || tauto || lia).
      by apply (retry_out_of_bounds s w).
  - destruct (decide (wait_queue_count s < MAX_WAIT_QUEUE)).
    + rewrite (try_fragmented s w) by done. by apply (retry_fragmented s w).
    + rewrite (try_fragmented_full s w) by (done || lia).
      apply (retry_fragmented_full s w); (done || lia).
Qed.

(** ** The drain loop *)

Lemma drain_loop_preserves (P : SystemMemory -> Prop) :
  (forall s r s' out,
     P s -> try_allocate_waiting_process s = Ok r s' out -> P s') ->
  forall fuel s s' out,
    P s -> drain_loop fuel s = Ok tt s' out -> P s'.
Proof.
  intros Hstep. induction fuel as [|fuel IH]; intros s s' out HP Hd.
  - done.
  - cbn [drain_loop] in Hd. unfold bind in Hd.
    destruct (try_allocate_waiting_process s) as [r s1 o1| |] eqn:Ht; try done.
    specialize (Hstep _ _ _ _ HP Ht).
    destruct (r =? 0).
    + unfold ret in Hd. inversion Hd; subst. done.
    + destruct (drain_loop fuel s1) as [[] s2 o2| |] eqn:Hd'; try done.
      inversion Hd; subst. exact (IH _ _ _ Hstep Hd').
Qed.

Lemma try_success_counts (s : SystemMemory) r s' out :
  storage_ok s ->
  try_allocate_waiting_process s = Ok r s' out ->
  storage_ok s' /\
  (r <> 0 -> num_processes s' = num_processes s + 1).
Proof.
  intros Hs Ht.
  pose proof (try_allocate_waiting_process_outcome s Hs) as Ho.
  rewrite Ht in Ho.
  pose proof (num_processes_range s Hs).
  inversion Ho as [ | | w i b ? ? ? Hf | w i b ? ? ? Hf | | | ]; subst; try done.
  - apply first_fit_Some in Hf as (? & ? & ?); [|done]. split.
    + apply dequeued_storage_ok; [by apply allocated_storage_ok|done].
    + intros _. unfold dequeued, allocated, with_process. simpl.
      apply wrap_id. unfold_limits. lia.
  - apply first_fit_Some in Hf as (? & ? & ?); [|done]. split; [|done].
    by apply allocated_storage_ok.
  - split; [|done]. by apply enqueued_storage_ok.
Qed.



Lemma drain_stops (s : SystemMemory) s' out :
  try_allocate_waiting_process s = Ok 0 s' out ->
  drain s = Ok tt s' out.
Proof.
  intros H. unfold drain. cbn [drain_loop]. unfold bind. rewrite H. simpl.
  by rewrite app_nil_r.
Qed.

(** ** Freeing *)

Lemma read_process_nat (k : nat) (s : SystemMemory) p :
  processes s !! k = Some p -> read_process (Z.of_nat k) s = Ok p s [].
Proof. intros H. unfold read_process. by rewrite array_get_nat, H. Qed.

Lemma write_process_nat (k : nat) (s : SystemMemory) p :
  (k < length (processes s))%nat ->
  write_process (Z.of_nat k) p s =
  Ok tt (set_processes (<[k := p]> (processes s)) s) [].
Proof. intros H. unfold write_process. by rewrite array_set_nat. Qed.

Lemma free_block_loop_ok (address process_id : Z) (n : nat) :
  forall (k : nat) (s : SystemMemory),
  (k + n <= length (blocks s))%nat ->
  free_block_loop n (Z.of_nat k) address process_id s =
  match list_find (fun b => MemoryBlock.start b = address)
          (take n (drop k (blocks s))) with
  | None => Ok false s []
  | Some (d, b) =>
      finish_free true process_id (drain (freed (k + d) b s))
  end.
Proof.
  induction n as [|n IH]; intros k s Hlen; cbn [free_block_loop].
  - done.
  - destruct (blocks s !! k) as [b|] eqn:Hb.
    2:{ apply lookup_ge_None in Hb. lia. }
    unfold bind at 1. rewrite (read_block_nat _ _ _ Hb).
    rewrite (drop_S _ _ _ Hb). cbn [take list_find].
    destruct (decide (MemoryBlock.start b = address)) as [Hf|Hf].
    + apply Z.eqb_eq in Hf. rewrite Hf. rewrite Nat.add_0_r.
      unfold bind at 1.
      rewrite write_block_nat by (apply lookup_lt_Some in Hb; lia).
      unfold bind, printf, ret, finish_free. fold (freed k b s).
      destruct (drain (freed k b s)); simpl; by rewrite ?app_nil_r.
    + apply Z.eqb_neq in Hf. rewrite Hf.
      replace (Z.of_nat k + 1) with (Z.of_nat (S k)) by lia.
      rewrite IH by lia.
      destruct (list_find _ _) as [[d ?]|]; simpl; [|done].
      replace (S (k + d)) with (k + S d)%nat by lia.
      by destruct (finish_free _ _ _).
Qed.

Lemma free_process_loop_ok (process_id : Z) (n : nat) :
  forall (k : nat) (s : SystemMemory),
  (k + n <= length (processes s))%nat ->
  free_process_loop n (Z.of_nat k) process_id s =
  match list_find (fun p => active_with process_id p = true)
          (take n (drop k (processes s))) with
  | None => Ok false s []
  | Some (d, p) =>
      (write_process (Z.of_nat (k + d))
         (Process.mk (Process.id p) (Process.memory_address p)
                     (Process.memory_size p) 0) ;;;
       nb <- get num_blocks ;;
       returned <- free_block_loop (Z.to_nat nb) 0
                     (Process.memory_address p) process_id ;;
       if returned then ret true
       else free_process_loop (n - S d) (Z.of_nat (k + S d)) process_id) s
  end.
Proof.
  induction n as [|n IH]; intros k s Hlen; cbn [free_process_loop].
  - done.
  - destruct (processes s !! k) as [p|] eqn:Hp.
    2:{ apply lookup_ge_None in Hp. lia. }
    unfold bind at 1. rewrite (read_process_nat _ _ _ Hp).
    rewrite (drop_S _ _ _ Hp). cbn [take list_find].
    fold (active_with process_id p).
    destruct (decide (active_with process_id p = true)) as [Hf|Hf].
    + rewrite Hf. rewrite Nat.add_0_r.
      replace (S n - 1)%nat with n by lia.
      replace (Z.of_nat k + 1) with (Z.of_nat (k + 1)) by lia.
      by destruct (bind _ _ s).
    + apply not_true_is_false in Hf. rewrite Hf.
      replace (Z.of_nat k + 1) with (Z.of_nat (S k)) by lia.
      rewrite IH by lia.
      destruct (list_find _ _) as [[d ?]|]; simpl; [|done].
      replace (S (k + d)) with (k + S d)%nat by lia.
      replace (S (k + S d)) with (k + S (S d))%nat by lia.
      by destruct (bind _ _ s).
Qed.

Lemma free_memory_not_found (process_id : Z) (s : SystemMemory) :
  storage_ok s ->
  find_active process_id s = None ->
  free_memory process_id s = Ok tt s [ProcessNotFound process_id].
Proof.
  intros Hs Hf.
  pose proof (processes_length s Hs). pose proof (num_processes_range s Hs).
  unfold free_memory. unfold bind at 1. unfold get at 1. unfold bind at 1.
  change 0 with (Z.of_nat 0) at 1.
  rewrite free_process_loop_ok by (simpl; lia).
  unfold find_active, process_list in Hf.
  change (drop 0 (processes s)) with (processes s). rewrite Hf. done.
Qed.

Lemma free_memory_found (process_id : Z) (s : SystemMemory) i p j b :
  storage_ok s ->
  find_active process_id s = Some (i, p) ->
  find_block (Process.memory_address p) s = Some (j, b) ->
  free_memory process_id s =
  finish_free tt process_id (drain (freed j b (deactivated i p s))).
Proof.
  intros Hs Hf Hb.
  pose proof (processes_length s Hs). pose proof (num_processes_range s Hs).
  pose proof (blocks_length s Hs). pose proof (num_blocks_range s Hs).
  unfold free_memory. unfold bind at 1. unfold get at 1. unfold bind at 1.
  change 0 with (Z.of_nat 0) at 1.
  rewrite free_process_loop_ok by (simpl; lia).
  unfold find_active, process_list in Hf.
  change (drop 0 (processes s)) with (processes s). rewrite Hf.
  apply list_find_Some in Hf as (Hl & _ & _).
  apply lookup_take_Some in Hl as [Hl Hlt].
  unfold bind at 1.
  rewrite write_process_nat by (apply lookup_lt_Some in Hl; lia).
  change (0 + i)%nat with i. fold (deactivated i p s).
  unfold bind at 1. unfold get at 1. unfold bind at 1.
  change 0 with (Z.of_nat 0) at 1.
  rewrite free_block_loop_ok by (simpl; lia).
  unfold find_block, block_list in Hb.
  change (drop 0 (blocks (deactivated i p s))) with (blocks s).
  change (num_blocks (deactivated i p s)) with (num_blocks s).
  rewrite Hb. change (0 + j)%nat with j.
  unfold finish_free.
  destruct (drain _) as [[] s' o| |]; simpl; by rewrite ?app_nil_r.
Qed.

(** ** Layout of the block table *)

Lemma chain_app (l1 l2 : list MemoryBlock.t) : forall a e,
  chain a (l1 ++ l2) e <-> exists m, chain a l1 m /\ chain m l2 e.
Proof.
  induction l1 as [|b l1 IH]; intros a e; simpl.
  - split; [intros H; by exists a|intros (m & -> & H); done].
  - rewrite IH. split.
    + intros (? & ? & m & ? & ?). exists m. done.
    + intros (m & (? & ? & ?) & ?). split_and!; [done|done|by exists m].
Qed.

Lemma chain_le (l : list MemoryBlock.t) : forall a e, chain a l e -> a <= e.
Proof.
  induction l as [|b l IH]; intros a e; simpl.
  - lia.
  - intros (_ & ? & H). apply IH in H. lia.
Qed.

Lemma chain_end_unique (l : list MemoryBlock.t) : forall a e e',
  chain a l e -> chain a l e' -> e = e'.
Proof.
  induction l as [|b l IH]; intros a e e'; simpl.
  - congruence.
  - intros (_ & _ & H) (_ & _ & H'). by eapply IH.
Qed.

Lemma chain_lookup (l : list MemoryBlock.t) a e (i : nat) b :
  chain a l e -> l !! i = Some b ->
  chain a (take i l) (MemoryBlock.start b) /\
  0 < MemoryBlock.size b /\
  chain (MemoryBlock.start b + MemoryBlock.size b) (drop (S i) l) e.
Proof.
  intros Hc Hl. rewrite <- (take_drop_middle _ _ _ Hl) in Hc.
  apply chain_app in Hc as (m & H1 & H2). simpl in H2.
  destruct H2 as (-> & ? & ?). done.
Qed.

Lemma chain_bounds (l : list MemoryBlock.t) a e (i : nat) b :
  chain a l e -> l !! i = Some b ->
  a <= MemoryBlock.start b /\ 0 < MemoryBlock.size b /\
  MemoryBlock.start b + MemoryBlock.size b <= e.
Proof.
  intros Hc Hl. destruct (chain_lookup _ _ _ _ _ Hc Hl) as (H1 & ? & H2).
  apply chain_le in H1, H2. done.
Qed.

Lemma chain_no_overlap (l : list MemoryBlock.t) a e :
  chain a l e -> no_overlap l.
Proof.
  intros Hc i j x y Hij Hx Hy.
  destruct (chain_lookup _ _ _ _ _ Hc Hx) as (_ & _ & H2).
  assert (drop (S i) l !! (j - S i)%nat = Some y) as Hy'.
  { rewrite lookup_drop. replace (S i + (j - S i))%nat with j by lia. done. }
  destruct (chain_bounds _ _ _ _ _ H2 Hy') as (? & _ & _). done.
Qed.

Lemma chain_sorted (l : list MemoryBlock.t) a e :
  chain a l e -> sorted_by_start l.
Proof.
  intros Hc i j x y Hij Hx Hy.
  pose proof (chain_no_overlap _ _ _ Hc i j x y Hij Hx Hy).
  destruct (chain_bounds _ _ _ _ _ Hc Hx) as (_ & ? & _). lia.
Qed.

Lemma chain_start_inj (l : list MemoryBlock.t) a e (i j : nat) x y :
  chain a l e -> l !! i = Some x -> l !! j = Some y ->
  MemoryBlock.start x = MemoryBlock.start y -> i = j.
Proof.
  intros Hc Hx Hy Heq.
  destruct (Nat.lt_trichotomy i j) as [Hlt|[?|Hlt]]; [|done|].
  - pose proof (chain_sorted _ _ _ Hc i j x y Hlt Hx Hy). lia.
  - pose proof (chain_sorted _ _ _ Hc j i y x Hlt Hy Hx). lia.
Qed.

Lemma chain_contiguous (l : list MemoryBlock.t) a e :
  chain a l e -> contiguous l.
Proof.
  intros Hc i x y Hx Hy.
  destruct (chain_lookup _ _ _ _ _ Hc Hx) as (_ & _ & H2).
  rewrite (drop_S _ _ _ Hy) in H2. simpl in H2. by destruct H2 as (-> & _).
Qed.

Lemma chain_starts_at (l : list MemoryBlock.t) a e b :
  chain a l e -> l !! 0%nat = Some b -> MemoryBlock.start b = a.
Proof. destruct l; simpl; [done|]. intros (? & _) [= ->]. done. Qed.

Lemma chain_total_size (l : list MemoryBlock.t) : forall a e,
  chain a l e -> total_size l = e - a.
Proof.
  unfold total_size.
  induction l as [|b l IH]; intros a e; simpl.
  - lia.
  - intros (_ & _ & H). rewrite (IH _ _ H). lia.
Qed.

(** The chain only depends on where blocks start and how large they are. *)
Lemma chain_insert_same (l : list MemoryBlock.t) a e (j : nat) b b' :
  chain a l e -> l !! j = Some b ->
  MemoryBlock.start b' = MemoryBlock.start b ->
  MemoryBlock.size b' = MemoryBlock.size b ->
  chain a (<[j := b']> l) e.
Proof.
  intros Hc Hl Hst Hsz.
  destruct (chain_lookup _ _ _ _ _ Hc Hl) as (H1 & ? & H2).
  rewrite insert_take_drop by (by eapply lookup_lt_Some).
  apply chain_app. exists (MemoryBlock.start b). split; [done|].
  simpl. rewrite Hst, Hsz. done.
Qed.

Lemma chain_allocated_pieces (l : list MemoryBlock.t) (i : nat) b size e :
  chain 0 l e -> e <= INT_MAX -> l !! i = Some b ->
  0 < size -> fits size b = true ->
  chain 0 (take i l ++ allocated_pieces size b ++ drop (S i) l) e.
Proof.
  intros Hc He Hl Hsz Hf.
  destruct (chain_lookup _ _ _ _ _ Hc Hl) as (H1 & ? & H2).
  pose proof (chain_le _ _ _ H1). pose proof (chain_le _ _ _ H2).
  unfold fits in Hf. apply andb_true_iff in Hf as [_ Hge].
  apply Z.geb_le in Hge.
  apply chain_app. exists (MemoryBlock.start b). split; [done|].
  unfold allocated_pieces.
  destruct (MemoryBlock.size b =? size) eqn:Hex; simpl.
  - done.
  - apply Z.eqb_neq in Hex.
    rewrite !wrap_id by (unfold_limits; lia).
    split_and!; try done; try lia.
    replace (MemoryBlock.start b + size + (MemoryBlock.size b - size))
      with (MemoryBlock.start b + MemoryBlock.size b) by lia.
    done.
Qed.

(** ** The invariant of the engine *)

Lemma elem_of_replace_middle {A} (l mid : list A) (i : nat) (b x : A) :
  l !! i = Some b -> x ∈ l -> x <> b ->
  x ∈ take i l ++ mid ++ drop (S i) l.
Proof.
  intros Hl Hx Hne. rewrite <- (take_drop_middle _ _ _ Hl) in Hx.
  rewrite !elem_of_app in *. rewrite elem_of_cons in Hx. tauto.
Qed.

Lemma first_fit_lookup (size : Z) (s : SystemMemory) i b :
  first_fit size s = Some (i, b) ->
  block_list s !! i = Some b /\ fits size b = true.
Proof. intros H. apply list_find_Some in H as (? & ? & _). done. Qed.

Lemma fits_is_free (size : Z) b :
  fits size b = true -> MemoryBlock.is_free b <> 0.
Proof.
  unfold fits. intros H. apply andb_true_iff in H as [H _].
  apply negb_true_iff, Z.eqb_neq in H. done.
Qed.

Lemma new_process_block (process_id size : Z) b :
  fits size b = true ->
  block_of (new_process process_id size b) ∈ allocated_pieces size b.
Proof.
  intros Hf. unfold block_of, new_process, allocated_pieces. simpl.
  destruct (MemoryBlock.size b =? size) eqn:Hex.
  - apply Z.eqb_eq in Hex. rewrite Hex. apply list_elem_of_here.
  - apply list_elem_of_here.
Qed.

Lemma consistent_allocated (total : Z) (s : SystemMemory) i b
    (process_id size : Z) :
  consistent total s ->
  first_fit size s = Some (i, b) ->
  0 < size ->
  (MemoryBlock.size b = size \/ num_blocks s < MAX_BLOCKS) ->
  num_processes s < MAX_PROCESSES ->
  consistent total (allocated i b process_id size s).
Proof.
  intros [Hs Ht Hc Hq Ho Hd] Hf Hsz Hcap Hnp.
  destruct (first_fit_Some _ _ _ _ Hs Hf) as (Hb & Hi & Hfits).
  destruct (first_fit_lookup _ _ _ _ Hf) as (Hl & _).
  pose proof (fits_is_free _ _ Hfits) as Hfree.
  assert (forall (k : nat) p,
            process_list s !! k = Some p -> Process.is_active p <> 0 ->
            block_of p <> b) as Hnot.
  { intros k p _ _ Heq. subst b. by simpl in Hfree. }
  constructor.
  - by apply allocated_storage_ok.
  - done.
  - rewrite block_list_allocated by done.
    by apply chain_allocated_pieces.
  - by rewrite queue_list_allocated.
  - intros k p. rewrite process_list_allocated, block_list_allocated by done.
    intros Hk Hact. apply lookup_app_Some in Hk as [Hk|[_ Hk]].
    + apply (elem_of_replace_middle _ _ _ b); eauto.
    + apply list_lookup_singleton_Some in Hk as [_ <-].
      rewrite !elem_of_app. right. left. by apply new_process_block.
  - assert (forall (k : nat) p,
              process_list s !! k = Some p -> Process.is_active p <> 0 ->
              Process.memory_address p <> MemoryBlock.start b) as Hfresh.
    { intros k p Hk Hact Heq.
      pose proof (Ho k p Hk Hact) as Hin.
      apply list_elem_of_lookup in Hin as [j Hj].
      assert (j = i) by (eapply chain_start_inj; eauto).
      subst j. rewrite Hl in Hj. injection Hj as Hj.
      by apply (Hnot k p). }
    intros k k' p p'. rewrite process_list_allocated by done.
    intros Hk Hk' Hact Hact' Heq.
    apply lookup_app_Some in Hk as [Hk|[Hge Hk]];
      apply lookup_app_Some in Hk' as [Hk'|[Hge' Hk']].
    + eauto.
    + apply list_lookup_singleton_Some in Hk' as [_ <-].
      exfalso. by eapply Hfresh.
    + apply list_lookup_singleton_Some in Hk as [_ <-].
      exfalso. symmetry in Heq. by eapply Hfresh.
    + apply list_lookup_singleton_Some in Hk as [? _].
      apply list_lookup_singleton_Some in Hk' as [? _]. lia.
Qed.

Lemma consistent_enqueued (total : Z) (s : SystemMemory)
    (process_id size : Z) :
  consistent total s ->
  wait_queue_count s < MAX_WAIT_QUEUE ->
  0 < size ->
  consistent total (enqueued process_id size s).
Proof.
  intros [Hs Ht Hc Hq Ho Hd] Hcnt Hsz.
  constructor; try done.
  - by apply enqueued_storage_ok.
  - rewrite queue_list_enqueued by done.
    apply Forall_app. split; [done|].
    apply Forall_singleton. eexists. split; [done|]. done.
Qed.

Lemma consistent_dequeued (total : Z) (s : SystemMemory) :
  consistent total s ->
  wait_queue_count s <> 0 ->
  consistent total (dequeued s).
Proof.
  intros [Hs Ht Hc Hq Ho Hd] Hcnt.
  constructor; try done.
  - by apply dequeued_storage_ok.
  - rewrite queue_list_dequeued by done.
    destruct (queue_list s); [done|]. simpl. by eapply Forall_cons_1.
Qed.

Lemma find_active_lookup (process_id : Z) (s : SystemMemory) i p :
  find_active process_id s = Some (i, p) ->
  process_list s !! i = Some p /\ Process.id p = process_id /\
  Process.is_active p <> 0.
Proof.
  intros H. apply list_find_Some in H as (? & Ha & _).
  unfold active_with in Ha. apply andb_true_iff in Ha as [H1 H2].
  apply Z.eqb_eq in H1. apply negb_true_iff, Z.eqb_neq in H2. done.
Qed.

Lemma find_block_lookup (address : Z) (s : SystemMemory) j b :
  find_block address s = Some (j, b) ->
  block_list s !! j = Some b /\ MemoryBlock.start b = address.
Proof. intros H. apply list_find_Some in H as (? & ? & _). done. Qed.

(** In a consistent structure the search of [free_memory] for the block
    of an active process ends at the block that process owns. *)
Lemma find_block_owned (total : Z) (s : SystemMemory) (k : nat) p :
  consistent total s ->
  process_list s !! k = Some p -> Process.is_active p <> 0 ->
  exists j, find_block (Process.memory_address p) s = Some (j, block_of p).
Proof.
  intros [Hs Ht Hc Hq Ho Hd] Hk Hact.
  pose proof (Ho k p Hk Hact) as Hin.
  apply list_elem_of_lookup in Hin as [j Hj].
  exists j. apply list_find_Some. split_and!; [done|done|].
  intros j' y Hy Hlt Heq.
  assert (j' = j) by (eapply chain_start_inj; eauto).
  lia.
Qed.

Lemma consistent_freed (total : Z) (s : SystemMemory) (process_id : Z)
    i p j b :
  consistent total s ->
  find_active process_id s = Some (i, p) ->
  find_block (Process.memory_address p) s = Some (j, b) ->
  consistent total (freed j b (deactivated i p s)).
Proof.
  intros [Hs Ht Hc Hq Ho Hd] Hf Hb.
  destruct (find_active_lookup _ _ _ _ Hf) as (Hp & _ & Hact).
  destruct (find_block_lookup _ _ _ _ Hb) as (Hl & Hst).
  pose proof (num_blocks_range s Hs). pose proof (num_processes_range s Hs).
  assert (block_list (freed j b (deactivated i p s)) =
          <[j := MemoryBlock.mk (MemoryBlock.start b) (MemoryBlock.size b) 1]>
            (block_list s)) as Hbl.
  { unfold block_list, freed, deactivated. simpl.
    apply take_insert_lt. apply lookup_lt_Some in Hl.
    unfold block_list in Hl. rewrite length_take in Hl. lia. }
  assert (process_list (freed j b (deactivated i p s)) =
          <[i := Process.mk (Process.id p) (Process.memory_address p)
                   (Process.memory_size p) 0]> (process_list s)) as Hpl.
  { unfold process_list, freed, deactivated. simpl.
    apply take_insert_lt. apply lookup_lt_Some in Hp.
    unfold process_list in Hp. rewrite length_take in Hp. lia. }
  assert (forall (k : nat) q,
            <[i := Process.mk (Process.id p) (Process.memory_address p)
                     (Process.memory_size p) 0]> (process_list s) !! k
            = Some q ->
            Process.is_active q <> 0 ->
            k <> i /\ process_list s !! k = Some q) as Hother.
  { intros k q Hk Hq'. destruct (decide (k = i)) as [->|Hne].
    - rewrite list_lookup_insert_eq in Hk by (by eapply lookup_lt_Some).
      injection Hk as <-. done.
    - rewrite list_lookup_insert_ne in Hk by done. done. }
  constructor.
  - destruct Hs as [? ? ? ? ? ? ? ? ?].
    constructor; unfold freed, deactivated; simpl; try done;
      by rewrite length_insert.
  - done.
  - rewrite Hbl. by eapply chain_insert_same.
  - done.
  - intros k q. rewrite Hpl, Hbl. intros Hk Hq'.
    destruct (Hother k q Hk Hq') as [Hne Hk'].
    pose proof (Ho k q Hk' Hq') as Hin.
    apply list_elem_of_lookup in Hin as [j' Hj'].
    apply list_elem_of_lookup. exists j'.
    rewrite list_lookup_insert_ne; [done|].
    intros <-. rewrite Hl in Hj'. injection Hj' as ->.
    simpl in Hst. apply Hne. symmetry. eauto.
  - intros k k' q q'. rewrite Hpl. intros Hk Hk' Hq' Hq'' Heq.
    destruct (Hother k q Hk Hq') as [_ ?].
    destruct (Hother k' q' Hk' Hq'') as [_ ?]. eauto.
Qed.

Lemma queue_head_positive (total : Z) (s : SystemMemory) w :
  consistent total s ->
  wait_queue_count s <> 0 ->
  queue_head s = Some w ->
  0 < WaitingProcess.memory_size w.
Proof.
  intros Hc Hcnt Hw.
  destruct (queue_list_head s (consistent_storage _ _ Hc) Hcnt)
    as (w' & rest & Hw' & Hq).
  unfold queue_head in Hw. rewrite Hw in Hw'. injection Hw' as <-.
  pose proof (consistent_queue _ _ Hc) as HF. rewrite Hq in HF.
  apply Forall_cons_1 in HF as [(w'' & [= <-] & ?) _]. done.
Qed.

Lemma try_allocate_waiting_process_consistent (total : Z) (s : SystemMemory)
    r s' out :
  consistent total s ->
  try_allocate_waiting_process s = Ok r s' out ->
  consistent total s'.
Proof.
  intros Hc Ht.
  pose proof (try_allocate_waiting_process_outcome s
                (consistent_storage _ _ Hc)) as Ho.
  rewrite Ht in Ho.
  inversion Ho as [ | | w i b Hcnt Hw | w i b Hcnt Hw | | w Hcnt Hw | ];
    subst; try done.
  - apply consistent_dequeued; [|done].
    apply consistent_allocated; try done.
    by eapply queue_head_positive.
  - apply consistent_allocated; try done.
    by eapply queue_head_positive.
  - apply consistent_enqueued; try done.
    by eapply queue_head_positive.
Qed.

Lemma drain_consistent (total : Z) (s : SystemMemory) s' out :
  consistent total s ->
  drain s = Ok tt s' out ->
  consistent total s'.
Proof.
  intros Hc Hd. unfold drain in Hd.
  eapply (drain_loop_preserves (consistent total)); [|exact Hc|exact Hd].
  intros. by eapply try_allocate_waiting_process_consistent.
Qed.

Lemma first_fit_allocate_consistent (total : Z) (s : SystemMemory)
    (process_id size : Z) a s' out :
  consistent total s ->
  0 < size ->
  first_fit_allocate process_id size s = Ok a s' out ->
  consistent total s'.
Proof.
  intros Hc Hsz Hf.
  pose proof (first_fit_allocate_outcome process_id size s
                (consistent_storage _ _ Hc)) as Ho.
  rewrite Hf in Ho.
  inversion Ho; subst; try done.
  - by apply consistent_allocated.
  - by apply consistent_enqueued.
Qed.

Lemma finish_free_Ok {A} (a : A) (process_id : Z) r a' s' out :
  finish_free a process_id r = Ok a' s' out ->
  exists out', r = Ok tt s' out' /\ out = MemoryFreed process_id :: out' /\
               a' = a.
Proof.
  destruct r as [[] s1 o1| |]; simpl; intros H; try done.
  injection H as <- <- <-. by exists o1.
Qed.

Lemma free_memory_consistent (total : Z) (s : SystemMemory)
    (process_id : Z) s' out :
  consistent total s ->
  free_memory process_id s = Ok tt s' out ->
  consistent total s'.
Proof.
  intros Hc Hf. pose proof (consistent_storage _ _ Hc) as Hs.
  destruct (find_active process_id s) as [[i p]|] eqn:Ha.
  - destruct (find_active_lookup _ _ _ _ Ha) as (Hp & _ & Hact).
    destruct (find_block_owned _ _ _ _ Hc Hp Hact) as [j Hb].
    rewrite (free_memory_found _ _ _ _ _ _ Hs Ha Hb) in Hf.
    apply finish_free_Ok in Hf as (out' & Hd & _ & _).
    eapply drain_consistent; [|exact Hd].
    by eapply consistent_freed.
  - rewrite free_memory_not_found in Hf by done.
    by injection Hf as <- _.
Qed.

(** ** Initialization *)

Lemma layout_length (block_sizes : list Z) : forall a,
  length (layout a block_sizes) = length block_sizes.
Proof. induction block_sizes; intros; simpl; [done|]. by rewrite IHblock_sizes. Qed.

Lemma initialize_loop_ok (block_sizes : list Z) (n : nat) :
  forall (k : nat) (a : Z) (s : SystemMemory),
  (k + n <= length (blocks s))%nat ->
  (k + n <= length block_sizes)%nat ->
  initialize_loop n (Z.of_nat k) a block_sizes s =
  Ok tt
     (set_blocks (take k (blocks s)
                  ++ layout a (take n (drop k block_sizes))
                  ++ drop (k + n) (blocks s)) s) [].
Proof.
  induction n as [|n IH]; intros k a s Hlen Hlen'; cbn [initialize_loop].
  - rewrite take_0, Nat.add_0_r. cbn [layout app]. rewrite take_drop.
    unfold ret. by rewrite set_blocks_same.
  - destruct (block_sizes !! k) as [sz|] eqn:Hsz.
    2:{ apply lookup_ge_None in Hsz. lia. }
    destruct (blocks s !! k) as [b|] eqn:Hb.
    2:{ apply lookup_ge_None in Hb. lia. }
    unfold bind at 1. rewrite (read_block_nat _ _ _ Hb).
    unfold bind at 1. rewrite write_block_nat by lia.
    unfold bind at 1. unfold read_size at 1. rewrite array_get_nat, Hsz.
    unfold bind at 1.
    rewrite write_block_nat by (simpl; rewrite length_insert; lia).
    unfold bind at 1.
    rewrite write_block_nat by (simpl; rewrite !length_insert; lia).
    unfold bind at 1. unfold read_size at 1. rewrite array_get_nat, Hsz.
    rewrite !set_blocks_set_blocks. cbn [blocks set_blocks].
    rewrite !list_insert_insert_eq.
    replace (Z.of_nat k + 1) with (Z.of_nat (S k)) by lia.
    rewrite IH by (simpl; rewrite ?length_insert; lia).
    simpl. rewrite set_blocks_set_blocks. do 2 f_equal.
    rewrite (drop_S _ _ _ Hsz). cbn [take layout].
    erewrite take_S_r by (apply list_lookup_insert_eq; lia).
    rewrite take_insert_ge by lia.
    rewrite drop_insert_lt by lia.
    rewrite <- app_assoc. simpl.
    replace (S (k + n)) with (k + S n)%nat by lia. done.
Qed.

Lemma initialize_memory_ok (block_sizes : list Z) (s0 : SystemMemory) :
  Z.of_nat (length block_sizes) <= MAX_BLOCKS ->
  initialize_memory (Z.of_nat (length block_sizes)) block_sizes s0 =
  Ok tt (initialized block_sizes) [].
Proof.
  intros Hlen. unfold initialize_memory.
  unfold bind at 1. unfold modify at 1. unfold bind at 1.
  change 0 with (Z.of_nat 0) at 1. rewrite Nat2Z.id.
  assert (length (blocks zeroed) = Z.to_nat MAX_BLOCKS) as Hz
    by apply length_replicate.
  rewrite initialize_loop_ok by (rewrite ?Hz; unfold_limits; simpl; lia).
  unfold initialized. cbn [take drop app]. rewrite firstn_all.
  done.
Qed.

Lemma layout_chain (block_sizes : list Z) : forall a,
  Forall (fun sz => 1 <= sz <= INT_MAX) block_sizes ->
  0 <= a -> a + sum_sizes block_sizes <= INT_MAX ->
  chain a (layout a block_sizes) (a + sum_sizes block_sizes).
Proof.
  induction block_sizes as [|sz rest IH]; intros a HF Ha Hsum; simpl.
  - lia.
  - apply Forall_cons_1 in HF as [Hsz HF]. simpl in Hsum.
    assert (0 <= sum_sizes rest).
    { clear -HF. induction HF; simpl; lia. }
    rewrite wrap_id by (unfold_limits; lia).
    split_and!; [done|lia|].
    replace (a + (sz + sum_sizes rest)) with (a + sz + sum_sizes rest) by lia.
    apply IH; [done|lia|lia].
Qed.

Lemma block_list_initialized (block_sizes : list Z) :
  block_list (initialized block_sizes) = layout 0 block_sizes.
Proof.
  unfold block_list, initialized. simpl. rewrite Nat2Z.id.
  apply take_app_length'. by rewrite layout_length.
Qed.

Lemma initialized_consistent (block_sizes : list Z) :
  valid_block_sizes block_sizes ->
  sum_sizes block_sizes <= INT_MAX ->
  consistent (sum_sizes block_sizes) (initialized block_sizes).
Proof.
  intros [Hlen HF] Hsum. constructor.
  - assert (length (blocks zeroed) = 50%nat) as Hz by done.
    constructor; unfold initialized;
      cbn [blocks processes wait_queue num_blocks num_processes
           wait_queue_count wait_queue_front wait_queue_rear];
      try done; try (unfold_limits; lia).
    rewrite length_app, layout_length, length_drop, Hz.
    unfold_limits. lia.
  - done.
  - rewrite block_list_initialized.
    by apply (layout_chain block_sizes 0).
  - by constructor.
  - intros k p Hk. by destruct k.
  - intros k k' p p' Hk. by destruct k.
Qed.

(** ** Runs of [main] *)

Lemma main_step_consistent (total : Z) (s : SystemMemory) (process_id : Z)
    (c : command) process_id' s' out :
  consistent total s ->
  valid_command process_id c ->
  main_step process_id c s = Ok process_id' s' out ->
  consistent total s' /\ process_id' = next_process_id process_id c.
Proof.
  intros Hc Hv Hm. destruct c as [size|id]; simpl in *.
  - unfold bind in Hm.
    destruct (first_fit_allocate process_id size s) as [a s1 o1| |] eqn:Hf;
      try done.
    assert (consistent total s1)
      by (eapply first_fit_allocate_consistent; [done| |done]; lia).
    destruct (negb (a =? -1)); simpl in Hm; injection Hm as <- <- <-; done.
  - unfold bind in Hm.
    destruct (free_memory id s) as [[] s1 o1| |] eqn:Hf; try done.
    simpl in Hm. injection Hm as <- <- <-.
    split; [|done]. by eapply free_memory_consistent.
Qed.

Lemma main_loop_consistent (total : Z) (cs : list command) :
  forall (s : SystemMemory) (process_id : Z) process_id' s' out,
  consistent total s ->
  valid_commands process_id cs ->
  main_loop cs process_id s = Ok process_id' s' out ->
  consistent total s'.
Proof.
  induction cs as [|c cs IH]; intros s process_id process_id' s' out Hc Hv Hm.
  - simpl in Hm. by injection Hm as <- <- <-.
  - destruct Hv as [Hv Hvs]. cbn [main_loop] in Hm. unfold bind in Hm.
    destruct (main_step process_id c s) as [p1 s1 o1| |] eqn:Hstep; try done.
    destruct (main_step_consistent _ _ _ _ _ _ _ Hc Hv Hstep) as [Hc1 ->].
    destruct (main_loop cs _ s1) as [p2 s2 o2| |] eqn:Hloop; try done.
    injection Hm as <- <- <-. by eapply IH.
Qed.

Lemma reachable_consistent (block_sizes : list Z) (s : SystemMemory) :
  reachable block_sizes s ->
  sum_sizes block_sizes <= INT_MAX ->
  consistent (sum_sizes block_sizes) s.
Proof.
  intros [Hv (cs & s0 & process_id & out & Hcs & Hm)] Hsum.
  unfold main, bind in Hm.
  rewrite initialize_memory_ok in Hm by (destruct Hv; lia).
  destruct (main_loop cs 1 _) as [p1 s1 o1| |] eqn:Hloop; try done.
  injection Hm as <- <- <-.
  eapply main_loop_consistent; [|done|done].
  by apply initialized_consistent.
Qed.

(** ** Runs that come to a full table *)

Lemma consistent_with_split (total : Z) (s : SystemMemory) i b (size : Z) :
  consistent total s ->
  first_fit size s = Some (i, b) ->
  0 < size ->
  (MemoryBlock.size b = size \/ num_blocks s < MAX_BLOCKS) ->
  consistent total (with_split i b size s).
Proof.
  intros [Hs Ht Hc Hq Ho Hd] Hf Hsz Hcap.
  destruct (first_fit_Some _ _ _ _ Hs Hf) as (Hb & Hi & Hfits).
  destruct (first_fit_lookup _ _ _ _ Hf) as (Hl & _).
  pose proof (fits_is_free _ _ Hfits) as Hfree.
  constructor; try done.
  - by apply with_split_storage_ok.
  - rewrite block_list_with_split by done.
    by apply chain_allocated_pieces.
  - intros k p Hk Hact. rewrite block_list_with_split by done.
    apply (elem_of_replace_middle _ _ _ b); [done|by eapply Ho|].
    intros Heq. subst b. by simpl in Hfree.
Qed.

(** A retry stops at a write beyond a table only inside its call of
    [first_fit_allocate] for the request at the front. *)
Lemma try_out_of_bounds (s s' : SystemMemory) (out : list msg) :
  storage_ok s ->
  try_allocate_waiting_process s = OutOfBounds s' out ->
  exists w i b,
    wait_queue_count s <> 0 /\ queue_head s = Some w /\
    first_fit (WaitingProcess.memory_size w) s = Some (i, b) /\
    ((MemoryBlock.size b <> WaitingProcess.memory_size w /\
      num_blocks s = MAX_BLOCKS /\ s' = s) \/
     ((MemoryBlock.size b = WaitingProcess.memory_size w
       \/ num_blocks s < MAX_BLOCKS) /\
      num_processes s = MAX_PROCESSES /\
      s' = with_split i b (WaitingProcess.memory_size w) s)).
Proof.
  intros Hs Ht.
  destruct (decide (wait_queue_count s = 0)) as [Hc|Hc].
  { by rewrite try_empty in Ht. }
  destruct (queue_head_Some s Hs) as [w Hw].
  destruct (decide (total_free s < WaitingProcess.memory_size w)) as [Hlt|Hlt].
  { by rewrite (try_blocked s w) in Ht. }
  assert (WaitingProcess.memory_size w <= total_free s) as Hle by lia.
  pose proof (num_blocks_range s Hs). pose proof (num_processes_range s Hs).
  destruct (first_fit (WaitingProcess.memory_size w) s) as [[i b]|] eqn:Hf.
  - exists w, i, b. split_and!; try done.
    destruct (decide (MemoryBlock.size b = WaitingProcess.memory_size w
                      \/ num_blocks s < MAX_BLOCKS)) as [Hcap|Hcap].
    + destruct (decide (num_processes s < MAX_PROCESSES)).
      * destruct (decide (MemoryBlock.start b = -1)).
        -- by rewrite (try_minus_one s w i b) in Ht.
        -- by rewrite (try_moved s w i b) in Ht.
      * rewrite (try_step s w) in Ht by done.
        apply Z.ltb_ge in Hle. rewrite Hle in Ht. unfold bind at 1 in Ht.
        rewrite (first_fit_allocate_processes_full _ _ _ i b) in Ht
          by (done || lia).
        injection Ht as <- _. right. split_and!; [done|lia|done].
    + rewrite (try_step s w) in Ht by done.
      apply Z.ltb_ge in Hle. rewrite Hle in Ht. unfold bind at 1 in Ht.
      rewrite (first_fit_allocate_blocks_full _ _ _ i b) in Ht
        by (done || tauto || lia).
      injection Ht as <- _. left. split_and!; [tauto|lia|done].
  - destruct (decide (wait_queue_count s < MAX_WAIT_QUEUE)).
    + by rewrite (try_fragmented s w) in Ht.
    + by rewrite (try_fragmented_full s w) in Ht by (done || lia).
Qed.

Lemma ends_with_bind {A B} (I : SystemMemory -> Prop) (m : M A)
    (f : A -> M B) (s : SystemMemory) :
  ends_with I (m s) ->
  (forall a s1 o1, m s = Ok a s1 o1 -> I s1 -> ends_with I (f a s1)) ->
  ends_with I (bind m f s).
Proof.
  intros Hm Hf. unfold bind.
  destruct (m s) as [a s1 o1|s1 o1|]; simpl in Hm; [|done|done].
  specialize (Hf a s1 o1 eq_refl Hm).
  by destruct (f a s1).
Qed.

Lemma ends_with_finish_free {A} (I : SystemMemory -> Prop) (a : A)
    (process_id : Z) (r : result unit) :
  ends_with I r -> ends_with I (finish_free a process_id r).
Proof. by destruct r. Qed.

Lemma ends_with_impl {A} (I J : SystemMemory -> Prop) (r : result A) :
  (forall s, I s -> J s) -> ends_with I r -> ends_with J r.
Proof. intros H. destruct r; simpl; [auto|intros []; auto|done]. Qed.

(** What a run ends with, when it returns and when it stops at a full
    table.  [P] is a property of the structure that the steps of the
    engine preserve, as long as the ids they record satisfy [Q]. *)
Section EngineInvariant.
Variable total : Z.
Variable P : SystemMemory -> Prop.
Variable Q : Z -> Prop.

Hypothesis P_split : forall s i b size,
  consistent total s -> P s ->
  first_fit size s = Some (i, b) -> 0 < size ->
  (MemoryBlock.size b = size \/ num_blocks s < MAX_BLOCKS) ->
  P (with_split i b size s).
Hypothesis P_allocated : forall s i b process_id size,
  consistent total s -> P s ->
  first_fit size s = Some (i, b) -> 0 < size ->
  (MemoryBlock.size b = size \/ num_blocks s < MAX_BLOCKS) ->
  num_processes s < MAX_PROCESSES ->
  Q process_id ->
  P (allocated i b process_id size s).
Hypothesis P_enqueued : forall s process_id size,
  consistent total s -> P s ->
  wait_queue_count s < MAX_WAIT_QUEUE -> Q process_id ->
  P (enqueued process_id size s).
Hypothesis P_dequeued : forall s,
  consistent total s -> P s -> wait_queue_count s <> 0 -> P (dequeued s).
Hypothesis P_freed : forall s process_id i p j b,
  consistent total s -> P s ->
  find_active process_id s = Some (i, p) ->
  find_block (Process.memory_address p) s = Some (j, b) ->
  P (freed j b (deactivated i p s)).
Hypothesis P_head : forall s w,
  consistent total s -> P s ->
  wait_queue_count s <> 0 -> queue_head s = Some w ->
  Q (WaitingProcess.process_id w).

Lemma first_fit_allocate_ends (s : SystemMemory) (process_id size : Z) :
  engine_invariant total P s -> 0 < size -> Q process_id ->
  ends_with (engine_invariant total P) (first_fit_allocate process_id size s).
Proof using P_split P_allocated P_enqueued.
  intros [Hc HP] Hsz HQ. pose proof (consistent_storage _ _ Hc) as Hs.
  pose proof (first_fit_allocate_outcome process_id size s Hs) as Ho.
  destruct (first_fit_allocate process_id size s) as [a s1 o1|s1 o1|];
    inversion Ho; subst; simpl.
  - split; [by apply consistent_allocated|by apply P_allocated].
  - split; [by apply consistent_enqueued|by apply P_enqueued].
  - done.
  - split; [done|]. by left.
  - split; [split|by right].
    + by apply consistent_with_split.
    + by apply P_split.
Qed.

Lemma try_allocate_waiting_process_ends (s : SystemMemory) :
  engine_invariant total P s ->
  ends_with (engine_invariant total P) (try_allocate_waiting_process s).
Proof using P_split P_allocated P_enqueued P_dequeued P_head.
  intros [Hc HP]. pose proof (consistent_storage _ _ Hc) as Hs.
  pose proof (try_allocate_waiting_process_outcome s Hs) as Ho.
  destruct (try_allocate_waiting_process s) as [r s1 o1|s1 o1|] eqn:Ht;
    simpl.
  - inversion Ho as [ | | w i b Hcnt Hw | w i b Hcnt Hw | | w Hcnt Hw | ];
      subst; try done.
    + pose proof (queue_head_positive _ _ _ Hc Hcnt Hw).
      assert (consistent total
                (allocated i b (WaitingProcess.process_id w)
                   (WaitingProcess.memory_size w) s))
        by (by apply consistent_allocated).
      split; [by apply consistent_dequeued|].
      apply P_dequeued; [done| |done].
      apply P_allocated; try done. exact (P_head s w Hc HP Hcnt Hw).
    + pose proof (queue_head_positive _ _ _ Hc Hcnt Hw).
      split; [by apply consistent_allocated|].
      apply P_allocated; try done. exact (P_head s w Hc HP Hcnt Hw).
    + pose proof (queue_head_positive _ _ _ Hc Hcnt Hw).
      split; [by apply consistent_enqueued|].
      apply P_enqueued; try done. exact (P_head s w Hc HP Hcnt Hw).
  - destruct (try_out_of_bounds _ _ _ Hs Ht)
      as (w & i & b & Hcnt & Hw & Hf & [(? & ? & ->)|(? & Hfull & ->)]).
    + split; [done|]. by left.
    + pose proof (queue_head_positive _ _ _ Hc Hcnt Hw).
      split; [split|by right].
      * by apply consistent_with_split.
      * by apply P_split.
  - inversion Ho.
Qed.

Lemma drain_loop_ends (fuel : nat) : forall (s : SystemMemory),
  engine_invariant total P s ->
  MAX_PROCESSES - num_processes s < Z.of_nat fuel ->
  ends_with (engine_invariant total P) (drain_loop fuel s).
Proof using P_split P_allocated P_enqueued P_dequeued P_head.
  induction fuel as [|fuel IH]; intros s HI Hfuel.
  - pose proof (num_processes_range s (consistent_storage _ _ (proj1 HI))).
    lia.
  - cbn [drain_loop]. apply ends_with_bind.
    + by apply try_allocate_waiting_process_ends.
    + intros r s1 o1 Ht HI1.
      destruct (try_success_counts _ _ _ _
                  (consistent_storage _ _ (proj1 HI)) Ht) as [_ Hnp].
      destruct (r =? 0) eqn:Hr; [done|].
      apply Z.eqb_neq in Hr. specialize (Hnp Hr).
      apply IH; [done|lia].
Qed.

Lemma drain_ends (s : SystemMemory) :
  engine_invariant total P s -> ends_with (engine_invariant total P) (drain s).
Proof using P_split P_allocated P_enqueued P_dequeued P_head.
  intros HI. apply drain_loop_ends; [done|].
  pose proof (num_processes_range s (consistent_storage _ _ (proj1 HI))).
  unfold_limits. lia.
Qed.

Lemma free_memory_ends (s : SystemMemory) (process_id : Z) :
  engine_invariant total P s ->
  ends_with (engine_invariant total P) (free_memory process_id s).
Proof using P_split P_allocated P_enqueued P_dequeued P_head P_freed.
  intros [Hc HP]. pose proof (consistent_storage _ _ Hc) as Hs.
  destruct (find_active process_id s) as [[i p]|] eqn:Ha.
  - destruct (find_active_lookup _ _ _ _ Ha) as (Hp & _ & Hact).
    destruct (find_block_owned _ _ _ _ Hc Hp Hact) as [j Hb].
    rewrite (free_memory_found _ _ _ _ _ _ Hs Ha Hb).
    apply ends_with_finish_free, drain_ends. split.
    + by eapply consistent_freed.
    + by eapply P_freed.
  - by rewrite free_memory_not_found.
Qed.

Lemma main_step_ends (s : SystemMemory) (process_id : Z) (c : command) :
  engine_invariant total P s ->
  valid_command process_id c ->
  (forall size, c = Allocate size -> Q process_id) ->
  ends_with (engine_invariant total P) (main_step process_id c s).
Proof using P_split P_allocated P_enqueued P_dequeued P_head P_freed.
  intros HI Hv HQ. destruct c as [size|id]; cbn [main_step].
  - apply ends_with_bind.
    + apply first_fit_allocate_ends; [done|simpl in Hv; lia|by eapply HQ].
    + intros a s1 o1 _ HI1. by destruct (negb (a =? -1)).
  - apply ends_with_bind; [by apply free_memory_ends|done].
Qed.

Lemma main_loop_ends (cs : list command) :
  forall (s : SystemMemory) (process_id : Z),
  (forall id, Q id) ->
  engine_invariant total P s ->
  valid_commands process_id cs ->
  ends_with (engine_invariant total P) (main_loop cs process_id s).
Proof using P_split P_allocated P_enqueued P_dequeued P_head P_freed.
  induction cs as [|c cs IH]; intros s process_id HQ HI Hv; [done|].
  destruct Hv as [Hv Hvs]. cbn [main_loop]. apply ends_with_bind.
  - by apply main_step_ends.
  - intros p1 s1 o1 Hstep HI1.
    destruct (main_step_consistent _ _ _ _ _ _ _ (proj1 HI) Hv Hstep)
      as [_ ->].
    by apply IH.
Qed.
End EngineInvariant.

(** Every run of validated commands from a consistent structure comes to
    an end, and the structure it ends with is consistent. *)
Lemma main_loop_ends_consistent (total : Z) (cs : list command)
    (s : SystemMemory) (process_id : Z) :
  consistent total s ->
  valid_commands process_id cs ->
  ends_with (consistent total) (main_loop cs process_id s).
Proof.
  intros Hc Hv.
  apply (ends_with_impl
           (engine_invariant total (fun _ => True))); [by intros ? [? _]|].
  apply (main_loop_ends total (fun _ => True) (fun _ => True)); done.
Qed.

Lemma main_ends_consistent (block_sizes : list Z) (cs : list command)
    (s0 : SystemMemory) :
  valid_block_sizes block_sizes ->
  sum_sizes block_sizes <= INT_MAX ->
  valid_commands 1 cs ->
  ends_with (consistent (sum_sizes block_sizes)) (main block_sizes cs s0).
Proof.
  intros Hv Hsum Hcs. unfold main. apply ends_with_bind.
  - rewrite initialize_memory_ok by (destruct Hv; lia).
    by apply initialized_consistent.
  - intros [] s1 o1 Hinit _.
    rewrite initialize_memory_ok in Hinit by (destruct Hv; lia).
    injection Hinit as <- _.
    apply main_loop_ends_consistent; [|done].
    by apply initialized_consistent.
Qed.

(** ** Statements about the allocator *)

Lemma fits_fitting (size : Z) (b : MemoryBlock.t) :
  fits size b = true <-> fitting size b.
Proof.
  unfold fits, fitting.
  rewrite andb_true_iff, negb_true_iff, Z.eqb_neq, Z.geb_le. done.
Qed.

Lemma chosen_first_fit (size : Z) (s : SystemMemory) (i : nat)
    (b : MemoryBlock.t) :
  chosen size s i b <-> first_fit size s = Some (i, b).
Proof.
  unfold chosen, first_fit. rewrite list_find_Some.
  setoid_rewrite fits_fitting.
  split; intros (? & ? & H); split_and!; try done.
  - intros j c Hj Hlt. by apply (H j c).
  - intros j c Hlt Hj. by apply (H j c).
Qed.


Ltac by_computation :=
  vm_compute; first [reflexivity | intros; discriminate | congruence].

Ltac concrete_storage := constructor; repeat split; by_computation.

(** *** Scenario of the specification: blocks 100, 500, 200, 300, 600 *)

(** C8. From the blocks 100, 500, 200, 300, 600 a request of 212 is placed
    at address 100: the 500 block becomes an allocated block of 212 at 100
    followed by a free block of 288 at 312.  A following request of 900 is
    put on the wait queue, no block being 900 large, although the free
    memory adds up to 100 + 288 + 200 + 300 + 600 = 1488. *)
Theorem C8_scenario_212_then_900 :
  initialize_memory 5 scenario_blocks zeroed
    = Ok tt (initialized scenario_blocks) [] /\
  block_list (initialized scenario_blocks) =
    [MemoryBlock.mk 0 100 1; MemoryBlock.mk 100 500 1;
     MemoryBlock.mk 600 200 1; MemoryBlock.mk 800 300 1;
     MemoryBlock.mk 1100 600 1] /\
  first_fit_allocate 1 212 (initialized scenario_blocks)
    = Ok 100 scenario_after_212 [] /\
  block_list scenario_after_212 =
    [MemoryBlock.mk 0 100 1; MemoryBlock.mk 100 212 0;
     MemoryBlock.mk 312 288 1; MemoryBlock.mk 600 200 1;
     MemoryBlock.mk 800 300 1; MemoryBlock.mk 1100 600 1] /\
  process_list scenario_after_212 = [Process.mk 1 100 212 1] /\
  total_free scenario_after_212 = 100 + 288 + 200 + 300 + 600 /\
  total_free scenario_after_212 = 1488 /\
  Forall (fun b => MemoryBlock.is_free b <> 0 -> MemoryBlock.size b < 900)
         (block_list scenario_after_212) /\
  first_fit_allocate 2 900 scenario_after_212
    = Ok (-1) scenario_after_900 [AddedToWaitQueue 2] /\
  block_list scenario_after_900 = block_list scenario_after_212 /\
  process_list scenario_after_900 = process_list scenario_after_212 /\
  queue_list scenario_after_900 = [Some (WaitingProcess.mk 2 900)].
Proof.
  assert (block_list scenario_after_212 =
          [MemoryBlock.mk 0 100 1; MemoryBlock.mk 100 212 0;
           MemoryBlock.mk 312 288 1; MemoryBlock.mk 600 200 1;
           MemoryBlock.mk 800 300 1; MemoryBlock.mk 1100 600 1]) as Hbl
    by by_computation.
  split_and!; try by_computation.
  rewrite Hbl. repeat constructor; simpl; lia.
Qed.

(** *** Splitting and first fit *)








(** *** Head-of-line blocking *)

(** Every way a retry can return: the request at the front is serviced
    and removed; or nothing is placed and every request stays queued, the
    front request possibly a second time at the rear; or the front
    request is placed in a block whose start is -1 and stays queued.  No
    request behind the front is serviced in any of them. *)
Lemma retry_serves_the_head_or_nobody (s : SystemMemory)
    (w : WaitingProcess.t) r s' out :
  storage_ok s ->
  wait_queue_count s <> 0 ->
  queue_head s = Some w ->
  try_allocate_waiting_process s = Ok r s' out ->
  exists rest,
    queue_list s = Some w :: rest /\
    ((r = 1 /\ queue_list s' = rest /\
      exists p, serves w p /\ process_list s' = process_list s ++ [p]) \/
     (r = 0 /\ process_list s' = process_list s /\
      block_list s' = block_list s /\
      (queue_list s' = Some w :: rest \/
       queue_list s' = Some w :: rest ++ [Some w])) \/
     (r = 0 /\ queue_list s' = Some w :: rest /\
      exists p, serves w p /\ Process.memory_address p = -1 /\
                process_list s' = process_list s ++ [p])).
Proof.
  intros Hs Hcnt Hw Ht.
  destruct (queue_list_head s Hs Hcnt) as (w' & rest & Hw' & Hq).
  unfold queue_head in Hw. rewrite Hw in Hw'. injection Hw' as <-.
  exists rest. split; [exact Hq|].
  pose proof (try_allocate_waiting_process_outcome s Hs) as Ho.
  rewrite Ht in Ho.
  inversion Ho as [ | w1 ? Hw1 | w1 i b ? Hw1 ? Hf | w1 i b ? Hw1 ? Hf ? ? Hst
                  | | w1 ? Hw1 | w1 ? Hw1 ];
    subst; try done;
    unfold queue_head in Hw1; rewrite Hw in Hw1; injection Hw1 as <-.
  - right. left. split_and!; [done|done|done|by left].
  - destruct (first_fit_Some _ _ _ _ Hs Hf) as (? & ? & _).
    left. split_and!; [done| |].
    + rewrite queue_list_dequeued; [|by apply allocated_storage_ok|done].
      by rewrite queue_list_allocated, Hq.
    + exists (new_process (WaitingProcess.process_id w)
                (WaitingProcess.memory_size w) b).
      split; [done|by apply process_list_allocated].
  - destruct (first_fit_Some _ _ _ _ Hs Hf) as (? & ? & _).
    right. right. split_and!; [done|by rewrite queue_list_allocated|].
    exists (new_process (WaitingProcess.process_id w)
              (WaitingProcess.memory_size w) b).
    split_and!; [done|exact Hst|by apply process_list_allocated].
  - right. left. split_and!; [done|done|done|]. right.
    rewrite queue_list_enqueued, Hq by done. by destruct w.
  - right. left. split_and!; [done|done|done|by left].
Qed.

(** The records a drain adds to the process table are for the first
    requests of the queue, in the order of the queue. *)
Lemma drain_loop_serves_a_prefix (fuel : nat) :
  forall (s s' : SystemMemory) (out : list msg),
  storage_ok s ->
  drain_loop fuel s = Ok tt s' out ->
  exists ws tail added,
    queue_list s = map Some ws ++ tail /\
    process_list s' = process_list s ++ added /\
    Forall2 serves ws added.
Proof.
  induction fuel as [|fuel IH]; intros s s' out Hs Hd; [done|].
  cbn [drain_loop] in Hd. unfold bind in Hd.
  destruct (try_allocate_waiting_process s) as [r s1 o1| |] eqn:Ht; try done.
  destruct (decide (wait_queue_count s = 0)) as [Hcnt|Hcnt].
  { rewrite try_empty in Ht by done. injection Ht as <- <- <-.
    simpl in Hd. injection Hd as <- _.
    exists [], (queue_list s), []. by rewrite app_nil_r. }
  destruct (queue_head_Some s Hs) as [w Hw].
  destruct (retry_serves_the_head_or_nobody _ _ _ _ _ Hs Hcnt Hw Ht)
    as (rest & Hq & [(-> & Hq1 & p & Hp & Hpl)
                    |[(-> & Hpl & _ & _)|(-> & _ & p & Hp & _ & Hpl)]]).
  - destruct (try_success_counts _ _ _ _ Hs Ht) as [Hs1 _].
    simpl in Hd.
    destruct (drain_loop fuel s1) as [[] s2 o2| |] eqn:Hd1; try done.
    injection Hd as <- _.
    destruct (IH _ _ _ Hs1 Hd1) as (ws & tail & added & Hq2 & Hpl2 & HF).
    exists (w :: ws), tail, (p :: added). split_and!.
    + rewrite Hq. simpl. by rewrite <- Hq2, Hq1.
    + rewrite Hpl2, Hpl, <- app_assoc. done.
    + by constructor.
  - simpl in Hd. injection Hd as <- _.
    exists [], (queue_list s), []. by rewrite Hpl, app_nil_r.
  - simpl in Hd. injection Hd as <- _.
    exists [w], rest, [p]. split_and!; [done|done|].
    constructor; [exact Hp|constructor].
Qed.

(** C6. In the drain loop the only request that a retry can service is
    the one at the front of the wait queue.  When the total free memory
    is less than the size asked by that request, the loop stops at once:
    the total is computed, no allocation is attempted, nothing is printed
    and the structure is left as it was, and [free_memory] returns the
    structure it had when the block was marked free.  Whatever the free
    memory, a retry either services the front request and removes it, or
    leaves every request behind the front waiting in the same order,
    whatever those requests are: it then places nothing (and may enqueue
    the front request a second time, C1), or, when the block found
    starts at -1, places the front request and leaves it queued.  So the
    records a whole drain adds to the process table are for the first
    requests of the queue, in queue order, and so are the records a
    call of [free_memory] adds. *)
Theorem C6_head_of_line_blocking (s : SystemMemory) (w : WaitingProcess.t) :
  storage_ok s ->
  wait_queue_count s <> 0 ->
  queue_head s = Some w ->
  (total_free s < WaitingProcess.memory_size w ->
   get_total_free_memory s = Ok (total_free s) s [] /\
   try_allocate_waiting_process s = Ok 0 s [] /\
   drain s = Ok tt s [] /\
   forall (process_id : Z) (s0 : SystemMemory) i p j b,
     storage_ok s0 ->
     find_active process_id s0 = Some (i, p) ->
     find_block (Process.memory_address p) s0 = Some (j, b) ->
     s = freed j b (deactivated i p s0) ->
     free_memory process_id s0 = Ok tt s [MemoryFreed process_id]) /\
  exists rest,
    queue_list s = Some w :: rest /\
    (forall r s' out,
       try_allocate_waiting_process s = Ok r s' out ->
       (r = 1 /\ queue_list s' = rest /\
        exists p, serves w p /\ process_list s' = process_list s ++ [p]) \/
       (r = 0 /\ process_list s' = process_list s /\
        block_list s' = block_list s /\
        (queue_list s' = Some w :: rest \/
         queue_list s' = Some w :: rest ++ [Some w])) \/
       (r = 0 /\ queue_list s' = Some w :: rest /\
        exists p, serves w p /\ Process.memory_address p = -1 /\
                  process_list s' = process_list s ++ [p])) /\
    (forall s' out,
       drain s = Ok tt s' out ->
       exists ws tail added,
         Some w :: rest = map Some ws ++ tail /\
         process_list s' = process_list s ++ added /\
         Forall2 serves ws added) /\
    (forall (process_id : Z) (s0 : SystemMemory) i p j b s' out,
       storage_ok s0 ->
       find_active process_id s0 = Some (i, p) ->
       find_block (Process.memory_address p) s0 = Some (j, b) ->
       s = freed j b (deactivated i p s0) ->
       free_memory process_id s0 = Ok tt s' out ->
       exists ws tail added,
         Some w :: rest = map Some ws ++ tail /\
         process_list s' = process_list s ++ added /\
         Forall2 serves ws added).
Proof.
  intros Hs Hcnt Hw. split.
  - intros Hlt.
    assert (drain s = Ok tt s []) as Hd
      by (apply drain_stops; by apply (try_blocked s w)).
    split_and!.
    + by apply get_total_free_memory_ok.
    + by apply (try_blocked s w).
    + done.
    + intros process_id s0 i p j b Hs0 Ha Hb ->.
      rewrite (free_memory_found _ _ _ _ _ _ Hs0 Ha Hb), Hd. done.
  - destruct (queue_list_head s Hs Hcnt) as (w' & rest & Hw' & Hq).
    unfold queue_head in Hw. rewrite Hw in Hw'. injection Hw' as <-.
    exists rest. split_and!; [exact Hq| | |].
    + intros r s' out Ht.
      destruct (retry_serves_the_head_or_nobody _ _ _ _ _ Hs Hcnt Hw Ht)
        as (rest' & Hq' & Hcases).
      rewrite Hq in Hq'. injection Hq' as <-. exact Hcases.
    + intros s' out Hd. rewrite <- Hq.
      by eapply drain_loop_serves_a_prefix.
    + intros process_id s0 i p j b s' out Hs0 Ha Hb Heq Hfm.
      rewrite (free_memory_found _ _ _ _ _ _ Hs0 Ha Hb), <- Heq in Hfm.
      apply finish_free_Ok in Hfm as (out' & Hd & _ & _).
      rewrite <- Hq. by eapply drain_loop_serves_a_prefix.
Qed.

Lemma C6_head_of_line_blocking_witness :
  (queue_list blocked_state =
     [Some (WaitingProcess.mk 3 150); Some (WaitingProcess.mk 4 50)] /\
   first_fit 50 blocked_state = Some (0%nat, MemoryBlock.mk 0 100 1) /\
   total_free blocked_state < 150 /\
   drain blocked_state = Ok tt blocked_state []) /\
  (first_fit 50 blocked_fragmented = Some (0%nat, MemoryBlock.mk 0 100 1) /\
   total_free blocked_fragmented = 200 /\
   drain blocked_fragmented
     = Ok tt (state_of (drain blocked_fragmented)) [AddedToWaitQueue 3] /\
   process_list (state_of (drain blocked_fragmented))
     = process_list blocked_fragmented /\
   queue_list (state_of (drain blocked_fragmented)) =
     [Some (WaitingProcess.mk 3 150); Some (WaitingProcess.mk 4 50);
      Some (WaitingProcess.mk 3 150)]) /\
  (total_free blocked_state < 150 ->
   get_total_free_memory blocked_state
     = Ok (total_free blocked_state) blocked_state [] /\
   try_allocate_waiting_process blocked_state = Ok 0 blocked_state [] /\
   drain blocked_state = Ok tt blocked_state [] /\
   forall (process_id : Z) (s0 : SystemMemory) i p j b,
     storage_ok s0 ->
     find_active process_id s0 = Some (i, p) ->
     find_block (Process.memory_address p) s0 = Some (j, b) ->
     blocked_state = freed j b (deactivated i p s0) ->
     free_memory process_id s0
       = Ok tt blocked_state [MemoryFreed process_id]) /\
  exists rest,
    queue_list blocked_state = Some (WaitingProcess.mk 3 150) :: rest /\
    (forall r s' out,
       try_allocate_waiting_process blocked_state = Ok r s' out ->
       (r = 1 /\ queue_list s' = rest /\
        exists p, serves (WaitingProcess.mk 3 150) p /\
                  process_list s' = process_list blocked_state ++ [p]) \/
       (r = 0 /\ process_list s' = process_list blocked_state /\
        block_list s' = block_list blocked_state /\
        (queue_list s' = Some (WaitingProcess.mk 3 150) :: rest \/
         queue_list s' =
           Some (WaitingProcess.mk 3 150) :: rest
           ++ [Some (WaitingProcess.mk 3 150)])) \/
       (r = 0 /\ queue_list s' = Some (WaitingProcess.mk 3 150) :: rest /\
        exists p, serves (WaitingProcess.mk 3 150) p /\
                  Process.memory_address p = -1 /\
                  process_list s' = process_list blocked_state ++ [p])) /\
    (forall s' out,
       drain blocked_state = Ok tt s' out ->
       exists ws tail added,
         Some (WaitingProcess.mk 3 150) :: rest = map Some ws ++ tail /\
         process_list s' = process_list blocked_state ++ added /\
         Forall2 serves ws added) /\
    (forall (process_id : Z) (s0 : SystemMemory) i p j b s' out,
       storage_ok s0 ->
       find_active process_id s0 = Some (i, p) ->
       find_block (Process.memory_address p) s0 = Some (j, b) ->
       blocked_state = freed j b (deactivated i p s0) ->
       free_memory process_id s0 = Ok tt s' out ->
       exists ws tail added,
         Some (WaitingProcess.mk 3 150) :: rest = map Some ws ++ tail /\
         process_list s' = process_list blocked_state ++ added /\
         Forall2 serves ws added).
Proof.
  split; [split_and!; by_computation|].
  split; [split_and!; by_computation|].
  apply (C6_head_of_line_blocking blocked_state (WaitingProcess.mk 3 150)).
  - concrete_storage.
  - by_computation.
  - reflexivity.
Defined.

(** *** What holds of the calls that place nothing *)

(** A request that no block can hold leaves the block and process tables
    alone and returns -1, whether it is put on the queue or not. *)
Lemma first_fit_allocate_without_fit (process_id size : Z) (s : SystemMemory) :
  storage_ok s ->
  first_fit size s = None ->
  exists s' out,
    first_fit_allocate process_id size s = Ok (-1) s' out /\
    block_list s' = block_list s /\ process_list s' = process_list s /\
    (wait_queue_count s < MAX_WAIT_QUEUE ->
     out = [AddedToWaitQueue process_id] /\
     queue_list s' =
       queue_list s ++ [Some (WaitingProcess.mk process_id size)]) /\
    (MAX_WAIT_QUEUE <= wait_queue_count s ->
     out = [WaitQueueFull process_id] /\ s' = s).
Proof.
  intros Hs Hf.
  destruct (decide (wait_queue_count s < MAX_WAIT_QUEUE)) as [Hc|Hc].
  - exists (enqueued process_id size s), [AddedToWaitQueue process_id].
    split_and!; try done.
    + by apply first_fit_allocate_queued.
    + intros _. split; [done|]. by apply queue_list_enqueued.
    + lia.
  - exists s, [WaitQueueFull process_id]. split_and!; try done.
    apply first_fit_allocate_rejected; [done|done|lia].
Qed.


(** *** Invariants of the reachable structures *)

Lemma chain_tiles (bs : list MemoryBlock.t) (total : Z) :
  chain 0 bs total -> tiles total bs.
Proof.
  intros Hc. split_and!.
  - intros b Hb. by eapply chain_starts_at.
  - by eapply chain_contiguous.
  - by eapply chain_sorted.
  - by eapply chain_no_overlap.
  - rewrite (chain_total_size _ _ _ Hc). lia.
Qed.

Lemma scenario_reachable : reachable scenario_blocks (state_of scenario_run).
Proof.
  split.
  - split; [split; by_computation|].
    repeat constructor; by_computation.
  - exists [Allocate 212; Allocate 900; Allocate 100], zeroed. do 2 eexists.
    split; [|by_computation].
    simpl. repeat split; by_computation.
Qed.

(** C4 (amended). When the block sizes given at initialization add up to
    at most [INT_MAX], every sequence of validated allocation and free
    commands comes to an end: [main] has executed them all, or it has
    come to the first write beyond a full block or process table (which
    the code does not refuse, C2, and after which the C program has no
    defined behaviour).  In the structure the run ends with, hence after
    every command up to there, the first block starts at 0, each block
    ends where the next one starts, the blocks are in ascending order of
    start and do not overlap, and their sizes add up to the sum of the
    initial sizes. *)
Theorem C4_blocks_tile_the_address_space (block_sizes : list Z)
    (cs : list command) (s0 : SystemMemory) :
  valid_block_sizes block_sizes ->
  sum_sizes block_sizes <= INT_MAX ->
  valid_commands 1 cs ->
  (exists process_id s out,
     main block_sizes cs s0 = Ok process_id s out /\
     tiles (sum_sizes block_sizes) (block_list s)) \/
  (exists s out,
     main block_sizes cs s0 = OutOfBounds s out /\ table_full s /\
     tiles (sum_sizes block_sizes) (block_list s)).
Proof.
  intros Hv Hsum Hcs.
  pose proof (main_ends_consistent block_sizes cs s0 Hv Hsum Hcs) as He.
  destruct (main block_sizes cs s0) as [process_id s out|s out|];
    simpl in He; [left|right|done].
  - exists process_id, s, out. split; [done|].
    apply chain_tiles. by apply consistent_chain.
  - destruct He as [Hc Hfull]. exists s, out. split_and!; [done|done|].
    apply chain_tiles. by apply consistent_chain.
Qed.

Lemma C4_blocks_tile_the_address_space_witness :
  (exists process_id s out,
     main scenario_blocks [Allocate 212; Allocate 900; Allocate 100] zeroed
       = Ok process_id s out /\
     tiles (sum_sizes scenario_blocks) (block_list s)) \/
  (exists s out,
     main scenario_blocks [Allocate 212; Allocate 900; Allocate 100] zeroed
       = OutOfBounds s out /\ table_full s /\
     tiles (sum_sizes scenario_blocks) (block_list s)).
Proof.
  apply (C4_blocks_tile_the_address_space scenario_blocks
           [Allocate 212; Allocate 900; Allocate 100] zeroed).
  - split; [split; by_computation|]. repeat constructor; by_computation.
  - by_computation.
  - simpl. repeat split; by_computation.
Defined.

(** C4 as stated fails for the sizes 2147483647, 1, 1, which [main]
    accepts: the running start address wraps around, the third block
    starts at -2147483648, below the second block, which starts at
    2147483647 and ends at 2147483648. *)
Lemma C4_counterexample :
  reachable [2147483647; 1; 1] (initialized [2147483647; 1; 1]) /\
  block_list (initialized [2147483647; 1; 1]) =
    [MemoryBlock.mk 0 2147483647 1; MemoryBlock.mk 2147483647 1 1;
     MemoryBlock.mk (-2147483648) 1 1] /\
  ~ contiguous (block_list (initialized [2147483647; 1; 1])) /\
  ~ sorted_by_start (block_list (initialized [2147483647; 1; 1])) /\
  ~ tiles (sum_sizes [2147483647; 1; 1])
      (block_list (initialized [2147483647; 1; 1])).
Proof.
  assert (~ contiguous (block_list (initialized [2147483647; 1; 1]))) as Hn.
  { intros H.
    specialize (H 1%nat (MemoryBlock.mk 2147483647 1 1)
                  (MemoryBlock.mk (-2147483648) 1 1) eq_refl eq_refl).
    simpl in H. lia. }
  split_and!.
  - split.
    + split; [split; by_computation|]. repeat constructor; by_computation.
    + exists [], zeroed, 1, []. split; [done|by_computation].
  - reflexivity.
  - exact Hn.
  - intros H.
    specialize (H 1%nat 2%nat (MemoryBlock.mk 2147483647 1 1)
                  (MemoryBlock.mk (-2147483648) 1 1)
                  ltac:(lia) eq_refl eq_refl).
    simpl in H. lia.
  - intros (_ & H & _). by apply Hn.
Qed.

Lemma find_active_exists (process_id : Z) (s : SystemMemory) (k : nat) p :
  process_list s !! k = Some p -> Process.id p = process_id ->
  Process.is_active p <> 0 ->
  exists i q, find_active process_id s = Some (i, q).
Proof.
  intros Hk Hid Hact.
  destruct (list_find_elem_of (fun p => active_with process_id p = true)
              (process_list s) p) as [[i q] H].
  - by eapply list_elem_of_lookup_2.
  - unfold active_with. rewrite andb_true_iff, negb_true_iff.
    split; [by apply Z.eqb_eq|by apply Z.eqb_neq].
  - by exists i, q.
Qed.

Lemma consistent_owns_blocks (total : Z) (s : SystemMemory) :
  consistent total s -> owns_blocks s /\ free_reaches_block s.
Proof.
  intros Hc. split.
  - intros k p Hk Hact.
    pose proof (consistent_owned _ _ Hc k p Hk Hact) as Hin.
    apply list_elem_of_lookup in Hin as [j Hj].
    exists j, (block_of p). done.
  - intros process_id k p Hk Hid Hact.
    destruct (find_active_exists _ _ _ _ Hk Hid Hact) as (i & q & Ha).
    destruct (find_active_lookup _ _ _ _ Ha) as (Hq & _ & Hqact).
    destruct (find_block_owned _ _ _ _ Hc Hq Hqact) as [j Hb].
    exists i, q, j, (block_of q). split_and!; try done.
    apply free_memory_found; [by eapply consistent_storage|done|done].
Qed.

(** C10 (amended). When the block sizes given at initialization add up
    to at most [INT_MAX], every sequence of validated allocation and
    free commands comes to an end: [main] has executed them all, or it
    has come to the first write beyond a full block or process table
    (C2).  In the structure the run ends with, hence after every command
    up to there, each active process owns an allocated block at its
    recorded address, of its recorded size; and freeing the id of an
    active process always reaches such a block, so a process is never
    deactivated without a block being marked free. *)
Theorem C10_active_processes_own_blocks (block_sizes : list Z)
    (cs : list command) (s0 : SystemMemory) :
  valid_block_sizes block_sizes ->
  sum_sizes block_sizes <= INT_MAX ->
  valid_commands 1 cs ->
  (exists process_id s out,
     main block_sizes cs s0 = Ok process_id s out /\
     owns_blocks s /\ free_reaches_block s) \/
  (exists s out,
     main block_sizes cs s0 = OutOfBounds s out /\ table_full s /\
     owns_blocks s /\ free_reaches_block s).
Proof.
  intros Hv Hsum Hcs.
  pose proof (main_ends_consistent block_sizes cs s0 Hv Hsum Hcs) as He.
  destruct (main block_sizes cs s0) as [process_id s out|s out|];
    simpl in He; [left|right|done].
  - exists process_id, s, out. split; [done|].
    by eapply consistent_owns_blocks.
  - destruct He as [Hc Hfull]. exists s, out. split_and!; [done|done| |];
      by eapply consistent_owns_blocks.
Qed.

Lemma C10_active_processes_own_blocks_witness :
  (exists process_id s out,
     main scenario_blocks [Allocate 212; Allocate 900; Allocate 100] zeroed
       = Ok process_id s out /\
     owns_blocks s /\ free_reaches_block s) \/
  (exists s out,
     main scenario_blocks [Allocate 212; Allocate 900; Allocate 100] zeroed
       = OutOfBounds s out /\ table_full s /\
     owns_blocks s /\ free_reaches_block s).
Proof.
  apply (C10_active_processes_own_blocks scenario_blocks
           [Allocate 212; Allocate 900; Allocate 100] zeroed).
  - split; [split; by_computation|]. repeat constructor; by_computation.
  - by_computation.
  - simpl. repeat split; by_computation.
Defined.

(** C10 as stated fails for the sizes 2147483647, 2147483647, 2, 5: the
    start addresses wrap around and the fourth block starts at 0 like the
    first.  Freeing process 4 (5 KB at address 0) marks the first block
    free, which belongs to process 1; process 1 stays active with no
    allocated block of its size at its address. *)
Lemma C10_counterexample :
  reachable wrapped_sizes wrapped_state /\ ~ owns_blocks wrapped_state.
Proof.
  split.
  - split.
    + split; [split; by_computation|]. repeat constructor; by_computation.
    + exists wrapped_commands, zeroed. do 2 eexists.
      split; [|by_computation].
      simpl. repeat split; by_computation.
  - intros H.
    destruct (H 0%nat (Process.mk 1 0 2147483647 1) eq_refl)
      as (j & b & Hj & Hst & Hfree & Hsz).
    { simpl. lia. }
    assert (block_list wrapped_state =
            [MemoryBlock.mk 0 2147483647 1; MemoryBlock.mk 2147483647 2147483647 0;
             MemoryBlock.mk (-2) 2 0; MemoryBlock.mk 0 5 0]) as Hbl
      by reflexivity.
    rewrite Hbl in Hj. clear H Hbl.
    destruct j as [|[|[|[|j]]]]; simpl in Hj; try done;
      injection Hj as <-; simpl in Hst, Hfree, Hsz; lia.
Qed.

(** *** Behaviour at the failing inputs *)

(** C1, evaluated where the claim fails.  Blocks 100 and 100 are both
    allocated, request 3 for 150 waits, and both processes are freed.  At
    the retry the queue holds the one request, the free memory is 200, no
    block is 150 large; the retry returns 0 (the drain stops) with the
    head still at the front, but the request has been enqueued a second
    time: the queue now holds two entries for process 3. *)
Theorem C1_failed_retry_enqueues_head_again :
  main [100; 100] fragmented_commands zeroed
    = Ok 4 before_free_2
        [MemoryAllocatedAt 0; MemoryAllocatedAt 100; AddedToWaitQueue 3;
         ProcessAddedToWaitQueue; MemoryFreed 1] /\
  wait_queue_count at_retry = 1 /\
  queue_list at_retry = [Some (WaitingProcess.mk 3 150)] /\
  total_free at_retry = 200 /\
  first_fit 150 at_retry = None /\
  try_allocate_waiting_process at_retry
    = Ok 0 after_retry [AddedToWaitQueue 3] /\
  wait_queue_count after_retry = 2 /\
  queue_list after_retry =
    [Some (WaitingProcess.mk 3 150); Some (WaitingProcess.mk 3 150)] /\
  free_memory 2 before_free_2
    = Ok tt after_retry [MemoryFreed 2; AddedToWaitQueue 3].
Proof. split_and!; by_computation. Qed.

(** C2, evaluated where the claim fails.  With 50 blocks in the table a
    request that needs a split makes [first_fit_allocate] write
    [blocks[50]]; with 50 records in the process table a request that
    fits makes it write [processes[50]], after the block has already been
    split.  Neither call returns a capacity error. *)
Theorem C2_full_tables_are_overrun :
  initialize_memory 50 fifty_blocks zeroed
    = Ok tt (initialized fifty_blocks) [] /\
  num_blocks (initialized fifty_blocks) = MAX_BLOCKS /\
  first_fit_allocate 1 1 (initialized fifty_blocks)
    = OutOfBounds (initialized fifty_blocks) [] /\
  (exists out, main [10] fill_process_table zeroed
               = Ok 51 process_table_full out) /\
  num_processes process_table_full = MAX_PROCESSES /\
  block_list process_table_full = [MemoryBlock.mk 0 10 1] /\
  first_fit_allocate 51 5 process_table_full
    = OutOfBounds (with_split 0 (MemoryBlock.mk 0 10 1) 5 process_table_full)
        [] /\
  block_list (with_split 0 (MemoryBlock.mk 0 10 1) 5 process_table_full)
    = [MemoryBlock.mk 0 5 0; MemoryBlock.mk 5 5 1].
Proof.
  split_and!; try by_computation.
  eexists. by_computation.
Qed.

(** C7, evaluated where the claim fails.  With the only block allocated
    and 50 requests waiting, a further request is not enqueued, yet
    [first_fit_allocate] returns -1 exactly as it does when a request is
    enqueued, and [main] prints the same line in both cases. *)
Theorem C7_queue_full_is_reported_as_queued :
  (exists out, main [1] fill_queue zeroed = Ok 52 queue_full out) /\
  wait_queue_count queue_full = MAX_WAIT_QUEUE /\
  first_fit_allocate 52 1 queue_full
    = Ok (-1) queue_full [WaitQueueFull 52] /\
  main_step 52 (Allocate 1) queue_full
    = Ok 53 queue_full [WaitQueueFull 52; ProcessAddedToWaitQueue] /\
  first_fit_allocate 2 1 one_allocated
    = Ok (-1) (enqueued 2 1 one_allocated) [AddedToWaitQueue 2] /\
  main_step 2 (Allocate 1) one_allocated
    = Ok 3 (enqueued 2 1 one_allocated)
        [AddedToWaitQueue 2; ProcessAddedToWaitQueue].
Proof.
  split_and!; try by_computation.
  eexists. by_computation.
Qed.

(** C9, evaluated where the claim fails.  Request 4 (150) waits while
    blocks 100 and 100 are freed, is enqueued a second time by the failed
    retry, and both entries are serviced when the 300 block is freed:
    two active records carry id 4.  After process 4 has been freed once,
    a second free of id 4 does not report "not found": it deactivates the
    second record and frees its block. *)
Theorem C9_second_free_finds_a_second_record :
  main [100; 100; 300] double_allocation_commands zeroed
    = Ok 5 freed_once
        [MemoryAllocatedAt 0; MemoryAllocatedAt 100; MemoryAllocatedAt 200;
         AddedToWaitQueue 4; ProcessAddedToWaitQueue;
         MemoryFreed 1; MemoryFreed 2; AddedToWaitQueue 4;
         MemoryFreed 3; MovedFromWaitQueue 4; MovedFromWaitQueue 4;
         MemoryFreed 4] /\
  process_list freed_once =
    [Process.mk 1 0 100 0; Process.mk 2 100 100 0; Process.mk 3 200 300 0;
     Process.mk 4 200 150 0; Process.mk 4 350 150 1] /\
  free_memory 4 freed_once = Ok tt freed_twice [MemoryFreed 4] /\
  process_list freed_twice =
    [Process.mk 1 0 100 0; Process.mk 2 100 100 0; Process.mk 3 200 300 0;
     Process.mk 4 200 150 0; Process.mk 4 350 150 0] /\
  block_list freed_once =
    [MemoryBlock.mk 0 100 1; MemoryBlock.mk 100 100 1;
     MemoryBlock.mk 200 150 1; MemoryBlock.mk 350 150 0] /\
  block_list freed_twice =
    [MemoryBlock.mk 0 100 1; MemoryBlock.mk 100 100 1;
     MemoryBlock.mk 200 150 1; MemoryBlock.mk 350 150 1] /\
  freed_twice <> freed_once.
Proof.
  split_and!; by_computation.
Qed.

(** ** Further properties of the engine *)

(** *** The total of the free memory *)

Lemma free_size_app (l1 l2 : list MemoryBlock.t) :
  free_size (l1 ++ l2) = free_size l1 + free_size l2.
Proof.
  unfold free_size. induction l1 as [|b l1 IH]; simpl; [done|].
  rewrite IH. lia.
Qed.

Lemma total_free_of_exact (bs : list MemoryBlock.t) : forall a e acc,
  chain a bs e -> 0 <= acc -> acc + (e - a) <= INT_MAX ->
  total_free_of bs acc = acc + free_size bs /\ 0 <= free_size bs <= e - a.
Proof.
  induction bs as [|b bs IH]; intros a e acc Hc Hacc Hmax.
  - simpl in *. unfold free_size. simpl. lia.
  - destruct Hc as (Hst & Hsz & Hc). pose proof (chain_le _ _ _ Hc) as Hle.
    unfold total_free_of, free_size in *. cbn [fold_left fold_right].
    destruct (MemoryBlock.is_free b =? 0).
    + destruct (IH _ _ acc Hc Hacc) as [-> ?]; lia.
    + rewrite wrap_id by (unfold_limits; lia).
      destruct (IH _ _ (acc + MemoryBlock.size b) Hc) as [-> ?]; lia.
Qed.

Lemma consistent_total_free (total : Z) (s : SystemMemory) :
  consistent total s ->
  total_free s = free_size (block_list s) /\ 0 <= total_free s <= total.
Proof.
  intros Hc. unfold total_free.
  destruct (total_free_of_exact _ 0 total 0 (consistent_chain _ _ Hc))
    as [-> ?]; [lia|pose proof (consistent_total _ _ Hc); lia|lia].
Qed.

Lemma chain_free_size_nonneg (bs : list MemoryBlock.t) a e :
  chain a bs e -> 0 <= free_size bs.
Proof.
  revert a. induction bs as [|b bs IH]; intros a Hc.
  - unfold free_size. simpl. lia.
  - destruct Hc as (_ & ? & Hc). specialize (IH _ Hc).
    unfold free_size in *. simpl. destruct (_ =? 0); lia.
Qed.

Lemma free_size_middle (bs : list MemoryBlock.t) (i : nat) b :
  bs !! i = Some b ->
  free_size bs =
  free_size (take i bs)
  + (if MemoryBlock.is_free b =? 0 then 0 else MemoryBlock.size b)
  + free_size (drop (S i) bs).
Proof.
  intros Hl. rewrite <- (take_drop_middle _ _ _ Hl) at 1.
  rewrite free_size_app. unfold free_size at 2. simpl.
  fold (free_size (drop (S i) bs)). lia.
Qed.

Lemma consistent_fitting_le_total_free (total : Z) (s : SystemMemory)
    (i : nat) (b : MemoryBlock.t) (size : Z) :
  consistent total s ->
  block_list s !! i = Some b -> fitting size b ->
  size <= total_free s.
Proof.
  intros Hc Hl [Hfree Hle].
  destruct (consistent_total_free _ _ Hc) as [-> _].
  pose proof (consistent_chain _ _ Hc) as Hch.
  destruct (chain_lookup _ _ _ _ _ Hch Hl) as (H1 & _ & H2).
  apply chain_free_size_nonneg in H1, H2.
  rewrite (free_size_middle _ _ _ Hl).
  apply Z.eqb_neq in Hfree. rewrite Hfree. lia.
Qed.

(** X1. In a consistent structure [get_total_free_memory] returns the
    exact sum of the sizes of the free blocks without changing anything;
    the sum lies between 0 and the size of the address space, and every
    free block is at most that large: a request that some block can hold
    always passes the total-free check made before a retry. *)
Theorem X1_total_free_is_exact_and_bounds_every_free_block (total : Z)
    (s : SystemMemory) :
  consistent total s ->
  get_total_free_memory s = Ok (free_size (block_list s)) s [] /\
  0 <= free_size (block_list s) <= total /\
  forall (i : nat) b size,
    block_list s !! i = Some b -> fitting size b ->
    size <= free_size (block_list s).
Proof.
  intros Hc. destruct (consistent_total_free _ _ Hc) as [Heq Hrange].
  split_and!.
  - rewrite <- Heq. apply get_total_free_memory_ok.
    by eapply consistent_storage.
  - lia.
  - lia.
  - intros i b size Hl Hfit. rewrite <- Heq.
    by eapply consistent_fitting_le_total_free.
Qed.

Lemma scenario_consistent :
  consistent (sum_sizes scenario_blocks) (state_of scenario_run).
Proof.
  apply reachable_consistent; [exact scenario_reachable|by_computation].
Qed.

Lemma X1_total_free_is_exact_and_bounds_every_free_block_witness :
  get_total_free_memory (state_of scenario_run)
    = Ok (free_size (block_list (state_of scenario_run)))
         (state_of scenario_run) [] /\
  0 <= free_size (block_list (state_of scenario_run))
    <= sum_sizes scenario_blocks /\
  forall (i : nat) b size,
    block_list (state_of scenario_run) !! i = Some b -> fitting size b ->
    size <= free_size (block_list (state_of scenario_run)).
Proof.
  apply (X1_total_free_is_exact_and_bounds_every_free_block
           (sum_sizes scenario_blocks) (state_of scenario_run)).
  exact scenario_consistent.
Defined.

(** *** What an allocation does to a consistent structure *)

Lemma free_size_allocated_pieces (bs : list MemoryBlock.t) (i : nat)
    (b : MemoryBlock.t) (size : Z) :
  bs !! i = Some b -> fitting size b ->
  in_int (MemoryBlock.size b - size) ->
  free_size (take i bs ++ allocated_pieces size b ++ drop (S i) bs)
  = free_size bs - size.
Proof.
  intros Hl [Hfree Hle] Hint.
  rewrite (free_size_middle _ _ _ Hl), !free_size_app.
  apply Z.eqb_neq in Hfree. rewrite Hfree.
  unfold allocated_pieces.
  destruct (MemoryBlock.size b =? size) eqn:Hex.
  - apply Z.eqb_eq in Hex. unfold free_size at 2. simpl. lia.
  - unfold free_size at 2. simpl. rewrite wrap_id by done. lia.
Qed.

(** X2. In a consistent structure with room in the tables, placing a
    request of positive size in the chosen block returns an address
    inside the address space (so never -1), with the whole request below
    the end of the space, lowers the free total by exactly the requested
    size, and leaves the structure consistent. *)
Theorem X2_allocation_takes_exactly_the_requested_size (total : Z)
    (s : SystemMemory) (process_id size : Z) (i : nat) (b : MemoryBlock.t) :
  consistent total s ->
  0 < size ->
  chosen size s i b ->
  (MemoryBlock.size b = size \/ num_blocks s < MAX_BLOCKS) ->
  num_processes s < MAX_PROCESSES ->
  exists s',
    first_fit_allocate process_id size s = Ok (MemoryBlock.start b) s' [] /\
    0 <= MemoryBlock.start b /\ MemoryBlock.start b + size <= total /\
    free_size (block_list s') = free_size (block_list s) - size /\
    consistent total s'.
Proof.
  intros Hc Hsz Hch Hcap Hnp.
  pose proof (consistent_storage _ _ Hc) as Hs.
  pose proof Hch as (Hl & Hfit & _). pose proof Hfit as [_ Hle].
  apply chosen_first_fit in Hch.
  destruct (first_fit_Some _ _ _ _ Hs Hch) as (Hb & Hi & _).
  destruct (chain_bounds _ _ _ _ _ (consistent_chain _ _ Hc) Hl)
    as (? & ? & ?).
  pose proof (consistent_total _ _ Hc).
  exists (allocated i b process_id size s). split_and!.
  - by apply first_fit_allocate_found.
  - done.
  - lia.
  - rewrite block_list_allocated by done.
    apply free_size_allocated_pieces; [done|done|unfold_limits; lia].
  - by apply consistent_allocated.
Qed.

Lemma X2_allocation_takes_exactly_the_requested_size_witness :
  exists s',
    first_fit_allocate 4 150 (state_of scenario_run) = Ok 312 s' [] /\
    0 <= 312 /\ 312 + 150 <= sum_sizes scenario_blocks /\
    free_size (block_list s')
      = free_size (block_list (state_of scenario_run)) - 150 /\
    consistent (sum_sizes scenario_blocks) s'.
Proof.
  apply (X2_allocation_takes_exactly_the_requested_size
           (sum_sizes scenario_blocks) (state_of scenario_run) 4 150 2
           (MemoryBlock.mk 312 288 1)).
  - exact scenario_consistent.
  - lia.
  - apply chosen_first_fit. reflexivity.
  - right. by_computation.
  - by_computation.
Defined.

(** X3. In a consistent structure the value -1 returned by
    [first_fit_allocate] for a request of positive size always means
    that nothing was placed: either no block fits, -1 is returned and
    the block and process tables are as before, or a block fits and the
    result is a non-negative address at which the new active record of
    the caller's id and size lies, and nothing is printed. *)
Theorem X3_minus_one_means_not_placed (total : Z) (s : SystemMemory)
    (process_id size a : Z) (s' : SystemMemory) (out : list msg) :
  consistent total s ->
  0 < size ->
  first_fit_allocate process_id size s = Ok a s' out ->
  (a = -1 /\
   (forall (i : nat) b, block_list s !! i = Some b -> ~ fitting size b) /\
   block_list s' = block_list s /\ process_list s' = process_list s) \/
  (0 <= a /\ a + size <= total /\ out = [] /\
   (exists (i : nat) b, chosen size s i b /\ MemoryBlock.start b = a) /\
   process_list s' =
     process_list s ++ [Process.mk process_id a size 1]).
Proof.
  intros Hc Hsz Hf.
  pose proof (consistent_storage _ _ Hc) as Hs.
  pose proof (first_fit_allocate_outcome process_id size s Hs) as Ho.
  rewrite Hf in Ho.
  assert (first_fit size s = None ->
          forall (i : nat) b, block_list s !! i = Some b -> ~ fitting size b)
    as Hnone.
  { intros Hn i b Hl Hfit. unfold first_fit in Hn.
    rewrite list_find_None, Forall_forall in Hn.
    apply (Hn b); [by eapply list_elem_of_lookup_2|by apply fits_fitting]. }
  inversion Ho as [i b Hff Hcap Hnp| | |Hff Hcnt|Hff Hcnt]; subst.
  - right.
    destruct (first_fit_Some _ _ _ _ Hs Hff) as (Hb & Hi & Hfits).
    destruct (first_fit_lookup _ _ _ _ Hff) as (Hl & _).
    apply fits_fitting in Hfits. destruct Hfits as [_ Hle].
    destruct (chain_bounds _ _ _ _ _ (consistent_chain _ _ Hc) Hl)
      as (? & ? & ?).
    split_and!; try done; try lia.
    + exists i, b. split; [by apply chosen_first_fit|done].
    + by rewrite process_list_allocated.
  - left. split_and!; try done. by apply Hnone.
  - left. split_and!; try done. by apply Hnone.
Qed.

Lemma X3_minus_one_means_not_placed_witness :
  (-1 = -1 /\
   (forall (i : nat) b,
      block_list scenario_after_212 !! i = Some b -> ~ fitting 900 b) /\
   block_list scenario_after_900 = block_list scenario_after_212 /\
   process_list scenario_after_900 = process_list scenario_after_212) \/
  (0 <= -1 /\ -1 + 900 <= sum_sizes scenario_blocks /\
   [AddedToWaitQueue 2] = [] /\
   (exists (i : nat) b,
      chosen 900 scenario_after_212 i b /\ MemoryBlock.start b = -1) /\
   process_list scenario_after_900 =
     process_list scenario_after_212 ++ [Process.mk 2 (-1) 900 1]).
Proof.
  apply (X3_minus_one_means_not_placed (sum_sizes scenario_blocks)
           scenario_after_212 2 900 (-1) scenario_after_900
           [AddedToWaitQueue 2]).
  - apply (first_fit_allocate_consistent _ (initialized scenario_blocks)
             1 212 100 _ []).
    + apply initialized_consistent; [|by_computation].
      split; [split; by_computation|repeat constructor; by_computation].
    + lia.
    + by_computation.
  - lia.
  - by_computation.
Defined.

(** *** The wait queue *)

(** X4. On a well-formed structure [add_to_wait_queue] either finds the
    queue full, prints that and returns 0 with nothing changed, or
    returns 1 having put the request behind all waiting requests, whose
    order and front are unchanged, also when the rear wraps around the
    end of the array; the block and process tables are not touched. *)
Theorem X4_enqueue_appends_behind_the_waiting_requests (s : SystemMemory)
    (process_id size : Z) :
  storage_ok s ->
  (MAX_WAIT_QUEUE <= wait_queue_count s ->
   add_to_wait_queue process_id size s
     = Ok 0 s [WaitQueueFull process_id]) /\
  (wait_queue_count s < MAX_WAIT_QUEUE ->
   exists s',
     add_to_wait_queue process_id size s
       = Ok 1 s' [AddedToWaitQueue process_id] /\
     queue_list s' =
       queue_list s ++ [Some (WaitingProcess.mk process_id size)] /\
     wait_queue_count s' = wait_queue_count s + 1 /\
     wait_queue_front s' = wait_queue_front s /\
     blocks s' = blocks s /\ processes s' = processes s /\
     num_blocks s' = num_blocks s /\ num_processes s' = num_processes s /\
     storage_ok s').
Proof.
  intros Hs. split.
  - intros Hfull. by apply add_to_wait_queue_full.
  - intros Hroom. exists (enqueued process_id size s).
    pose proof (wait_queue_count_range s Hs).
    split_and!; try done.
    + by apply add_to_wait_queue_ok.
    + by apply queue_list_enqueued.
    + unfold enqueued. simpl. apply wrap_id. unfold_limits. lia.
    + by apply enqueued_storage_ok.
Qed.

Lemma X4_enqueue_appends_behind_the_waiting_requests_witness :
  wait_queue_front queue_at_the_end = 49 /\
  wait_queue_rear queue_at_the_end = 49 /\
  queue_list queue_at_the_end = [Some (WaitingProcess.mk 51 1)] /\
  (MAX_WAIT_QUEUE <= wait_queue_count queue_at_the_end ->
   add_to_wait_queue 52 7 queue_at_the_end
     = Ok 0 queue_at_the_end [WaitQueueFull 52]) /\
  (wait_queue_count queue_at_the_end < MAX_WAIT_QUEUE ->
   exists s',
     add_to_wait_queue 52 7 queue_at_the_end
       = Ok 1 s' [AddedToWaitQueue 52] /\
     queue_list s' =
       queue_list queue_at_the_end ++ [Some (WaitingProcess.mk 52 7)] /\
     wait_queue_count s' = wait_queue_count queue_at_the_end + 1 /\
     wait_queue_front s' = wait_queue_front queue_at_the_end /\
     blocks s' = blocks queue_at_the_end /\
     processes s' = processes queue_at_the_end /\
     num_blocks s' = num_blocks queue_at_the_end /\
     num_processes s' = num_processes queue_at_the_end /\
     storage_ok s').
Proof.
  split; [by_computation|]. split; [by_computation|].
  split; [by_computation|].
  apply (X4_enqueue_appends_behind_the_waiting_requests
           queue_at_the_end 52 7).
  concrete_storage.
Defined.

(** X5. Whenever [try_allocate_waiting_process] returns a non-zero value
    on a well-formed structure, that value is 1 and exactly the request
    at the front of the queue has been serviced: it got the lowest-index
    block that fits it, a new active record with its id and size at that
    block's start was appended, it was removed from the queue with the
    order of the others unchanged, and the one line printed names it. *)
Theorem X5_a_successful_retry_services_the_front_request (s : SystemMemory)
    (r : Z) (s' : SystemMemory) (out : list msg) :
  storage_ok s ->
  try_allocate_waiting_process s = Ok r s' out ->
  r <> 0 ->
  exists w rest (i : nat) b,
    r = 1 /\
    queue_list s = Some w :: rest /\ queue_list s' = rest /\
    chosen (WaitingProcess.memory_size w) s i b /\
    process_list s' =
      process_list s
      ++ [Process.mk (WaitingProcess.process_id w) (MemoryBlock.start b)
                     (WaitingProcess.memory_size w) 1] /\
    out = [MovedFromWaitQueue (WaitingProcess.process_id w)].
Proof.
  intros Hs Ht Hr.
  pose proof (try_allocate_waiting_process_outcome s Hs) as Ho.
  rewrite Ht in Ho.
  inversion Ho as [ | | w i b Hcnt Hw ? Hf | | | | ]; subst; try done.
  destruct (first_fit_Some _ _ _ _ Hs Hf) as (? & ? & _).
  destruct (queue_list_head s Hs Hcnt) as (w' & rest & Hw' & Hq).
  unfold queue_head in Hw. rewrite Hw in Hw'. injection Hw' as <-.
  exists w, rest, i, b. split_and!; try done.
  - rewrite queue_list_dequeued; [|by apply allocated_storage_ok|done].
    rewrite queue_list_allocated, Hq. done.
  - by apply chosen_first_fit.
  - change (process_list (dequeued ?x)) with (process_list x).
    by rewrite process_list_allocated.
Qed.

Lemma X5_a_successful_retry_services_the_front_request_witness :
  exists w rest (i : nat) b,
    1 = 1 /\
    queue_list two_waiting_at_retry = Some w :: rest /\
    queue_list (state_of (try_allocate_waiting_process two_waiting_at_retry))
      = rest /\
    chosen (WaitingProcess.memory_size w) two_waiting_at_retry i b /\
    process_list
      (state_of (try_allocate_waiting_process two_waiting_at_retry)) =
      process_list two_waiting_at_retry
      ++ [Process.mk (WaitingProcess.process_id w) (MemoryBlock.start b)
                     (WaitingProcess.memory_size w) 1] /\
    [MovedFromWaitQueue 2]
      = [MovedFromWaitQueue (WaitingProcess.process_id w)].
Proof.
  apply (X5_a_successful_retry_services_the_front_request
           two_waiting_at_retry 1
           (state_of (try_allocate_waiting_process two_waiting_at_retry))
           [MovedFromWaitQueue 2]).
  - concrete_storage.
  - by_computation.
  - lia.
Defined.

(** *** The drain loop *)







(** *** Freeing *)

(** X7. Freeing an id that no active record carries (never allocated,
    or already freed) prints the "not found" line and leaves the whole
    structure as it was. *)
Theorem X7_free_of_an_id_without_active_record (s : SystemMemory)
    (process_id : Z) :
  storage_ok s ->
  (forall (k : nat) p,
     process_list s !! k = Some p -> Process.id p = process_id ->
     Process.is_active p = 0) ->
  free_memory process_id s = Ok tt s [ProcessNotFound process_id].
Proof.
  intros Hs Hnone. apply free_memory_not_found; [done|].
  unfold find_active. apply list_find_None, Forall_forall.
  intros p Hin Hact. apply list_elem_of_lookup in Hin as [k Hk].
  unfold active_with in Hact. apply andb_true_iff in Hact as [Hid Ha].
  apply Z.eqb_eq in Hid. apply negb_true_iff, Z.eqb_neq in Ha.
  apply Ha. by eapply Hnone.
Qed.

Lemma X7_free_of_an_id_without_active_record_witness :
  process_list freed_twice =
    [Process.mk 1 0 100 0; Process.mk 2 100 100 0; Process.mk 3 200 300 0;
     Process.mk 4 200 150 0; Process.mk 4 350 150 0] /\
  free_memory 4 freed_twice = Ok tt freed_twice [ProcessNotFound 4].
Proof.
  split; [reflexivity|].
  apply (X7_free_of_an_id_without_active_record freed_twice 4).
  - concrete_storage.
  - intros k p Hk _.
    assert (process_list freed_twice =
            [Process.mk 1 0 100 0; Process.mk 2 100 100 0;
             Process.mk 3 200 300 0; Process.mk 4 200 150 0;
             Process.mk 4 350 150 0]) as Hpl by reflexivity.
    rewrite Hpl in Hk.
    destruct k as [|[|[|[|[|k]]]]]; simpl in Hk; try discriminate Hk;
      injection Hk as <-; reflexivity.
Defined.

Lemma block_list_freed (s : SystemMemory) (i j : nat) p b :
  block_list s !! j = Some b ->
  block_list (freed j b (deactivated i p s)) =
  <[j := MemoryBlock.mk (MemoryBlock.start b) (MemoryBlock.size b) 1]>
    (block_list s).
Proof.
  intros Hl. unfold block_list, freed, deactivated. simpl.
  apply take_insert_lt. apply lookup_lt_Some in Hl.
  unfold block_list in Hl. rewrite length_take in Hl. lia.
Qed.

Lemma process_list_freed (s : SystemMemory) (i j : nat) p b :
  process_list s !! i = Some p ->
  process_list (freed j b (deactivated i p s)) =
  <[i := Process.mk (Process.id p) (Process.memory_address p)
           (Process.memory_size p) 0]> (process_list s).
Proof.
  intros Hl. unfold process_list, freed, deactivated. simpl.
  apply take_insert_lt. apply lookup_lt_Some in Hl.
  unfold process_list in Hl. rewrite length_take in Hl. lia.
Qed.

Lemma free_size_insert_free (bs : list MemoryBlock.t) (j : nat) b :
  bs !! j = Some b -> MemoryBlock.is_free b = 0 ->
  free_size
    (<[j := MemoryBlock.mk (MemoryBlock.start b) (MemoryBlock.size b) 1]> bs)
  = free_size bs + MemoryBlock.size b.
Proof.
  intros Hl Hfree.
  rewrite (free_size_middle _ _ _ Hl), Hfree. simpl.
  rewrite insert_take_drop by (by eapply lookup_lt_Some).
  rewrite free_size_app. unfold free_size at 2. simpl.
  fold (free_size (drop (S j) bs)). lia.
Qed.

Lemma free_with_empty_queue (total : Z) (s : SystemMemory)
    (process_id : Z) (i : nat) (p : Process.t) :
  consistent total s ->
  find_active process_id s = Some (i, p) ->
  wait_queue_count s = 0 ->
  exists j : nat,
    block_list s !! j = Some (block_of p) /\
    free_memory process_id s
    = Ok tt (freed j (block_of p) (deactivated i p s))
        [MemoryFreed process_id].
Proof.
  intros Hc Ha Hcnt. pose proof (consistent_storage _ _ Hc) as Hs.
  destruct (find_active_lookup _ _ _ _ Ha) as (Hp & _ & Hact).
  destruct (find_block_owned _ _ _ _ Hc Hp Hact) as [j Hb].
  destruct (find_block_lookup _ _ _ _ Hb) as (Hl & _).
  exists j. split; [done|].
  rewrite (free_memory_found _ _ _ _ _ _ Hs Ha Hb).
  rewrite (drain_stops _ (freed j (block_of p) (deactivated i p s)) []);
    [done|].
  by apply try_empty.
Qed.

(** X8. In a consistent structure, freeing an id whose first active
    record is [p] deactivates exactly that record, marks free exactly
    the block that starts at [p]'s address (an allocated block of [p]'s
    size), which raises the free total by [p]'s size; block starts and
    sizes and the number of blocks do not change (free neighbours are
    not merged).  The drain loop then runs on that structure; with an
    empty wait queue [free_memory] returns it as it is. *)
Theorem X8_free_releases_exactly_the_block_of_the_process (total : Z)
    (s : SystemMemory) (process_id : Z) (i : nat) (p : Process.t) :
  consistent total s ->
  find_active process_id s = Some (i, p) ->
  exists (s1 : SystemMemory) (j : nat),
    free_memory process_id s = finish_free tt process_id (drain s1) /\
    (wait_queue_count s = 0 ->
     free_memory process_id s = Ok tt s1 [MemoryFreed process_id]) /\
    process_list s1 =
      <[i := Process.mk (Process.id p) (Process.memory_address p)
               (Process.memory_size p) 0]> (process_list s) /\
    block_list s !! j =
      Some (MemoryBlock.mk (Process.memory_address p)
                           (Process.memory_size p) 0) /\
    block_list s1 =
      <[j := MemoryBlock.mk (Process.memory_address p)
               (Process.memory_size p) 1]> (block_list s) /\
    free_size (block_list s1)
      = free_size (block_list s) + Process.memory_size p /\
    num_blocks s1 = num_blocks s /\
    queue_list s1 = queue_list s /\
    consistent total s1.
Proof.
  intros Hc Ha. pose proof (consistent_storage _ _ Hc) as Hs.
  destruct (find_active_lookup _ _ _ _ Ha) as (Hp & _ & Hact).
  destruct (find_block_owned _ _ _ _ Hc Hp Hact) as [j Hb].
  destruct (find_block_lookup _ _ _ _ Hb) as (Hl & _).
  exists (freed j (block_of p) (deactivated i p s)), j.
  split_and!.
  - by apply free_memory_found.
  - intros Hcnt. rewrite (free_memory_found _ _ _ _ _ _ Hs Ha Hb).
    rewrite (drain_stops _ (freed j (block_of p) (deactivated i p s)) []);
      [done|].
    by apply try_empty.
  - by apply process_list_freed.
  - exact Hl.
  - by rewrite (block_list_freed _ _ _ _ _ Hl).
  - rewrite (block_list_freed _ _ _ _ _ Hl).
    by rewrite (free_size_insert_free _ _ _ Hl).
  - done.
  - done.
  - by eapply consistent_freed.
Qed.

Lemma X8_free_releases_exactly_the_block_of_the_process_witness :
  exists (s1 : SystemMemory) (j : nat),
    free_memory 1 (state_of scenario_run)
      = finish_free tt 1 (drain s1) /\
    (wait_queue_count (state_of scenario_run) = 0 ->
     free_memory 1 (state_of scenario_run) = Ok tt s1 [MemoryFreed 1]) /\
    process_list s1 =
      <[0%nat := Process.mk 1 100 212 0]>
        (process_list (state_of scenario_run)) /\
    block_list (state_of scenario_run) !! j
      = Some (MemoryBlock.mk 100 212 0) /\
    block_list s1 =
      <[j := MemoryBlock.mk 100 212 1]>
        (block_list (state_of scenario_run)) /\
    free_size (block_list s1)
      = free_size (block_list (state_of scenario_run)) + 212 /\
    num_blocks s1 = num_blocks (state_of scenario_run) /\
    queue_list s1 = queue_list (state_of scenario_run) /\
    consistent (sum_sizes scenario_blocks) s1.
Proof.
  apply (X8_free_releases_exactly_the_block_of_the_process
           (sum_sizes scenario_blocks) (state_of scenario_run) 1 0
           (Process.mk 1 100 212 1)).
  - exact scenario_consistent.
  - reflexivity.
Defined.

Lemma find_active_fresh (s : SystemMemory) (process_id : Z) (p : Process.t) :
  (forall (k : nat) q,
     process_list s !! k = Some q -> Process.is_active q <> 0 ->
     Process.id q <> process_id) ->
  Process.id p = process_id -> Process.is_active p <> 0 ->
  list_find (fun q => active_with process_id q = true) (process_list s ++ [p])
  = Some (length (process_list s), p).
Proof.
  intros Hfresh Hid Hact. apply list_find_Some. split_and!.
  - rewrite lookup_app_r by lia. by rewrite Nat.sub_diag.
  - unfold active_with. rewrite andb_true_iff, negb_true_iff.
    split; [by apply Z.eqb_eq|by apply Z.eqb_neq].
  - intros k q Hk Hlt Hq. rewrite lookup_app_l in Hk by done.
    unfold active_with in Hq. apply andb_true_iff in Hq as [Hqid Hqa].
    apply Z.eqb_eq in Hqid. apply negb_true_iff, Z.eqb_neq in Hqa.
    by apply (Hfresh k q).
Qed.

(** X9. Allocate, then free.  In a consistent structure with an empty
    wait queue, room in the tables and no active record with the
    caller's id, placing a request and then freeing that id brings the
    free total back to what it was, but not the block table: after a
    split the two pieces stay two adjacent free blocks (nothing merges
    them), after an exact fit the block is simply free again. *)
Theorem X9_allocate_then_free_restores_the_total_not_the_blocks (total : Z)
    (s : SystemMemory) (process_id size : Z) (i : nat) (b : MemoryBlock.t) :
  consistent total s ->
  wait_queue_count s = 0 ->
  (forall (k : nat) q,
     process_list s !! k = Some q -> Process.is_active q <> 0 ->
     Process.id q <> process_id) ->
  0 < size ->
  chosen size s i b ->
  (MemoryBlock.size b = size \/ num_blocks s < MAX_BLOCKS) ->
  num_processes s < MAX_PROCESSES ->
  exists s1 s2,
    first_fit_allocate process_id size s = Ok (MemoryBlock.start b) s1 [] /\
    free_memory process_id s1 = Ok tt s2 [MemoryFreed process_id] /\
    free_size (block_list s2) = free_size (block_list s) /\
    (size < MemoryBlock.size b ->
     block_list s2 =
       take i (block_list s)
       ++ [MemoryBlock.mk (MemoryBlock.start b) size 1;
           MemoryBlock.mk (MemoryBlock.start b + size)
                          (MemoryBlock.size b - size) 1]
       ++ drop (S i) (block_list s) /\
     num_blocks s2 = num_blocks s + 1) /\
    (size = MemoryBlock.size b ->
     block_list s2 =
       <[i := MemoryBlock.mk (MemoryBlock.start b) size 1]> (block_list s) /\
     num_blocks s2 = num_blocks s).
Proof.
  intros Hc Hcnt Hfresh Hsz Hch Hcap Hnp.
  pose proof (consistent_storage _ _ Hc) as Hs.
  pose proof (num_blocks_range s Hs) as Hnb.
  pose proof Hch as (Hl & Hfit & _). pose proof Hfit as [_ Hle].
  pose proof Hch as Hff. apply chosen_first_fit in Hff.
  destruct (first_fit_Some _ _ _ _ Hs Hff) as (Hb & Hi & _).
  pose proof (lookup_lt_Some _ _ _ Hl) as Hlen.
  destruct (chain_bounds _ _ _ _ _ (consistent_chain _ _ Hc) Hl)
    as (Hst0 & Hpos & Hend).
  pose proof (consistent_total _ _ Hc) as Htot.
  set (s1 := allocated i b process_id size s).
  assert (consistent total s1) as Hc1 by (by apply consistent_allocated).
  assert (block_list s1 =
          take i (block_list s) ++ allocated_pieces size b
          ++ drop (S i) (block_list s)) as Hbl1
    by (by apply block_list_allocated).
  assert (length (take i (block_list s)) = i) as Htake
    by (rewrite length_take; lia).
  assert (block_list s1 !! i
          = Some (MemoryBlock.mk (MemoryBlock.start b) size 0)) as Hi1.
  { rewrite Hbl1, lookup_app_r by lia. rewrite Htake, Nat.sub_diag.
    unfold allocated_pieces.
    destruct (MemoryBlock.size b =? size) eqn:Hex; [|done].
    apply Z.eqb_eq in Hex. by rewrite Hex. }
  assert (find_active process_id s1
          = Some (length (process_list s), new_process process_id size b))
    as Ha.
  { unfold find_active. subst s1. rewrite process_list_allocated by done.
    apply find_active_fresh; [done|done|simpl; lia]. }
  destruct (free_with_empty_queue _ _ _ _ _ Hc1 Ha Hcnt) as (j & Hj & Hfree).
  set (s2 := freed j (block_of (new_process process_id size b))
               (deactivated (length (process_list s))
                  (new_process process_id size b) s1)) in *.
  assert (block_list s2 =
          <[j := MemoryBlock.mk (MemoryBlock.start b) size 1]>
            (block_list s1)) as Hbl2
    by (subst s2; by rewrite (block_list_freed _ _ _ _ _ Hj)).
  assert (free_size (block_list s2) = free_size (block_list s1) + size)
    as Hfs
    by (rewrite Hbl2; by apply (free_size_insert_free _ _ _ Hj)).
  assert (num_blocks s2 = num_blocks s1) as Hn2 by done.
  simpl in Hj.
  assert (j = i) as ->.
  { eapply (chain_start_inj _ _ _ j i); [apply (consistent_chain _ _ Hc1)| | |];
      [exact Hj|exact Hi1|done]. }
  exists s1, s2. split_and!.
  - by apply first_fit_allocate_found.
  - exact Hfree.
  - rewrite Hfs, Hbl1.
    rewrite free_size_allocated_pieces by (done || (unfold_limits; lia)).
    lia.
  - intros Hlt. split.
    + rewrite Hbl2, Hbl1. unfold allocated_pieces.
      replace (MemoryBlock.size b =? size) with false
        by (symmetry; apply Z.eqb_neq; lia).
      rewrite !wrap_id by (unfold_limits; lia).
      rewrite insert_app_r_alt by lia. rewrite Htake, Nat.sub_diag. done.
    + rewrite Hn2. subst s1.
      unfold allocated, with_process, with_split. simpl.
      replace (MemoryBlock.size b =? size) with false
        by (symmetry; apply Z.eqb_neq; lia).
      destruct Hcap as [?|?]; [lia|].
      apply wrap_id. unfold_limits. lia.
  - intros Heq. split.
    + rewrite Hbl2, Hbl1. unfold allocated_pieces.
      replace (MemoryBlock.size b =? size) with true
        by (symmetry; apply Z.eqb_eq; lia).
      rewrite insert_app_r_alt by lia. rewrite Htake, Nat.sub_diag.
      simpl. symmetry. by apply insert_take_drop.
    + rewrite Hn2. subst s1.
      unfold allocated, with_process, with_split. simpl.
      replace (MemoryBlock.size b =? size) with true
        by (symmetry; apply Z.eqb_eq; lia).
      done.
Qed.

Lemma X9_allocate_then_free_restores_the_total_not_the_blocks_witness :
  exists s1 s2,
    first_fit_allocate 1 212 (initialized scenario_blocks) = Ok 100 s1 [] /\
    free_memory 1 s1 = Ok tt s2 [MemoryFreed 1] /\
    free_size (block_list s2)
      = free_size (block_list (initialized scenario_blocks)) /\
    (212 < 500 ->
     block_list s2 =
       take 1 (block_list (initialized scenario_blocks))
       ++ [MemoryBlock.mk 100 212 1; MemoryBlock.mk (100 + 212) (500 - 212) 1]
       ++ drop 2 (block_list (initialized scenario_blocks)) /\
     num_blocks s2 = num_blocks (initialized scenario_blocks) + 1) /\
    (212 = 500 ->
     block_list s2 =
       <[1%nat := MemoryBlock.mk 100 212 1]>
         (block_list (initialized scenario_blocks)) /\
     num_blocks s2 = num_blocks (initialized scenario_blocks)).
Proof.
  apply (X9_allocate_then_free_restores_the_total_not_the_blocks
           (sum_sizes scenario_blocks) (initialized scenario_blocks) 1 212 1
           (MemoryBlock.mk 100 500 1)).
  - apply initialized_consistent; [|by_computation].
    split; [split; by_computation|repeat constructor; by_computation].
  - reflexivity.
  - intros k q Hk. by destruct k.
  - lia.
  - apply chosen_first_fit. reflexivity.
  - right. by_computation.
  - by_computation.
Defined.

(** *** What the engine never undoes *)

Lemma keeps_history_refl (s : SystemMemory) : keeps_history s s.
Proof.
  split_and!; [lia|lia| |].
  - intros j b Hj. exists j, b. done.
  - intros k p Hk. exists p. done.
Qed.

Lemma keeps_history_trans (s1 s2 s3 : SystemMemory) :
  keeps_history s1 s2 -> keeps_history s2 s3 -> keeps_history s1 s3.
Proof.
  intros (? & ? & Hb12 & Hp12) (? & ? & Hb23 & Hp23).
  split_and!; [lia|lia| |].
  - intros j b Hj.
    destruct (Hb12 j b Hj) as (j2 & b2 & ? & Hj2 & Hst2).
    destruct (Hb23 j2 b2 Hj2) as (j3 & b3 & ? & Hj3 & Hst3).
    exists j3, b3. split_and!; [lia|done|congruence].
  - intros k p Hk.
    destruct (Hp12 k p Hk) as (p2 & Hk2 & ? & ? & ? & Hin2).
    destruct (Hp23 k p2 Hk2) as (p3 & Hk3 & ? & ? & ? & Hin3).
    exists p3. split_and!; try congruence. auto.
Qed.

Lemma keeps_history_same_tables (s s' : SystemMemory) :
  block_list s' = block_list s -> process_list s' = process_list s ->
  num_blocks s' = num_blocks s -> num_processes s' = num_processes s ->
  keeps_history s s'.
Proof.
  intros Hb Hp Hnb Hnp. split_and!; [lia|lia| |].
  - intros j b Hj. exists j, b. by rewrite Hb.
  - intros k p Hk. exists p. by rewrite Hp.
Qed.

Lemma keeps_history_allocated (s : SystemMemory) (i : nat)
    (b : MemoryBlock.t) (process_id size : Z) :
  storage_ok s ->
  first_fit size s = Some (i, b) ->
  (MemoryBlock.size b = size \/ num_blocks s < MAX_BLOCKS) ->
  num_processes s < MAX_PROCESSES ->
  keeps_history s (allocated i b process_id size s).
Proof.
  intros Hs Hf Hcap Hnp.
  destruct (first_fit_Some _ _ _ _ Hs Hf) as (Hb & Hi & _).
  destruct (first_fit_lookup _ _ _ _ Hf) as (Hl & _).
  pose proof (num_blocks_range s Hs). pose proof (num_processes_range s Hs).
  pose proof (lookup_lt_Some _ _ _ Hl) as Hlen.
  assert (length (take i (block_list s)) = i) as Htake
    by (rewrite length_take; lia).
  split_and!.
  - unfold allocated, with_process, with_split. simpl.
    destruct (MemoryBlock.size b =? size) eqn:Hex; [lia|].
    destruct Hcap as [?|?]; [apply Z.eqb_neq in Hex; done|].
    rewrite wrap_id by (unfold_limits; lia). lia.
  - unfold allocated, with_process. simpl.
    rewrite wrap_id by (unfold_limits; lia). lia.
  - intros j c Hj. rewrite block_list_allocated by done.
    destruct (Nat.lt_trichotomy j i) as [Hlt|[->|Hgt]].
    + exists j, c. split_and!; [lia| |done].
      rewrite lookup_app_l by lia. by rewrite lookup_take_lt.
    + rewrite Hl in Hj. injection Hj as <-.
      unfold allocated_pieces.
      destruct (MemoryBlock.size b =? size);
        [exists i, (MemoryBlock.mk (MemoryBlock.start b) (MemoryBlock.size b) 0)
        |exists i, (MemoryBlock.mk (MemoryBlock.start b) size 0)];
        (split_and!; [lia| |done]);
        rewrite lookup_app_r by lia; by rewrite Htake, Nat.sub_diag.
    + exists (length (allocated_pieces size b) + j - 1)%nat, c.
      assert (1 <= length (allocated_pieces size b))%nat
        by (unfold allocated_pieces; destruct (_ =? _); simpl; lia).
      split_and!; [lia| |done].
      rewrite lookup_app_r by lia. rewrite Htake.
      rewrite lookup_app_r by lia.
      rewrite lookup_drop. rewrite <- Hj. f_equal. lia.
  - intros k p Hk. exists p. rewrite process_list_allocated by done.
    split_and!; try done. by apply lookup_app_l_Some.
Qed.

Lemma keeps_history_freed (s : SystemMemory) (i j : nat) p b :
  process_list s !! i = Some p -> block_list s !! j = Some b ->
  keeps_history s (freed j b (deactivated i p s)).
Proof.
  intros Hp Hl. split_and!; [done|done| |].
  - intros j' c Hj'. rewrite (block_list_freed _ _ _ _ _ Hl).
    destruct (decide (j' = j)) as [->|Hne].
    + rewrite Hl in Hj'. injection Hj' as <-. exists j. eexists.
      split_and!; [lia| |].
      * apply list_lookup_insert_eq. by eapply lookup_lt_Some.
      * done.
    + exists j', c. split_and!; [lia| |done].
      by rewrite list_lookup_insert_ne.
  - intros k q Hk. rewrite (process_list_freed _ _ _ _ _ Hp).
    destruct (decide (k = i)) as [->|Hne].
    + rewrite Hp in Hk. injection Hk as <-. eexists. split.
      * apply list_lookup_insert_eq. by eapply lookup_lt_Some.
      * done.
    + exists q. split; [|done]. by rewrite list_lookup_insert_ne.
Qed.

Lemma keeps_history_with_split (s : SystemMemory) (i : nat)
    (b : MemoryBlock.t) (size : Z) :
  storage_ok s ->
  first_fit size s = Some (i, b) ->
  (MemoryBlock.size b = size \/ num_blocks s < MAX_BLOCKS) ->
  keeps_history s (with_split i b size s).
Proof.
  intros Hs Hf Hcap.
  destruct (first_fit_Some _ _ _ _ Hs Hf) as (Hb & Hi & _).
  destruct (first_fit_lookup _ _ _ _ Hf) as (Hl & _).
  pose proof (num_blocks_range s Hs).
  pose proof (lookup_lt_Some _ _ _ Hl) as Hlen.
  assert (length (take i (block_list s)) = i) as Htake
    by (rewrite length_take; lia).
  split_and!.
  - unfold with_split. simpl.
    destruct (MemoryBlock.size b =? size) eqn:Hex; [lia|].
    destruct Hcap as [?|?]; [apply Z.eqb_neq in Hex; done|].
    rewrite wrap_id by (unfold_limits; lia). lia.
  - unfold with_split. simpl. lia.
  - intros j c Hj. rewrite block_list_with_split by done.
    destruct (Nat.lt_trichotomy j i) as [Hlt|[->|Hgt]].
    + exists j, c. split_and!; [lia| |done].
      rewrite lookup_app_l by lia. by rewrite lookup_take_lt.
    + rewrite Hl in Hj. injection Hj as <-.
      unfold allocated_pieces.
      destruct (MemoryBlock.size b =? size);
        [exists i, (MemoryBlock.mk (MemoryBlock.start b) (MemoryBlock.size b) 0)
        |exists i, (MemoryBlock.mk (MemoryBlock.start b) size 0)];
        (split_and!; [lia| |done]);
        rewrite lookup_app_r by lia; by rewrite Htake, Nat.sub_diag.
    + exists (length (allocated_pieces size b) + j - 1)%nat, c.
      assert (1 <= length (allocated_pieces size b))%nat
        by (unfold allocated_pieces; destruct (_ =? _); simpl; lia).
      split_and!; [lia| |done].
      rewrite lookup_app_r by lia. rewrite Htake.
      rewrite lookup_app_r by lia.
      rewrite lookup_drop. rewrite <- Hj. f_equal. lia.
  - intros k p Hk. exists p. done.
Qed.

(** X10. Every run of validated commands from a consistent structure
    comes to an end, by returning or at the first write beyond a full
    table, and the structure it ends with has lost nothing the first one
    recorded: the number of blocks and of process records has not gone
    down, every block boundary is still a block boundary (blocks are
    split, never merged or dropped), every process record keeps its
    position, id, address and size, and a record that was inactive is
    still inactive. *)
Theorem X10_commands_never_remove_blocks_or_records (total : Z)
    (cs : list command) (s : SystemMemory) (process_id : Z) :
  consistent total s ->
  valid_commands process_id cs ->
  (exists process_id' s' out,
     main_loop cs process_id s = Ok process_id' s' out /\
     keeps_history s s') \/
  (exists s' out,
     main_loop cs process_id s = OutOfBounds s' out /\ table_full s' /\
     keeps_history s s').
Proof.
  intros Hc Hv.
  assert (ends_with (engine_invariant total (keeps_history s))
            (main_loop cs process_id s)) as He.
  { apply (main_loop_ends total (keeps_history s) (fun _ => True));
      [| | | | |done|done|split; [done|apply keeps_history_refl]|done].
    - intros x i b size Hx Hk Hf _ Hcap.
      apply (keeps_history_trans _ x); [done|].
      apply keeps_history_with_split; [by eapply consistent_storage|done..].
    - intros x i b id size Hx Hk Hf _ Hcap Hnp _.
      apply (keeps_history_trans _ x); [done|].
      apply keeps_history_allocated; [by eapply consistent_storage|done..].
    - intros x id size _ Hk _ _.
      apply (keeps_history_trans _ x); [done|].
      by apply keeps_history_same_tables.
    - intros x _ Hk _.
      apply (keeps_history_trans _ x); [done|].
      by apply keeps_history_same_tables.
    - intros x id i p j b _ Hk Ha Hb.
      destruct (find_active_lookup _ _ _ _ Ha) as (Hp & _).
      destruct (find_block_lookup _ _ _ _ Hb) as (Hl & _).
      apply (keeps_history_trans _ x); [done|].
      by apply keeps_history_freed. }
  destruct (main_loop cs process_id s) as [process_id' s' out|s' out|];
    simpl in He; [left|right|done].
  - exists process_id', s', out. by destruct He.
  - exists s', out. by destruct He as [[_ ?] ?].
Qed.

Lemma X10_commands_never_remove_blocks_or_records_witness :
  main_loop [Allocate 212; Allocate 900; Allocate 100; Free 1] 1
    (initialized scenario_blocks)
    = Ok 4 (state_of (main_loop [Allocate 212; Allocate 900; Allocate 100;
                                 Free 1] 1 (initialized scenario_blocks)))
        [MemoryAllocatedAt 100; AddedToWaitQueue 2; ProcessAddedToWaitQueue;
         MemoryAllocatedAt 0; MemoryFreed 1; AddedToWaitQueue 2] /\
  ((exists process_id' s' out,
      main_loop [Allocate 212; Allocate 900; Allocate 100; Free 1] 1
        (initialized scenario_blocks) = Ok process_id' s' out /\
      keeps_history (initialized scenario_blocks) s') \/
   (exists s' out,
      main_loop [Allocate 212; Allocate 900; Allocate 100; Free 1] 1
        (initialized scenario_blocks) = OutOfBounds s' out /\
      table_full s' /\
      keeps_history (initialized scenario_blocks) s')).
Proof.
  split; [by_computation|].
  apply (X10_commands_never_remove_blocks_or_records
           (sum_sizes scenario_blocks)
           [Allocate 212; Allocate 900; Allocate 100; Free 1]
           (initialized scenario_blocks) 1).
  - apply initialized_consistent; [|by_computation].
    split; [split; by_computation|repeat constructor; by_computation].
  - simpl. repeat split; by_computation.
Defined.

(** *** Initialization *)

Lemma layout_lookup (block_sizes : list Z) : forall (a : Z) (i : nat) sz,
  Forall (fun sz => 1 <= sz <= INT_MAX) block_sizes ->
  0 <= a -> a + sum_sizes block_sizes <= INT_MAX ->
  block_sizes !! i = Some sz ->
  layout a block_sizes !! i
  = Some (MemoryBlock.mk (a + sum_sizes (take i block_sizes)) sz 1).
Proof.
  induction block_sizes as [|x rest IH]; intros a i sz HF Ha Hsum Hi;
    [done|].
  apply Forall_cons_1 in HF as [Hx HF]. simpl in Hsum.
  assert (0 <= sum_sizes rest) by (clear -HF; induction HF; simpl; lia).
  destruct i as [|i]; simpl in *.
  - injection Hi as ->. by rewrite Z.add_0_r.
  - rewrite wrap_id by (unfold_limits; lia).
    rewrite (IH (a + x) i sz) by (done || lia).
    do 2 f_equal. lia.
Qed.

Lemma free_size_layout (block_sizes : list Z) : forall a,
  free_size (layout a block_sizes) = sum_sizes block_sizes.
Proof.
  induction block_sizes as [|x rest IH]; intros a; [done|].
  unfold free_size in *. simpl. by rewrite IH.
Qed.

(** X11. [initialize_memory] discards whatever the structure held.  For
    at most 50 sizes, each between 1 and [INT_MAX], whose sum is at most
    [INT_MAX], it returns a structure with one free block per size, in
    order, block [i] starting at the sum of the sizes before it, with no
    process record, an empty wait queue and all of the memory free. *)
Theorem X11_initialize_lays_the_blocks_end_to_end (block_sizes : list Z) :
  Z.of_nat (length block_sizes) <= MAX_BLOCKS ->
  Forall (fun sz => 1 <= sz <= INT_MAX) block_sizes ->
  sum_sizes block_sizes <= INT_MAX ->
  exists s,
    (forall s0,
       initialize_memory (Z.of_nat (length block_sizes)) block_sizes s0
       = Ok tt s []) /\
    length (block_list s) = length block_sizes /\
    (forall (i : nat) sz,
       block_sizes !! i = Some sz ->
       block_list s !! i
       = Some (MemoryBlock.mk (sum_sizes (take i block_sizes)) sz 1)) /\
    process_list s = [] /\
    queue_list s = [] /\
    get_total_free_memory s = Ok (sum_sizes block_sizes) s [].
Proof.
  intros Hlen HF Hsum. exists (initialized block_sizes).
  assert (storage_ok (initialized block_sizes)) as Hs.
  { assert (length (blocks zeroed) = 50%nat) as Hz by done.
    constructor; unfold initialized;
      cbn [blocks processes wait_queue num_blocks num_processes
           wait_queue_count wait_queue_front wait_queue_rear];
      try done; try (unfold_limits; lia).
    rewrite length_app, layout_length, length_drop, Hz.
    unfold_limits. lia. }
  split_and!.
  - intros s0. by apply initialize_memory_ok.
  - by rewrite block_list_initialized, layout_length.
  - intros i sz Hi. rewrite block_list_initialized.
    rewrite (layout_lookup block_sizes 0 i sz) by (done || lia). done.
  - done.
  - done.
  - rewrite get_total_free_memory_ok by done. do 3 f_equal.
    rewrite block_list_initialized.
    destruct (total_free_of_exact (layout 0 block_sizes) 0
                (sum_sizes block_sizes) 0) as [-> _]; [|lia|lia|].
    + by apply (layout_chain block_sizes 0).
    + by rewrite free_size_layout.
Qed.

Lemma X11_initialize_lays_the_blocks_end_to_end_witness :
  exists s,
    (forall s0,
       initialize_memory (Z.of_nat (length scenario_blocks)) scenario_blocks s0
       = Ok tt s []) /\
    length (block_list s) = length scenario_blocks /\
    (forall (i : nat) sz,
       scenario_blocks !! i = Some sz ->
       block_list s !! i
       = Some (MemoryBlock.mk (sum_sizes (take i scenario_blocks)) sz 1)) /\
    process_list s = [] /\
    queue_list s = [] /\
    get_total_free_memory s = Ok (sum_sizes scenario_blocks) s [].
Proof.
  apply (X11_initialize_lays_the_blocks_end_to_end scenario_blocks).
  - by_computation.
  - repeat constructor; by_computation.
  - by_computation.
Defined.

Lemma initialize_loop_overrun (block_sizes : list Z) (n : nat) :
  forall (k : nat) (a : Z) (s : SystemMemory),
  (k <= length (blocks s))%nat ->
  (length (blocks s) < k + n)%nat ->
  (k + n <= length block_sizes)%nat ->
  exists s', initialize_loop n (Z.of_nat k) a block_sizes s
             = OutOfBounds s' [].
Proof.
  induction n as [|n IH]; intros k a s Hk Hover Hlen; [lia|].
  cbn [initialize_loop].
  destruct (decide (k = length (blocks s))) as [Heq|Hne].
  { unfold bind at 1. unfold read_block.
    rewrite array_get_beyond by lia. by exists s. }
  destruct (block_sizes !! k) as [sz|] eqn:Hsz.
  2:{ apply lookup_ge_None in Hsz. lia. }
  destruct (blocks s !! k) as [b|] eqn:Hb.
  2:{ apply lookup_ge_None in Hb. lia. }
  unfold bind at 1. rewrite (read_block_nat _ _ _ Hb).
  unfold bind at 1. rewrite write_block_nat by lia.
  unfold bind at 1. unfold read_size at 1. rewrite array_get_nat, Hsz.
  unfold bind at 1.
  rewrite write_block_nat by (simpl; rewrite length_insert; lia).
  unfold bind at 1.
  rewrite write_block_nat by (simpl; rewrite !length_insert; lia).
  unfold bind at 1. unfold read_size at 1. rewrite array_get_nat, Hsz.
  replace (Z.of_nat k + 1) with (Z.of_nat (S k)) by lia.
  match goal with
  | |- context [initialize_loop n _ _ _ ?x] =>
      destruct (IH (S k) (wrap (a + sz)) x) as [s' ->]
  end; simpl; rewrite ?length_insert; try lia.
  by exists s'.
Qed.

(** X12. [initialize_memory] has no guard of its own on the number of
    blocks: asked for more than 50 blocks it writes [blocks[50]], past
    the end of the array.  Only the range check on the number that
    [main] reads keeps the call inside the table. *)
Theorem X12_initialize_overruns_beyond_fifty_blocks (num_blocks : Z)
    (block_sizes : list Z) (s0 : SystemMemory) :
  MAX_BLOCKS < num_blocks ->
  num_blocks <= Z.of_nat (length block_sizes) ->
  exists s,
    initialize_memory num_blocks block_sizes s0 = OutOfBounds s [].
Proof.
  intros Hover Hlen. unfold initialize_memory.
  unfold bind at 1. unfold modify at 1. unfold bind at 1.
  change 0 with (Z.of_nat 0) at 1.
  assert (length (blocks zeroed) = 50%nat) as Hz by done.
  destruct (initialize_loop_overrun block_sizes (Z.to_nat num_blocks)
              0 0 zeroed) as [s ->]; try (rewrite ?Hz; unfold_limits; lia).
  by exists s.
Qed.

Lemma X12_initialize_overruns_beyond_fifty_blocks_witness :
  exists s,
    initialize_memory 51 (replicate 51 1) zeroed = OutOfBounds s [].
Proof.
  apply (X12_initialize_overruns_beyond_fifty_blocks 51 (replicate 51 1)
           zeroed).
  - by_computation.
  - by_computation.
Defined.

(** *** The layout printer *)

Lemma print_blocks_loop_ok (s : SystemMemory) (n : nat) : forall (k : nat),
  (k + n <= length (blocks s))%nat ->
  Z.of_nat (k + n) <= INT_MAX ->
  print_blocks_loop n (Z.of_nat k) s =
  Some (imap (fun (i : nat) b =>
                BlockLine (Z.of_nat (k + i) + 1) (MemoryBlock.start b)
                  (MemoryBlock.size b) (negb (MemoryBlock.is_free b =? 0)))
             (take n (drop k (blocks s)))).
Proof.
  induction n as [|n IH]; intros k Hlen Hmax; cbn [print_blocks_loop].
  - done.
  - destruct (blocks s !! k) as [b|] eqn:Hb.
    2:{ apply lookup_ge_None in Hb. lia. }
    rewrite array_get_nat, Hb.
    replace (Z.of_nat k + 1) with (Z.of_nat (S k)) by lia.
    rewrite IH by lia.
    rewrite (drop_S _ _ _ Hb). cbn [take imap].
    rewrite wrap_id by (unfold_limits; lia).
    rewrite Nat.add_0_r. do 2 f_equal; [f_equal; lia|].
    apply imap_ext. intros i x _. simpl. f_equal. lia.
Qed.

Lemma print_processes_loop_ok (s : SystemMemory) (n : nat) :
  forall (k : nat) (c : Z),
  (k + n <= length (processes s))%nat ->
  0 <= c -> c + Z.of_nat n <= INT_MAX ->
  print_processes_loop n (Z.of_nat k) c s =
  Some (process_lines_of (take n (drop k (processes s))),
        c + Z.of_nat (length (active_processes
                                (take n (drop k (processes s)))))).
Proof.
  induction n as [|n IH]; intros k c Hlen Hc Hmax;
    cbn [print_processes_loop].
  - simpl. by rewrite Z.add_0_r.
  - destruct (processes s !! k) as [p|] eqn:Hp.
    2:{ apply lookup_ge_None in Hp. lia. }
    rewrite array_get_nat, Hp.
    replace (Z.of_nat k + 1) with (Z.of_nat (S k)) by lia.
    rewrite (drop_S _ _ _ Hp). cbn [take].
    unfold process_lines_of, active_processes. rewrite filter_cons.
    destruct (Process.is_active p =? 0) eqn:Ha.
    + apply Z.eqb_eq in Ha. rewrite decide_False by lia.
      rewrite IH by lia. done.
    + apply Z.eqb_neq in Ha. rewrite decide_True by done.
      rewrite wrap_id by (unfold_limits; lia).
      rewrite IH by lia. simpl.
      unfold process_lines_of, active_processes. do 2 f_equal. lia.
Qed.

Lemma print_waiting_loop_ok (s : SystemMemory) (n : nat) : forall (k : nat),
  storage_ok s ->
  Z.of_nat (k + n) <= MAX_WAIT_QUEUE ->
  exists ws,
    map (queue_slot s) (seq k n) = map Some ws /\
    print_waiting_loop n (Z.of_nat k) s = Some (waiting_lines_of ws).
Proof.
  induction n as [|n IH]; intros k Hs Hmax; cbn [print_waiting_loop].
  - by exists [].
  - pose proof (wait_queue_front_range s Hs) as Hf.
    pose proof (wait_queue_length s Hs) as Hl.
    rewrite wrap_id by (unfold_limits; lia).
    fold (queue_slot s k).
    destruct (queue_slot s k) as [w|] eqn:Hw.
    2:{ exfalso. rewrite queue_slot_nat in Hw by lia.
        apply lookup_ge_None in Hw.
        pose proof (Z.mod_pos_bound (wait_queue_front s + Z.of_nat k)
                      MAX_WAIT_QUEUE ltac:(by unfold_limits)). lia. }
    replace (Z.of_nat k + 1) with (Z.of_nat (S k)) by lia.
    destruct (IH (S k) Hs) as (ws & Hmap & ->); [lia|].
    exists (w :: ws). split; [|done].
    simpl. by rewrite Hw, Hmap.
Qed.

(** X13. On a well-formed structure [print_memory_layout] never reads
    outside an array, and what it prints is determined by the three
    tables: the blocks in table order numbered from 1, the active
    process records in table order (inactive records are skipped) with
    the "no active processes" line exactly when there is none, and the
    waiting requests from the front of the circular queue to its rear
    with the "no processes waiting" line exactly when the count is 0. *)
Theorem X13_layout_shows_blocks_active_processes_and_queue
    (s : SystemMemory) :
  storage_ok s ->
  exists ws,
    queue_list s = map Some ws /\
    print_memory_layout s =
    Some ([MemoryBlocksHeader] ++ block_lines_of (block_list s)
          ++ [ActiveProcessesHeader] ++ process_lines_of (process_list s)
          ++ (if decide (active_processes (process_list s) = [])
              then [NoActiveProcesses] else [])
          ++ [WaitingQueueHeader]
          ++ (if decide (wait_queue_count s = 0) then [NoProcessesWaiting]
              else waiting_lines_of ws)
          ++ [Separator]).
Proof.
  intros Hs.
  pose proof (blocks_length s Hs). pose proof (num_blocks_range s Hs).
  pose proof (processes_length s Hs). pose proof (num_processes_range s Hs).
  pose proof (wait_queue_count_range s Hs).
  destruct (print_waiting_loop_ok s (Z.to_nat (wait_queue_count s)) 0 Hs)
    as (ws & Hmap & Hw); [lia|].
  exists ws. split; [exact Hmap|].
  unfold print_memory_layout.
  change 0 with (Z.of_nat 0) at 1.
  rewrite print_blocks_loop_ok by (unfold_limits; simpl; lia).
  change 0 with (Z.of_nat 0) at 1.
  rewrite print_processes_loop_ok by (unfold_limits; simpl; lia).
  change (Z.of_nat 0) with 0 in Hw. rewrite Hw.
  rewrite !drop_0. fold (block_list s). fold (process_list s).
  unfold block_lines_of. cbn [Nat.add].
  destruct (active_processes (process_list s)) as [|p ps] eqn:Ha;
    destruct (decide (wait_queue_count s = 0)) as [Hc|Hc].
  - by rewrite Hc.
  - apply Z.eqb_neq in Hc. by rewrite Hc.
  - rewrite Hc. rewrite decide_False by done.
    replace (0 + Z.of_nat (length (p :: ps)) =? 0) with false; [done|].
    symmetry. apply Z.eqb_neq. simpl. lia.
  - apply Z.eqb_neq in Hc. rewrite Hc. rewrite decide_False by done.
    replace (0 + Z.of_nat (length (p :: ps)) =? 0) with false; [done|].
    symmetry. apply Z.eqb_neq. simpl. lia.
Qed.

Lemma X13_layout_shows_blocks_active_processes_and_queue_witness :
  print_memory_layout (state_of scenario_run) =
    Some [MemoryBlocksHeader;
          BlockLine 1 0 100 false; BlockLine 2 100 212 false;
          BlockLine 3 312 288 true; BlockLine 4 600 200 true;
          BlockLine 5 800 300 true; BlockLine 6 1100 600 true;
          ActiveProcessesHeader;
          ProcessLine 1 100 212; ProcessLine 3 0 100;
          WaitingQueueHeader; WaitingLine 2 900; Separator] /\
  exists ws,
    queue_list (state_of scenario_run) = map Some ws /\
    print_memory_layout (state_of scenario_run) =
    Some ([MemoryBlocksHeader]
          ++ block_lines_of (block_list (state_of scenario_run))
          ++ [ActiveProcessesHeader]
          ++ process_lines_of (process_list (state_of scenario_run))
          ++ (if decide (active_processes
                           (process_list (state_of scenario_run)) = [])
              then [NoActiveProcesses] else [])
          ++ [WaitingQueueHeader]
          ++ (if decide (wait_queue_count (state_of scenario_run) = 0)
              then [NoProcessesWaiting] else waiting_lines_of ws)
          ++ [Separator]).
Proof.
  split; [by_computation|].
  apply (X13_layout_shows_blocks_active_processes_and_queue
           (state_of scenario_run)).
  concrete_storage.
Defined.

(** *** The ids in the tables *)

Lemma allocations_nonneg (cs : list command) : 0 <= allocations cs.
Proof. induction cs as [|[?|?] cs IH]; simpl; lia. Qed.

Lemma issued_mono (process_id process_id' : Z) (s : SystemMemory) :
  process_id <= process_id' -> issued process_id s -> issued process_id' s.
Proof.
  intros Hle [Hp Hq]. split.
  - eapply Forall_impl; [exact Hp|]. simpl. lia.
  - eapply Forall_impl; [exact Hq|]. intros ow (w & -> & ?).
    exists w. split; [done|lia].
Qed.

Lemma issued_allocated (next : Z) (s : SystemMemory) (i : nat)
    (b : MemoryBlock.t) (process_id size : Z) :
  storage_ok s ->
  num_processes s < MAX_PROCESSES ->
  1 <= process_id < next ->
  issued next s ->
  issued next (allocated i b process_id size s).
Proof.
  intros Hs Hnp Hid [Hp Hq]. split; [|exact Hq].
  rewrite process_list_allocated by done.
  apply Forall_app. split; [done|]. by constructor.
Qed.

Lemma issued_enqueued (next : Z) (s : SystemMemory) (process_id size : Z) :
  storage_ok s ->
  wait_queue_count s < MAX_WAIT_QUEUE ->
  1 <= process_id < next ->
  issued next s ->
  issued next (enqueued process_id size s).
Proof.
  intros Hs Hc Hid [Hp Hq]. split; [exact Hp|].
  rewrite queue_list_enqueued by done.
  apply Forall_app. split; [done|]. constructor; [|done]. by eexists.
Qed.

Lemma issued_dequeued (next : Z) (s : SystemMemory) :
  storage_ok s -> wait_queue_count s <> 0 ->
  issued next s -> issued next (dequeued s).
Proof.
  intros Hs Hc [Hp Hq]. split; [exact Hp|].
  rewrite queue_list_dequeued by done.
  destruct (queue_list s); [done|]. by apply Forall_cons_1 in Hq as [_ ?].
Qed.

Lemma issued_freed (next : Z) (s : SystemMemory) (i j : nat) p b :
  process_list s !! i = Some p ->
  issued next s -> issued next (freed j b (deactivated i p s)).
Proof.
  intros Hl [Hp Hq]. split; [|exact Hq].
  rewrite (process_list_freed _ _ _ _ _ Hl).
  apply Forall_insert; [done|]. simpl.
  by apply (proj1 (Forall_lookup _ _) Hp i p).
Qed.

Lemma issued_head (next : Z) (s : SystemMemory) w :
  storage_ok s -> wait_queue_count s <> 0 -> queue_head s = Some w ->
  issued next s -> 1 <= WaitingProcess.process_id w < next.
Proof.
  intros Hs Hc Hw [_ Hq].
  destruct (queue_list_head s Hs Hc) as (w' & rest & Hw' & Hl).
  unfold queue_head in Hw. rewrite Hw in Hw'. injection Hw' as <-.
  rewrite Hl in Hq. apply Forall_cons_1 in Hq as [(w' & Heq & ?) _].
  by injection Heq as <-.
Qed.

(** One command of [main]: the structure it ends with holds only ids
    below the next value of the counter. *)
Lemma main_step_issued (total : Z) (s : SystemMemory) (process_id : Z)
    (c : command) :
  consistent total s ->
  issued process_id s ->
  1 <= process_id ->
  valid_command process_id c ->
  ends_with
    (engine_invariant total (issued (process_id + allocations [c])))
    (main_step process_id c s).
Proof.
  intros Hc Hi Hpos Hv.
  pose proof (allocations_nonneg [c]) as Hn.
  apply (main_step_ends total (issued (process_id + allocations [c]))
           (fun id => 1 <= id < process_id + allocations [c]));
    [| | | | | | |done|].
  - intros x i b size _ Hk _ _ _. exact Hk.
  - intros x i b id size Hx Hk Hf _ Hcap Hnp Hid.
    apply issued_allocated; [by eapply consistent_storage|done..].
  - intros x id size Hx Hk Hcnt Hid.
    apply issued_enqueued; [by eapply consistent_storage|done..].
  - intros x Hx Hk Hcnt.
    apply issued_dequeued; [by eapply consistent_storage|done..].
  - intros x id i p j b _ Hk Ha _.
    destruct (find_active_lookup _ _ _ _ Ha) as (Hp & _).
    by apply issued_freed.
  - intros x w Hx Hk Hcnt Hw.
    by eapply issued_head; [eapply consistent_storage| | |].
  - split; [done|]. eapply issued_mono; [|exact Hi]. lia.
  - intros size ->. simpl. lia.
Qed.

(** X14. [main] hands out the ids 1, 2, 3, ... in the order of the
    allocation requests, whether a request is placed, queued or turned
    away.  Every run of validated commands from a consistent structure
    comes to an end, by returning or at the first write beyond a full
    table; as long as the counter stays at most [INT_MAX], a run that
    returns has advanced the counter by the number of its allocation
    requests, and in the structure the run ends with every process
    record and every waiting request carries an id between 1 and that
    value of the counter minus 1, the range the id of a free command is
    validated against. *)
Theorem X14_main_hands_out_consecutive_ids (total : Z) (cs : list command) :
  forall (s : SystemMemory) (process_id : Z),
  consistent total s ->
  issued process_id s ->
  1 <= process_id ->
  process_id + allocations cs <= INT_MAX ->
  valid_commands process_id cs ->
  (exists s' out,
     main_loop cs process_id s = Ok (process_id + allocations cs) s' out /\
     issued (process_id + allocations cs) s') \/
  (exists s' out,
     main_loop cs process_id s = OutOfBounds s' out /\ table_full s' /\
     issued (process_id + allocations cs) s').
Proof.
  induction cs as [|c cs IH]; intros s process_id Hc Hi Hpos Hmax Hv.
  - left. exists s, []. simpl. rewrite Z.add_0_r. done.
  - destruct Hv as [Hv Hvs].
    pose proof (allocations_nonneg cs) as Hn.
    pose proof (allocations_nonneg [c]) as Hn1.
    assert (allocations (c :: cs) = allocations [c] + allocations cs) as Hsum
      by (destruct c; simpl; lia).
    assert (next_process_id process_id c = process_id + allocations [c])
      as Hnext.
    { destruct c; simpl in *; [|lia]. apply wrap_id. unfold_limits. lia. }
    pose proof (main_step_issued total s process_id c Hc Hi Hpos Hv) as He.
    cbn [main_loop]. unfold bind.
    destruct (main_step process_id c s) as [p1 s1 o1|s1 o1|] eqn:Hstep;
      cbn [ends_with] in He; [|right|done].
    + destruct (main_step_consistent _ _ _ _ _ _ _ Hc Hv Hstep) as [_ ->].
      destruct He as [Hc1 Hi1]. rewrite Hnext in Hvs |- *.
      destruct (IH s1 (process_id + allocations [c]) Hc1 Hi1
                  ltac:(lia) ltac:(lia) Hvs)
        as [(s' & out & -> & Hi')|(s' & out & -> & Hfull & Hi')].
      * left. exists s', (o1 ++ out).
        replace (process_id + allocations (c :: cs))
          with (process_id + allocations [c] + allocations cs) by lia.
        done.
      * right. exists s', (o1 ++ out).
        replace (process_id + allocations (c :: cs))
          with (process_id + allocations [c] + allocations cs) by lia.
        done.
    + destruct He as [[_ Hi1] Hfull]. exists s1, o1.
      split_and!; [done|done|].
      eapply issued_mono; [|exact Hi1]. lia.
Qed.

Lemma X14_main_hands_out_consecutive_ids_witness :
  main_loop [Allocate 212; Allocate 900; Allocate 100; Free 1] 1
    (initialized scenario_blocks)
    = Ok 4 (state_of (main_loop [Allocate 212; Allocate 900; Allocate 100;
                                 Free 1] 1 (initialized scenario_blocks)))
        [MemoryAllocatedAt 100; AddedToWaitQueue 2; ProcessAddedToWaitQueue;
         MemoryAllocatedAt 0; MemoryFreed 1; AddedToWaitQueue 2] /\
  ((exists s' out,
      main_loop [Allocate 212; Allocate 900; Allocate 100; Free 1] 1
        (initialized scenario_blocks)
      = Ok (1 + allocations [Allocate 212; Allocate 900; Allocate 100;
                             Free 1]) s' out /\
      issued (1 + allocations [Allocate 212; Allocate 900; Allocate 100;
                               Free 1]) s') \/
   (exists s' out,
      main_loop [Allocate 212; Allocate 900; Allocate 100; Free 1] 1
        (initialized scenario_blocks) = OutOfBounds s' out /\
      table_full s' /\
      issued (1 + allocations [Allocate 212; Allocate 900; Allocate 100;
                               Free 1]) s')).
Proof.
  split; [by_computation|].
  apply (X14_main_hands_out_consecutive_ids
           (sum_sizes scenario_blocks)
           [Allocate 212; Allocate 900; Allocate 100; Free 1]
           (initialized scenario_blocks) 1).
  - apply initialized_consistent; [|by_computation].
    split; [split; by_computation|repeat constructor; by_computation].
  - split; by constructor.
  - lia.
  - by_computation.
  - simpl. repeat split; by_computation.
Defined.
